(** * Deconflict: trajectory interpolation and spatio-temporal conflict detection

    A shallow embedding of the core of the Deconflict repository
    ([data_models.py], [trajectory.py], [detector.py] and
    [detector_enhanced.py]) together with the properties its design
    document states about it.

    Numbers.  The program computes with Python / numpy floats.  They are
    modelled here by the real numbers [R] of the Standard Library: every
    arithmetic operation is exact, [sqrt] is the real square root, and
    there is neither [nan] nor rounding.  The one infinite value the code
    uses, [float('inf')] as the initial tracked minimum, is modelled by
    the constructor [PInf] of [ereal].  The module [ieee] embeds the
    same functions a second time over binary64 floats; it evaluates them
    on the inputs where rounding or [nan] decides what the code does.

    Failure.  Python exceptions are modelled by the error monad [result]:
    a function that can raise returns [Err e], and a caller propagates it
    with [bind], as an uncaught exception propagates. *)

From Stdlib Require Import Reals Lra Lia List String ZArith Bool Arith.
From Stdlib Require Floats Uint63.
Import ListNotations.
Open Scope R_scope.

(** ** Exceptions *)

(** The [ValueError]s of the program, by the place that raises them. *)
Inductive value_error : Type :=
| TooFewWaypoints      (* Flight.__post_init__: len(waypoints) < 2 *)
| WindowNotPositive    (* Flight.__post_init__: t_start >= t_end *)
| SpeedNotPositive     (* Flight.__post_init__: speed <= 0 *)
| TimeOutsideSegment   (* Segment.position_at_time: t outside the bounds *)
| NegativeSampleCount. (* np.linspace: num < 0 *)

Inductive exn : Type :=
| ValueError (why : value_error)
| ZeroDivisionError
| IndexError
| TypeError.

Inductive result (A : Type) : Type :=
| Ok (a : A)
| Err (e : exn).
Arguments Ok {A} a.
Arguments Err {A} e.

Definition bind {A B : Type} (m : result A) (k : A -> result B) : result B :=
  match m with
  | Ok a => k a
  | Err e => Err e
  end.

Notation "x <- m ;; k" := (bind m (fun x => k))
  (at level 61, m at next level, right associativity).
Notation "m ;;; k" := (bind m (fun _ => k))
  (at level 61, right associativity).

(** A Python [for] loop over the list [l], whose body updates the loop
    state [s] or raises. *)
Fixpoint for_each {S A : Type} (l : list A) (body : S -> A -> result S)
  (s : S) : result S :=
  match l with
  | [] => Ok s
  | a :: l' => s' <- body s a ;; for_each l' body s'
  end.

(** [l[i]] for a non-negative index. *)
Definition index {A : Type} (l : list A) (i : nat) : result A :=
  match nth_error l i with
  | Some a => Ok a
  | None => Err IndexError
  end.

(** ** Numbers *)

Definition Rltb (a b : R) : bool := if Rlt_dec a b then true else false.
Definition Rleb (a b : R) : bool := if Rle_dec a b then true else false.
Definition Reqb (a b : R) : bool := if Req_dec_T a b then true else false.

(** [a / b]; a zero divisor is an error (Python raises
    [ZeroDivisionError], numpy yields [inf] or [nan], which the reals do
    not have). *)
Definition divide (a b : R) : result R :=
  if Reqb b 0 then Err ZeroDivisionError else Ok (a / b).

(** A float that may be [float('inf')]. *)
Inductive ereal : Type :=
| Fin (r : R)
| PInf.

Definition ereal_ltb (a b : ereal) : bool :=
  match a, b with
  | Fin x, Fin y => Rltb x y
  | Fin _, PInf => true
  | PInf, _ => false
  end.

(** ** numpy *)

(** A one-dimensional array of floats. *)
Definition ndarray : Type := list R.

(** Element-wise [a + b] and [a - b] on arrays of one shape, and [k * a]. *)
Fixpoint vadd (a b : ndarray) : ndarray :=
  match a, b with
  | u :: a', v :: b' => (u + v) :: vadd a' b'
  | _, _ => []
  end.

Fixpoint vsub (a b : ndarray) : ndarray :=
  match a, b with
  | u :: a', v :: b' => (u - v) :: vsub a' b'
  | _, _ => []
  end.

Definition vscale (k : R) (a : ndarray) : ndarray := map (fun u => k * u) a.

(** [np.linalg.norm] of a one-dimensional array: the Euclidean norm. *)
Definition sum_squares (a : ndarray) : R :=
  fold_right (fun u acc => u * u + acc) 0 a.

Definition norm (a : ndarray) : R := sqrt (sum_squares a).

(** [y[-1] = v] on a non-empty list. *)
Definition set_last (v : R) (y : list R) : list R :=
  match y with
  | [] => []
  | _ => removelast y ++ [v]
  end.

(** [np.linspace(start, stop, num)] with [endpoint=True]: [num] samples
    [i * step + start] for [i = 0 .. num - 1], where
    [step = (stop - start) / (num - 1)], the last one overwritten by
    [stop] when [num > 1]; with [num <= 1] the samples are
    [i * (stop - start) + start]; a negative [num] raises [ValueError]. *)
Definition linspace (start stop : R) (num : Z) : result (list R) :=
  if (num <? 0)%Z then Err (ValueError NegativeSampleCount)
  else
    let div := (num - 1)%Z in
    let delta := stop - start in
    let arange := seq 0 (Z.to_nat num) in
    if (0 <? div)%Z then
      step <- divide delta (IZR div) ;;
      let y := map (fun i => INR i * step + start) arange in
      Ok (set_last stop y)
    else
      Ok (map (fun i => INR i * delta + start) arange).

(** [np.dot] of two one-dimensional arrays of one shape. *)
Fixpoint dot (a b : ndarray) : R :=
  match a, b with
  | u :: a', v :: b' => u * v + dot a' b'
  | _, _ => 0
  end.

(** [np.clip(t, lo, hi)]: [minimum(maximum(t, lo), hi)]. *)
Definition clip (t lo hi : R) : R := Rmin (Rmax t lo) hi.

(** [np.zeros(n)] *)
Definition zeros (n : nat) : ndarray := repeat 0 n.

(** [a / d] for an array [a] and a float [d], element by element; a zero
    divisor is an error, as for [divide]. *)
Definition vdivide (a : ndarray) (d : R) : result ndarray :=
  if Reqb d 0 then Err ZeroDivisionError else Ok (map (fun u => u / d) a).

(** [np.arange(start, stop, step)] on floats:
    [ceil((stop - start) / step)] values [start + i * step], none when
    that count is not positive; a zero step is an error.  Over exact
    reals every value lies below [stop]; numpy takes the ceiling of a
    rounded quotient, and its last value can reach or pass [stop]. *)
Definition arange (start stop step : R) : result (list R) :=
  q <- divide (stop - start) step ;;
  Ok (map (fun i => start + INR i * step) (seq 0 (Z.to_nat (Zceil q)))).

(** ** data_models.py *)

Record Waypoint : Type := mkWaypoint {
  x : R;
  y : R;
  z : R
}.

Definition to_array (w : Waypoint) (include_z : bool) : ndarray :=
  if include_z then [x w; y w; z w] else [x w; y w].

Module Flight.
Record t : Type := mk {
  id : string;
  waypoints : list Waypoint;
  t_start : R;
  t_end : R;
  speed : R
}.

(** [__post_init__]: the three checks, in the order of the source.  On
    numbers [t_start >= t_end] is [t_end <= t_start]; what the checks do
    on [nan] is in [ieee.Flight.post_init]. *)
Definition post_init (f : t) : result unit :=
  if (List.length (waypoints f) <? 2)%nat then
    Err (ValueError TooFewWaypoints)
  else if Rleb (t_end f) (t_start f) then
    Err (ValueError WindowNotPositive)
  else if Rleb (speed f) 0 then
    Err (ValueError SpeedNotPositive)
  else Ok tt.

(** The constructor call [Flight(id, waypoints, t_start, t_end, speed)]:
    the dataclass stores the fields and then runs [__post_init__]. *)
Definition new (id : string) (waypoints : list Waypoint)
  (t_start t_end speed : R) : result t :=
  let f := mk id waypoints t_start t_end speed in
  post_init f ;;; Ok f.

Definition duration (f : t) : R := t_end f - t_start f.

(** [any(wp.z != 0.0 for wp in self.waypoints)] *)
Definition is_3d (f : t) : bool :=
  existsb (fun wp => negb (Reqb (z wp) 0)) (waypoints f).

(** The invariant of a constructed flight. *)
Definition valid (f : t) : Prop :=
  (2 <= List.length (waypoints f))%nat /\ t_start f < t_end f /\ 0 < speed f.
End Flight.

Module Segment.
Record t : Type := mk {
  start : Waypoint;
  end_ : Waypoint;
  t_start : R;
  t_end : R;
  flight_id : string
}.

Definition duration (s : t) : R := t_end s - t_start s.

Definition length (s : t) (include_z : bool) : R :=
  norm (vsub (to_array (end_ s) include_z) (to_array (start s) include_z)).

(** Linear interpolation of the position at time [t]. *)
Definition position_at_time (s : t) (t : R) (include_z : bool)
  : result ndarray :=
  if Rltb t (t_start s) || Rltb (t_end s) t then
    Err (ValueError TimeOutsideSegment)
  else if Reqb (t_start s) (t_end s) then
    Ok (to_array (start s) include_z)
  else
    alpha <- divide (t - t_start s) (t_end s - t_start s) ;;
    let start_pos := to_array (start s) include_z in
    let end_pos := to_array (end_ s) include_z in
    Ok (vadd start_pos (vscale alpha (vsub end_pos start_pos))).

(** A segment whose time span is an interval. *)
Definition wf (s : t) : Prop := t_start s <= t_end s.
End Segment.

Module Conflict.
Record t : Type := mk {
  primary_flight_id : string;
  conflicting_flight_id : string;
  location : list R;
  time : R;
  min_distance : R;
  safety_buffer : R
}.
End Conflict.

(** The dictionaries [load_flight_from_dict] reads and
    [save_flight_to_dict] writes, with the values typed as the dataclasses
    annotate them: every key the functions look up is a field, [None] when
    the dictionary does not have the key.  A dictionary can hold any other
    key as well; neither function reads the value of one, so only the
    names of the other keys are kept. *)
Record waypoint_dict : Type := mkWaypointDict {
  wp_x : option R;          (* 'x' *)
  wp_y : option R;          (* 'y' *)
  wp_z : option R;          (* 'z' *)
  wp_others : list string   (* the other keys *)
}.

Record flight_dict : Type := mkFlightDict {
  fd_id : option string;                      (* 'id' *)
  fd_waypoints : option (list waypoint_dict); (* 'waypoints' *)
  fd_t_start : option R;                      (* 't_start' *)
  fd_t_end : option R;                        (* 't_end' *)
  fd_speed : option R;                        (* 'speed' *)
  fd_others : list string                     (* the other keys *)
}.

(** What loading can raise: [KeyError] for a missing key, or what the
    [Flight] constructor raises. *)
Inductive load_exn : Type :=
| KeyError (key : string)
| Raised (e : exn).

Inductive loaded (A : Type) : Type :=
| Loaded (a : A)
| Failed (e : load_exn).
Arguments Loaded {A} a.
Arguments Failed {A} e.

Definition and_then {A B : Type} (m : loaded A) (k : A -> loaded B)
  : loaded B :=
  match m with
  | Loaded a => k a
  | Failed e => Failed e
  end.

(** [d[key]] *)
Definition getitem {A : Type} (key : string) (entry : option A) : loaded A :=
  match entry with
  | Some v => Loaded v
  | None => Failed (KeyError key)
  end.

(** [d.get(key, default)] *)
Definition get {A : Type} (entry : option A) (default : A) : A :=
  match entry with
  | Some v => v
  | None => default
  end.

(** [[Waypoint(wp['x'], wp['y'], wp.get('z', 0.0)) for wp in ...]] *)
Fixpoint load_waypoints (l : list waypoint_dict) : loaded (list Waypoint) :=
  match l with
  | [] => Loaded []
  | wp :: l' =>
      and_then (getitem "x" (wp_x wp)) (fun x =>
      and_then (getitem "y" (wp_y wp)) (fun y =>
      let w := mkWaypoint x y (get (wp_z wp) 0) in
      and_then (load_waypoints l') (fun ws => Loaded (w :: ws))))
  end.

Definition load_flight_from_dict (data : flight_dict) : loaded Flight.t :=
  and_then (getitem "waypoints" (fd_waypoints data)) (fun raw =>
  and_then (load_waypoints raw) (fun waypoints =>
  and_then (getitem "id" (fd_id data)) (fun id =>
  and_then (getitem "t_start" (fd_t_start data)) (fun t_start =>
  and_then (getitem "t_end" (fd_t_end data)) (fun t_end =>
  let speed := get (fd_speed data) 5 in
  match Flight.new id waypoints t_start t_end speed with
  | Ok flight => Loaded flight
  | Err e => Failed (Raised e)
  end))))).

(** The dictionary literal of [save_flight_to_dict]: the five keys, and
    three keys for each waypoint. *)
Definition save_flight_to_dict (flight : Flight.t) : flight_dict :=
  mkFlightDict
    (Some (Flight.id flight))
    (Some (map (fun wp => mkWaypointDict (Some (x wp)) (Some (y wp))
                            (Some (z wp)) [])
             (Flight.waypoints flight)))
    (Some (Flight.t_start flight))
    (Some (Flight.t_end flight))
    (Some (Flight.speed flight))
    [].

(** ** trajectory.py *)

Module trajectory.
(** The first loop of [compute_segment_times]: the length of every leg.
    [range(n_waypoints - 1)] is empty when there is no waypoint, as
    [seq 0 (0 - 1)] is. *)
Definition leg_lengths (flight : Flight.t) : result (list R) :=
  let n_waypoints := List.length (Flight.waypoints flight) in
  for_each (seq 0 (n_waypoints - 1))
    (fun lengths i =>
       wp_i <- index (Flight.waypoints flight) i ;;
       let start := to_array wp_i (Flight.is_3d flight) in
       wp_j <- index (Flight.waypoints flight) (i + 1) ;;
       let end_ := to_array wp_j (Flight.is_3d flight) in
       let length := norm (vsub end_ start) in
       Ok (lengths ++ [length]))
    [].

(** [sum(lengths)]: a left fold from [0]. *)
Definition sum (l : list R) : R := fold_left Rplus l 0.

(** The timestamp of every waypoint, first and last included.  Over
    exact reals the running sum [cumulative_time] never passes [t_end];
    [ieee.trajectory.compute_segment_times] is the same function on
    floats, where it can. *)
Definition compute_segment_times (flight : Flight.t) : result (list R) :=
  let n_waypoints := List.length (Flight.waypoints flight) in
  lengths <- leg_lengths flight ;;
  let total_length := sum lengths in
  if Reqb total_length 0 then
    linspace (Flight.t_start flight) (Flight.t_end flight)
      (Z.of_nat n_waypoints)
  else
    let times := [Flight.t_start flight] in
    let cumulative_time := Flight.t_start flight in
    let total_duration := Flight.t_end flight - Flight.t_start flight in
    st <- for_each (removelast lengths)
            (fun (st : list R * R) length =>
               let (times, cumulative_time) := st in
               q <- divide length total_length ;;
               let time_for_segment := q * total_duration in
               let cumulative_time := cumulative_time + time_for_segment in
               Ok (times ++ [cumulative_time], cumulative_time))
            (times, cumulative_time) ;;
    Ok (fst st ++ [Flight.t_end flight]).

Definition build_segments (flight : Flight.t) : result (list Segment.t) :=
  times <- compute_segment_times flight ;;
  for_each (seq 0 (List.length (Flight.waypoints flight) - 1))
    (fun segments i =>
       wp_i <- index (Flight.waypoints flight) i ;;
       wp_j <- index (Flight.waypoints flight) (i + 1) ;;
       t_i <- index times i ;;
       t_j <- index times (i + 1) ;;
       let segment := Segment.mk wp_i wp_j t_i t_j (Flight.id flight) in
       Ok (segments ++ [segment]))
    [].

(** The velocity vector of a segment: zero for a segment of no
    duration. *)
Definition get_velocity_vector (segment : Segment.t) (include_z : bool)
  : result ndarray :=
  if Reqb (Segment.duration segment) 0 then
    Ok (zeros (if include_z then 3 else 2))
  else
    let start_pos := to_array (Segment.start segment) include_z in
    let end_pos := to_array (Segment.end_ segment) include_z in
    let displacement := vsub end_pos start_pos in
    vdivide displacement (Segment.duration segment).

Definition get_speed (segment : Segment.t) (include_z : bool) : result R :=
  velocity <- get_velocity_vector segment include_z ;;
  Ok (norm velocity).

(** The trajectory sampled every [dt] seconds, segment by segment: the
    sample times and the positions at them. *)
Definition interpolate_trajectory (flight : Flight.t) (dt : R)
  : result (list R * list ndarray) :=
  segments <- build_segments flight ;;
  let is_3d := Flight.is_3d flight in
  for_each segments
    (fun (acc : list R * list ndarray) segment =>
       t_samples <- arange (Segment.t_start segment) (Segment.t_end segment)
                      dt ;;
       let t_samples :=
         if (List.length t_samples =? 0)%nat
            || Rltb (last t_samples 0) (Segment.t_end segment - dt / 2)
         then t_samples ++ [Segment.t_end segment]
         else t_samples in
       for_each t_samples
         (fun (acc : list R * list ndarray) t =>
            let (times, positions) := acc in
            pos <- Segment.position_at_time segment t is_3d ;;
            Ok (times ++ [t], positions ++ [pos]))
         acc)
    ([], []).
End trajectory.

(** ** detector.py *)

(** The three variables the sampling loop updates:
    [min_distance], [conflict_time] and [conflict_location]. *)
Record tracked : Type := mkTracked {
  min_distance : ereal;
  conflict_time : option R;
  conflict_location : option ndarray
}.

Module detector.
Definition time_windows_overlap (t1_start t1_end t2_start t2_end : R) : bool :=
  negb (Rltb t1_end t2_start || Rltb t2_end t1_start).

Definition compute_overlap_window (t1_start t1_end t2_start t2_end : R)
  : option (R * R) :=
  if negb (time_windows_overlap t1_start t1_end t2_start t2_end) then None
  else
    let overlap_start := Rmax t1_start t2_start in
    let overlap_end := Rmin t1_end t2_end in
    Some (overlap_start, overlap_end).

(** The distance from a point to a line segment. *)
Definition point_to_segment_distance (point seg_start seg_end : ndarray)
  : result R :=
  let segment_vec := vsub seg_end seg_start in
  let segment_length_sq := dot segment_vec segment_vec in
  if Reqb segment_length_sq 0 then
    Ok (norm (vsub point seg_start))
  else
    t <- divide (dot (vsub point seg_start) segment_vec) segment_length_sq ;;
    let t := clip t 0 1 in
    let closest := vadd seg_start (vscale t segment_vec) in
    Ok (norm (vsub point closest)).

(** The static distance between two segments, from the endpoints of each
    to the other; [min(distances)] over the list of the four. *)
Definition segment_to_segment_distance (seg1 seg2 : Segment.t)
  (include_z : bool) : result R :=
  let p1_start := to_array (Segment.start seg1) include_z in
  let p1_end := to_array (Segment.end_ seg1) include_z in
  let p2_start := to_array (Segment.start seg2) include_z in
  let p2_end := to_array (Segment.end_ seg2) include_z in
  d1 <- point_to_segment_distance p1_start p2_start p2_end ;;
  d2 <- point_to_segment_distance p1_end p2_start p2_end ;;
  d3 <- point_to_segment_distance p2_start p1_start p1_end ;;
  d4 <- point_to_segment_distance p2_end p1_start p1_end ;;
  Ok (Rmin (Rmin (Rmin d1 d2) d3) d4).

(** The body of the sampling loop of [segment_conflict]. *)
Definition sample (seg1 seg2 : Segment.t) (include_z : bool)
  (st : tracked) (t : R) : result tracked :=
  pos1 <- Segment.position_at_time seg1 t include_z ;;
  pos2 <- Segment.position_at_time seg2 t include_z ;;
  let distance := norm (vsub pos1 pos2) in
  if ereal_ltb (Fin distance) (min_distance st) then
    Ok (mkTracked (Fin distance) (Some t) (Some pos1))
  else Ok st.

(** The sampling loop of [segment_conflict] over the overlap window. *)
Definition sample_overlap (seg1 seg2 : Segment.t) (include_z : bool)
  (overlap_start overlap_end : R) (time_samples : Z) : result tracked :=
  time_points <- linspace overlap_start overlap_end time_samples ;;
  for_each time_points (sample seg1 seg2 include_z)
    (mkTracked PInf None None).

(** [tuple(None)] raises [TypeError]; a tracked minimum below a finite
    buffer is finite. *)
Definition segment_conflict (seg1 seg2 : Segment.t) (safety_buffer : R)
  (include_z : bool) (time_samples : Z) : result (option Conflict.t) :=
  match compute_overlap_window (Segment.t_start seg1) (Segment.t_end seg1)
          (Segment.t_start seg2) (Segment.t_end seg2) with
  | None => Ok None
  | Some (overlap_start, overlap_end) =>
      st <- sample_overlap seg1 seg2 include_z overlap_start overlap_end
              time_samples ;;
      if ereal_ltb (min_distance st) (Fin safety_buffer) then
        match conflict_location st, conflict_time st, min_distance st with
        | Some loc, Some t, Fin d =>
            Ok (Some (Conflict.mk (Segment.flight_id seg1)
                        (Segment.flight_id seg2) loc t d safety_buffer))
        | _, _, _ => Err TypeError
        end
      else Ok None
  end.

(** The default of the parameter [time_samples] of [segment_conflict]. *)
Definition default_time_samples : Z := 20.

Definition check_mission (primary : Flight.t)
  (simulated_flights : list Flight.t) (safety_buffer : R) (include_z : bool)
  : result (bool * list Conflict.t) :=
  primary_segments <- trajectory.build_segments primary ;;
  all_conflicts <-
    for_each simulated_flights
      (fun all_conflicts sim_flight =>
         sim_segments <- trajectory.build_segments sim_flight ;;
         for_each primary_segments
           (fun all_conflicts p_seg =>
              for_each sim_segments
                (fun all_conflicts s_seg =>
                   conflict <- segment_conflict p_seg s_seg safety_buffer
                                 include_z default_time_samples ;;
                   match conflict with
                   | Some c => Ok (all_conflicts ++ [c])
                   | None => Ok all_conflicts
                   end)
                all_conflicts)
           all_conflicts)
      [] ;;
  let is_clear := (List.length all_conflicts =? 0)%nat in
  Ok (is_clear, all_conflicts).
End detector.

(** ** detector_enhanced.py *)

Module detector_enhanced.
Definition time_windows_overlap (t1_start t1_end t2_start t2_end : R) : bool :=
  negb (Rltb t1_end t2_start || Rltb t2_end t1_start).

Definition compute_overlap_window (t1_start t1_end t2_start t2_end : R)
  : option (R * R) :=
  if negb (time_windows_overlap t1_start t1_end t2_start t2_end) then None
  else
    let overlap_start := Rmax t1_start t2_start in
    let overlap_end := Rmin t1_end t2_end in
    Some (overlap_start, overlap_end).

Definition segment_conflict_high_accuracy (seg1 seg2 : Segment.t)
  (safety_buffer : R) (include_z : bool) (time_samples : Z)
  : result (option Conflict.t) :=
  match compute_overlap_window (Segment.t_start seg1) (Segment.t_end seg1)
          (Segment.t_start seg2) (Segment.t_end seg2) with
  | None => Ok None
  | Some (overlap_start, overlap_end) =>
      time_points <- linspace overlap_start overlap_end time_samples ;;
      st <- for_each time_points
              (fun st t =>
                 pos1 <- Segment.position_at_time seg1 t include_z ;;
                 pos2 <- Segment.position_at_time seg2 t include_z ;;
                 let distance := norm (vsub pos1 pos2) in
                 if ereal_ltb (Fin distance) (min_distance st) then
                   Ok (mkTracked (Fin distance) (Some t) (Some pos1))
                 else Ok st)
              (mkTracked PInf None None) ;;
      if ereal_ltb (min_distance st) (Fin safety_buffer) then
        match conflict_location st, conflict_time st, min_distance st with
        | Some loc, Some t, Fin d =>
            Ok (Some (Conflict.mk (Segment.flight_id seg1)
                        (Segment.flight_id seg2) loc t d safety_buffer))
        | _, _, _ => Err TypeError
        end
      else Ok None
  end.

Definition check_mission_high_accuracy (primary : Flight.t)
  (simulated_flights : list Flight.t) (safety_buffer : R) (include_z : bool)
  (time_samples : Z) : result (bool * list Conflict.t) :=
  primary_segments <- trajectory.build_segments primary ;;
  all_conflicts <-
    for_each simulated_flights
      (fun all_conflicts sim_flight =>
         sim_segments <- trajectory.build_segments sim_flight ;;
         for_each primary_segments
           (fun all_conflicts p_seg =>
              for_each sim_segments
                (fun all_conflicts s_seg =>
                   conflict <- segment_conflict_high_accuracy p_seg s_seg
                                 safety_buffer include_z time_samples ;;
                   match conflict with
                   | Some c => Ok (all_conflicts ++ [c])
                   | None => Ok all_conflicts
                   end)
                all_conflicts)
           all_conflicts)
      [] ;;
  let is_clear := (List.length all_conflicts =? 0)%nat in
  Ok (is_clear, all_conflicts).

(** Backward compatibility: the default accuracy mode. *)
Definition segment_conflict (seg1 seg2 : Segment.t) (safety_buffer : R)
  (include_z : bool) (time_samples : Z) : result (option Conflict.t) :=
  segment_conflict_high_accuracy seg1 seg2 safety_buffer include_z
    time_samples.

Definition check_mission (primary : Flight.t)
  (simulated_flights : list Flight.t) (safety_buffer : R) (include_z : bool)
  : result (bool * list Conflict.t) :=
  check_mission_high_accuracy primary simulated_flights safety_buffer
    include_z 20.
End detector_enhanced.

(** ** viz.py *)

Module viz.
(** The severity of a conflict from the share of the buffer it violates.
    The division is [divide]: a zero buffer raises between Python floats;
    when the distance is a numpy float, as in a [Conflict] of the
    detector, the code goes on with [inf] or [nan] instead, which the
    reals do not have.  The properties take the buffer positive. *)
Definition get_conflict_severity (min_distance safety_buffer : R)
  : result string :=
  let violation := safety_buffer - min_distance in
  q <- divide violation safety_buffer ;;
  let violation_percent := q * 100 in
  if Rltb violation_percent 20 then Ok "low"%string
  else if Rltb violation_percent 50 then Ok "medium"%string
  else if Rltb violation_percent 80 then Ok "high"%string
  else Ok "critical"%string.
End viz.

(** ** The same functions over binary64 floats *)

(** The modules above compute with exact reals.  The module [ieee] embeds
    the same source functions, line for line, over the primitive binary64
    floats, the numbers the program runs on: [+], [-], [*], [/] and [sqrt]
    round to nearest as Python's and numpy's do, the comparisons are the
    IEEE ones, all false on [nan], and a float divided by zero is
    [infinity] or [nan], as in numpy.  These definitions evaluate; the
    properties use them where what the code does on a concrete input
    depends on rounding or on [nan]. *)
Module ieee.
Import PrimFloat.
#[local] Open Scope float_scope.

(** An integer count as a float. *)
Definition of_Z (n : Z) : float := of_uint63 (Uint63.of_Z n).

Definition ndarray : Type := list float.

Fixpoint vadd (a b : ndarray) : ndarray :=
  match a, b with
  | u :: a', v :: b' => (u + v) :: vadd a' b'
  | _, _ => []
  end.

Fixpoint vsub (a b : ndarray) : ndarray :=
  match a, b with
  | u :: a', v :: b' => (u - v) :: vsub a' b'
  | _, _ => []
  end.

Definition vscale (k : float) (a : ndarray) : ndarray := map (fun u => k * u) a.

(** [np.linalg.norm] of a one-dimensional array, [sqrt(dot(x, x))], the
    products added from the left. *)
Definition sum_squares (a : ndarray) : float :=
  fold_left (fun acc u => acc + u * u) a 0.

Definition norm (a : ndarray) : float := PrimFloat.sqrt (sum_squares a).

Definition set_last (v : float) (y : list float) : list float :=
  match y with
  | [] => []
  | _ => removelast y ++ [v]
  end.

(** [np.linspace(start, stop, num)] with [endpoint=True]:
    [y = arange(0, num)], multiplied by [step = delta / div] (or divided by
    [div] and multiplied by [delta] when the step underflows to zero),
    shifted by [start], the last sample overwritten by [stop]. *)
Definition linspace (start stop : float) (num : Z) : result (list float) :=
  if (num <? 0)%Z then Err (ValueError NegativeSampleCount)
  else
    let div := (num - 1)%Z in
    let delta := stop - start in
    let y := map (fun i => of_Z (Z.of_nat i)) (seq 0 (Z.to_nat num)) in
    let y :=
      if (0 <? div)%Z then
        let step := delta / of_Z div in
        if step =? 0 then map (fun v => v / of_Z div * delta) y
        else map (fun v => v * step) y
      else map (fun v => v * delta) y in
    let y := map (fun v => v + start) y in
    Ok (if (1 <? num)%Z then set_last stop y else y).

(** Python's [max(a, b)] and [min(a, b)]: the first argument unless the
    second is strictly larger, or strictly smaller. *)
Definition max (a b : float) : float := if a <? b then b else a.
Definition min (a b : float) : float := if b <? a then b else a.

Record Waypoint : Type := mkWaypoint {
  x : float;
  y : float;
  z : float
}.

Definition to_array (w : Waypoint) (include_z : bool) : ndarray :=
  if include_z then [x w; y w; z w] else [x w; y w].

Module Flight.
Record t : Type := mk {
  id : string;
  waypoints : list Waypoint;
  t_start : float;
  t_end : float;
  speed : float
}.

(** [__post_init__]: [t_start >= t_end] and [speed <= 0] are the IEEE
    comparisons [t_end <= t_start] and [speed <= 0]. *)
Definition post_init (f : t) : result unit :=
  if (List.length (waypoints f) <? 2)%nat then
    Err (ValueError TooFewWaypoints)
  else if t_end f <=? t_start f then
    Err (ValueError WindowNotPositive)
  else if speed f <=? 0 then
    Err (ValueError SpeedNotPositive)
  else Ok tt.

Definition new (id : string) (waypoints : list Waypoint)
  (t_start t_end speed : float) : result t :=
  let f := mk id waypoints t_start t_end speed in
  post_init f ;;; Ok f.

Definition duration (f : t) : float := t_end f - t_start f.

Definition is_3d (f : t) : bool :=
  existsb (fun wp => negb (z wp =? 0)) (waypoints f).
End Flight.

Module Segment.
Record t : Type := mk {
  start : Waypoint;
  end_ : Waypoint;
  t_start : float;
  t_end : float;
  flight_id : string
}.

Definition duration (s : t) : float := t_end s - t_start s.

Definition position_at_time (s : t) (t : float) (include_z : bool)
  : result ndarray :=
  if (t <? t_start s) || (t_end s <? t) then
    Err (ValueError TimeOutsideSegment)
  else if t_start s =? t_end s then
    Ok (to_array (start s) include_z)
  else
    let alpha := (t - t_start s) / (t_end s - t_start s) in
    let start_pos := to_array (start s) include_z in
    let end_pos := to_array (end_ s) include_z in
    Ok (vadd start_pos (vscale alpha (vsub end_pos start_pos))).
End Segment.

Module Conflict.
Record t : Type := mk {
  primary_flight_id : string;
  conflicting_flight_id : string;
  location : list float;
  time : float;
  min_distance : float;
  safety_buffer : float
}.
End Conflict.

Module trajectory.
Definition leg_lengths (flight : Flight.t) : result (list float) :=
  let n_waypoints := List.length (Flight.waypoints flight) in
  for_each (seq 0 (n_waypoints - 1))
    (fun lengths i =>
       wp_i <- index (Flight.waypoints flight) i ;;
       let start := to_array wp_i (Flight.is_3d flight) in
       wp_j <- index (Flight.waypoints flight) (i + 1) ;;
       let end_ := to_array wp_j (Flight.is_3d flight) in
       let length := norm (vsub end_ start) in
       Ok (lengths ++ [length]))
    [].

(** [sum(lengths)]: a left fold from [0]. *)
Definition sum (l : list float) : float := fold_left PrimFloat.add l 0.

Definition compute_segment_times (flight : Flight.t) : result (list float) :=
  let n_waypoints := List.length (Flight.waypoints flight) in
  lengths <- leg_lengths flight ;;
  let total_length := sum lengths in
  if total_length =? 0 then
    linspace (Flight.t_start flight) (Flight.t_end flight)
      (Z.of_nat n_waypoints)
  else
    let times := [Flight.t_start flight] in
    let cumulative_time := Flight.t_start flight in
    let total_duration := Flight.t_end flight - Flight.t_start flight in
    st <- for_each (removelast lengths)
            (fun (st : list float * float) length =>
               let (times, cumulative_time) := st in
               let time_for_segment := length / total_length * total_duration in
               let cumulative_time := cumulative_time + time_for_segment in
               Ok (times ++ [cumulative_time], cumulative_time))
            (times, cumulative_time) ;;
    Ok (fst st ++ [Flight.t_end flight]).

Definition build_segments (flight : Flight.t) : result (list Segment.t) :=
  times <- compute_segment_times flight ;;
  for_each (seq 0 (List.length (Flight.waypoints flight) - 1))
    (fun segments i =>
       wp_i <- index (Flight.waypoints flight) i ;;
       wp_j <- index (Flight.waypoints flight) (i + 1) ;;
       t_i <- index times i ;;
       t_j <- index times (i + 1) ;;
       let segment := Segment.mk wp_i wp_j t_i t_j (Flight.id flight) in
       Ok (segments ++ [segment]))
    [].
End trajectory.

(** The three variables the sampling loop updates. *)
Record tracked : Type := mkTracked {
  min_distance : float;
  conflict_time : option float;
  conflict_location : option ndarray
}.

Module detector.
Definition time_windows_overlap (t1_start t1_end t2_start t2_end : float)
  : bool :=
  negb ((t1_end <? t2_start) || (t2_end <? t1_start)).

Definition compute_overlap_window (t1_start t1_end t2_start t2_end : float)
  : option (float * float) :=
  if negb (time_windows_overlap t1_start t1_end t2_start t2_end) then None
  else
    let overlap_start := max t1_start t2_start in
    let overlap_end := min t1_end t2_end in
    Some (overlap_start, overlap_end).

Definition segment_conflict (seg1 seg2 : Segment.t) (safety_buffer : float)
  (include_z : bool) (time_samples : Z) : result (option Conflict.t) :=
  match compute_overlap_window (Segment.t_start seg1) (Segment.t_end seg1)
          (Segment.t_start seg2) (Segment.t_end seg2) with
  | None => Ok None
  | Some (overlap_start, overlap_end) =>
      time_points <- linspace overlap_start overlap_end time_samples ;;
      st <- for_each time_points
              (fun st t =>
                 pos1 <- Segment.position_at_time seg1 t include_z ;;
                 pos2 <- Segment.position_at_time seg2 t include_z ;;
                 let distance := norm (vsub pos1 pos2) in
                 if distance <? min_distance st then
                   Ok (mkTracked distance (Some t) (Some pos1))
                 else Ok st)
              (mkTracked infinity None None) ;;
      if min_distance st <? safety_buffer then
        match conflict_location st, conflict_time st with
        | Some loc, Some t =>
            Ok (Some (Conflict.mk (Segment.flight_id seg1)
                        (Segment.flight_id seg2) loc t (min_distance st)
                        safety_buffer))
        | _, _ => Err TypeError
        end
      else Ok None
  end.

Definition check_mission (primary : Flight.t)
  (simulated_flights : list Flight.t) (safety_buffer : float)
  (include_z : bool) : result (bool * list Conflict.t) :=
  primary_segments <- trajectory.build_segments primary ;;
  all_conflicts <-
    for_each simulated_flights
      (fun all_conflicts sim_flight =>
         sim_segments <- trajectory.build_segments sim_flight ;;
         for_each primary_segments
           (fun all_conflicts p_seg =>
              for_each sim_segments
                (fun all_conflicts s_seg =>
                   conflict <- segment_conflict p_seg s_seg safety_buffer
                                 include_z 20 ;;
                   match conflict with
                   | Some c => Ok (all_conflicts ++ [c])
                   | None => Ok all_conflicts
                   end)
                all_conflicts)
           all_conflicts)
      [] ;;
  let is_clear := (List.length all_conflicts =? 0)%nat in
  Ok (is_clear, all_conflicts).
End detector.

(** A flight along the x axis whose last two waypoints coincide, over
    [0, 3], and a second flight over [0, 10], 10 m to its side. *)
Definition drift_flight : Flight.t :=
  Flight.mk "A"
    [mkWaypoint 0 0 0; mkWaypoint 1 0 0; mkWaypoint 5 0 0; mkWaypoint 5 0 0]
    0 3 5.
Definition side_flight : Flight.t :=
  Flight.mk "B" [mkWaypoint 0 10 0; mkWaypoint 10 10 0] 0 10 5.

(** [0.6000000000000001] and [3.0000000000000004], the doubles next
    above [0.6] and [3]. *)
Definition t_06 : float := 0x1.3333333333334p-1.
Definition t_3_up : float := 0x1.8000000000001p+1.

Definition drift_times : list float := [0; t_06; t_3_up; 3].
Definition drift_segments : list Segment.t :=
  [Segment.mk (mkWaypoint 0 0 0) (mkWaypoint 1 0 0) 0 t_06 "A";
   Segment.mk (mkWaypoint 1 0 0) (mkWaypoint 5 0 0) t_06 t_3_up "A";
   Segment.mk (mkWaypoint 5 0 0) (mkWaypoint 5 0 0) t_3_up 3 "A"].

(** The default safety buffer of [check_mission]. *)
Definition default_buffer : float := 10.

(** A flight whose [t_end] is [nan], and one whose speed is. *)
Definition nan_flight : Flight.t :=
  Flight.mk "N" [mkWaypoint 0 0 0; mkWaypoint 1 0 0] 0 nan 5.
Definition nan_speed_flight : Flight.t :=
  Flight.mk "S" [mkWaypoint 0 0 0; mkWaypoint 1 0 0] 0 1 nan.
End ieee.

(** ** Vocabulary of the properties *)

(** The results of [g] over [l], concatenated, failing at the first
    failure: what a loop that appends to an accumulator computes. *)
Fixpoint collect {A B : Type} (g : A -> result (list B)) (l : list A)
  : result (list B) :=
  match l with
  | [] => Ok []
  | a :: l' => v <- g a ;; vs <- collect g l' ;; Ok (v ++ vs)
  end.

(** The [i]-th of [n] evenly spaced instants from [a] to [b]. *)
Definition tick (a b : R) (n i : nat) : R :=
  a + INR i * ((b - a) / INR (n - 1)).

(** [lo <= l[0] <= l[1] <= ... <= hi]. *)
Fixpoint chain (lo : R) (l : list R) (hi : R) : Prop :=
  match l with
  | [] => lo <= hi
  | a :: l' => lo <= a /\ chain a l' hi
  end.

(** Consecutive entries of [l] never decrease. *)
Definition nondecreasing (l : list R) : Prop :=
  forall i, (S i < List.length l)%nat -> nth i l 0 <= nth (S i) l 0.

(** The boundary times the proportional branch of
    [compute_segment_times] appends, from the running time [c]. *)
Fixpoint running (total duration c : R) (lengths : list R) : list R :=
  match lengths with
  | [] => []
  | l :: r =>
      let c' := c + l / total * duration in
      c' :: running total duration c' r
  end.

(** The origin, the default of [nth] on waypoints. *)
Definition origin : Waypoint := mkWaypoint 0 0 0.

(** The segment [build_segments] makes of leg [i]. *)
Definition leg (flight : Flight.t) (times : list R) (i : nat) : Segment.t :=
  Segment.mk (nth i (Flight.waypoints flight) origin)
    (nth (S i) (Flight.waypoints flight) origin)
    (nth i times 0) (nth (S i) times 0) (Flight.id flight).

(** [a + alpha * (b - a)] *)
Definition lerp (alpha a b : R) : R := a + alpha * (b - a).

(** The interpolation formula of [position_at_time], component-wise over
    two or three dimensions. *)
Definition interpolate (s : Segment.t) (t : R) (include_z : bool) : ndarray :=
  let alpha := (t - Segment.t_start s) / (Segment.t_end s - Segment.t_start s) in
  let a := Segment.start s in
  let b := Segment.end_ s in
  if include_z then
    [lerp alpha (x a) (x b); lerp alpha (y a) (y b); lerp alpha (z a) (z b)]
  else
    [lerp alpha (x a) (x b); lerp alpha (y a) (y b)].

(** The position of a segment at an instant of its span. *)
Definition position (s : Segment.t) (t : R) (include_z : bool) : ndarray :=
  if Reqb (Segment.t_start s) (Segment.t_end s) then
    to_array (Segment.start s) include_z
  else interpolate s t include_z.

(** The distance between two segments at an instant of both spans. *)
Definition distance_at (s1 s2 : Segment.t) (include_z : bool) (t : R) : R :=
  norm (vsub (position s1 t include_z) (position s2 t include_z)).

(** The [n] evenly spaced instants from [a] to [b]. *)
Definition ticks (a b : R) (n : nat) : list R := map (tick a b n) (seq 0 n).

(** [i] is the first index at which the list [ds] attains its minimum. *)
Definition first_min (ds : list R) (i : nat) : Prop :=
  (i < List.length ds)%nat /\
  (forall j, (j < List.length ds)%nat -> nth i ds 0 <= nth j ds 0) /\
  (forall j, (j < i)%nat -> nth i ds 0 < nth j ds 0).

Definition ereal_le (a b : ereal) : Prop := ereal_ltb b a = false.

(** What the sampling loop has tracked after the instants [P]: nothing
    when [P] is empty; otherwise the distance, the instant and the primary
    position at the first instant of [P] that attains the minimum
    distance. *)
Definition tracks (s1 s2 : Segment.t) (include_z : bool) (P : list R)
  (st : tracked) : Prop :=
  (P = [] /\ st = mkTracked PInf None None) \/
  exists i,
    first_min (map (distance_at s1 s2 include_z) P) i /\
    st = mkTracked (Fin (distance_at s1 s2 include_z (nth i P 0)))
           (Some (nth i P 0)) (Some (position s1 (nth i P 0) include_z)).

(** An instant within the spans of both segments. *)
Definition in_both (s1 s2 : Segment.t) (t : R) : Prop :=
  Segment.t_start s1 <= t <= Segment.t_end s1 /\
  Segment.t_start s2 <= t <= Segment.t_end s2.

(** The start and the end of the overlap of two spans. *)
Definition overlap_start (s1 s2 : Segment.t) : R :=
  Rmax (Segment.t_start s1) (Segment.t_start s2).
Definition overlap_end (s1 s2 : Segment.t) : R :=
  Rmin (Segment.t_end s1) (Segment.t_end s2).

(** The minimum of a list of distances, [float('inf')] for none. *)
Definition minimum (ds : list R) : ereal :=
  match ds with
  | [] => PInf
  | d :: r => Fin (fold_left Rmin r d)
  end.

(** The distances at the [K] evenly spaced instants of the overlap. *)
Definition sampled_distances (s1 s2 : Segment.t) (include_z : bool) (K : nat)
  : list R :=
  map (distance_at s1 s2 include_z)
    (ticks (overlap_start s1 s2) (overlap_end s1 s2) K).

(** The conflict reported for the sample instant [t]. *)
Definition conflict_at (s1 s2 : Segment.t) (safety_buffer : R)
  (include_z : bool) (t : R) : Conflict.t :=
  Conflict.mk (Segment.flight_id s1) (Segment.flight_id s2)
    (position s1 t include_z) t (distance_at s1 s2 include_z t) safety_buffer.

(** The outcome of [segment_conflict] on the sample instants [P]: nothing
    without a sample, otherwise decided at the first instant of minimum
    distance. *)
Definition decided (s1 s2 : Segment.t) (safety_buffer : R) (include_z : bool)
  (P : list R) (r : option Conflict.t) : Prop :=
  (P = [] /\ r = None) \/
  exists i,
    first_min (map (distance_at s1 s2 include_z) P) i /\
    r = if Rltb (distance_at s1 s2 include_z (nth i P 0)) safety_buffer
        then Some (conflict_at s1 s2 safety_buffer include_z (nth i P 0))
        else None.


(** A segment that stays at its start waypoint. *)
Definition stationary (s : Segment.t) : Prop :=
  Segment.start s = Segment.end_ s.

(** The length of leg [i] of a flight, as [compute_segment_times]
    measures it. *)
Definition leg_length (flight : Flight.t) (i : nat) : R :=
  norm (vsub (to_array (nth (i + 1) (Flight.waypoints flight) origin)
                (Flight.is_3d flight))
             (to_array (nth i (Flight.waypoints flight) origin)
                (Flight.is_3d flight))).

(** The variable [total_length] of [compute_segment_times]. *)
Definition total_length (flight : Flight.t) : result R :=
  lengths <- trajectory.leg_lengths flight ;;
  Ok (trajectory.sum lengths).

(** All the waypoints of the flight are one point. *)
Definition coincident (flight : Flight.t) : Prop :=
  forall w, In w (Flight.waypoints flight) ->
            w = nth 0 (Flight.waypoints flight) origin.

(** The segments of a flight, none when the builder raises. *)
Definition segments_of (f : Flight.t) : list Segment.t :=
  match trajectory.build_segments f with
  | Ok segs => segs
  | Err _ => []
  end.

(** The conflicts of one pair of segments: at most one. *)
Definition conflicts_of (safety_buffer : R) (include_z : bool)
  (time_samples : Z) (p s : Segment.t) : list Conflict.t :=
  match detector.segment_conflict p s safety_buffer include_z time_samples with
  | Ok (Some c) => [c]
  | _ => []
  end.

(** The conflicts ordered by other mission, then by primary segment, then
    by the other mission's segment. *)
Definition mission_major (safety_buffer : R) (include_z : bool)
  (time_samples : Z) (primary : Flight.t) (others : list Flight.t)
  : list Conflict.t :=
  flat_map
    (fun other =>
       flat_map
         (fun p =>
            flat_map (conflicts_of safety_buffer include_z time_samples p)
              (segments_of other))
         (segments_of primary))
    others.

(** The conflicts ordered by primary segment, then by other mission, then
    by the other mission's segment: the order the design document
    states. *)
Definition primary_major (safety_buffer : R) (include_z : bool)
  (time_samples : Z) (primary : Flight.t) (others : list Flight.t)
  : list Conflict.t :=
  flat_map
    (fun p =>
       flat_map
         (fun other =>
            flat_map (conflicts_of safety_buffer include_z time_samples p)
              (segments_of other))
         others)
    (segments_of primary).

(** The point of the segment from [a] to [b] at parameter [u]. *)
Definition segment_point (a b : ndarray) (u : R) : ndarray :=
  vadd a (vscale u (vsub b a)).

(** The waypoint a waypoint dictionary with 'x' and 'y' loads as. *)
Definition waypoint_of (wp : waypoint_dict) : Waypoint :=
  mkWaypoint (get (wp_x wp) 0) (get (wp_y wp) 0) (get (wp_z wp) 0).

(** A waypoint dictionary that has the keys 'x' and 'y'. *)
Definition has_xy (wp : waypoint_dict) : Prop :=
  wp_x wp <> None /\ wp_y wp <> None.

(** The dictionary cut down to the keys the loader reads, with the
    optional keys 'z' and 'speed' filled in by their defaults. *)
Definition fill_defaults (data : flight_dict) : flight_dict :=
  mkFlightDict (fd_id data)
    (option_map
       (map (fun wp => mkWaypointDict (wp_x wp) (wp_y wp)
                         (Some (get (wp_z wp) 0)) []))
       (fd_waypoints data))
    (fd_t_start data) (fd_t_end data) (Some (get (fd_speed data) 5)) [].

(** The variable [violation_percent] of [get_conflict_severity]. *)
Definition violation_percent (min_distance safety_buffer : R) : R :=
  (safety_buffer - min_distance) / safety_buffer * 100.

(** The levels of [get_conflict_severity], from the mildest. *)
Definition severity_rank (severity : string) : nat :=
  if (severity =? "low")%string then 0
  else if (severity =? "medium")%string then 1
  else if (severity =? "high")%string then 2
  else 3.

(** A sample time of [interpolate_trajectory] over the segments [segs]
    and the position recorded for it: the position of a segment whose
    span holds the time. *)
Definition sampled_on (segs : list Segment.t) (include_z : bool)
  (t : R) (pos : ndarray) : Prop :=
  exists s, In s segs /\ Segment.t_start s <= t <= Segment.t_end s /\
            pos = position s t include_z.

(** ** Sample data *)

(** A primary segment flying 6 m along the x axis in 6 s, and a second
    drone hovering at its midpoint during the same 6 s. *)
Definition seg_cruise : Segment.t :=
  Segment.mk (mkWaypoint 0 0 0) (mkWaypoint 6 0 0) 0 6 "PRIMARY".
Definition seg_hover : Segment.t :=
  Segment.mk (mkWaypoint 3 0 0) (mkWaypoint 3 0 0) 0 6 "SIM".


(** A mission of three coincident waypoints at (5, 5) over [0, 10], and two
    missions hovering at the same place during [6, 9] and during [1, 4]. *)
Definition wp55 : Waypoint := mkWaypoint 5 5 0.
Definition hover_primary : Flight.t :=
  Flight.mk "PRIMARY" [wp55; wp55; wp55] 0 10 5.
Definition hover_late : Flight.t := Flight.mk "LATE" [wp55; wp55] 6 9 5.
Definition hover_early : Flight.t := Flight.mk "EARLY" [wp55; wp55] 1 4 5.

(** The flight of the trajectory tests: an L-shaped path of two legs of
    100 m during [0, 60]. *)
Definition simple_flight : Flight.t :=
  Flight.mk "TEST_01"
    [mkWaypoint 0 0 0; mkWaypoint 100 0 0; mkWaypoint 100 100 0] 0 60 5.

(** ** Basic facts *)

Lemma Rltb_true (a b : R) : Rltb a b = true <-> a < b.
Proof. unfold Rltb. destruct (Rlt_dec a b); split; intros; try easy. Qed.

Lemma Rltb_false (a b : R) : Rltb a b = false <-> b <= a.
Proof.
  unfold Rltb. destruct (Rlt_dec a b); split; intros; try easy; lra.
Qed.

Lemma Rleb_true (a b : R) : Rleb a b = true <-> a <= b.
Proof. unfold Rleb. destruct (Rle_dec a b); split; intros; try easy. Qed.

Lemma Rleb_false (a b : R) : Rleb a b = false <-> b < a.
Proof.
  unfold Rleb. destruct (Rle_dec a b); split; intros; try easy; lra.
Qed.

Lemma Reqb_true (a b : R) : Reqb a b = true <-> a = b.
Proof. unfold Reqb. destruct (Req_dec_T a b); split; intros; try easy. Qed.

Lemma Reqb_false (a b : R) : Reqb a b = false <-> a <> b.
Proof. unfold Reqb. destruct (Req_dec_T a b); split; intros; try easy. Qed.

(** ** Loops that append to an accumulator *)

Lemma for_each_collect {A B : Type} (body : list B -> A -> result (list B))
  (g : A -> result (list B)) :
  (forall acc a, body acc a = v <- g a ;; Ok (acc ++ v)) ->
  forall l acc, for_each l body acc = vs <- collect g l ;; Ok (acc ++ vs).
Proof.
  intros Hbody l. induction l as [| a l IH]; intros acc; cbn.
  - now rewrite app_nil_r.
  - rewrite Hbody. destruct (g a) as [v | e]; cbn; [| reflexivity].
    rewrite IH. destruct (collect g l) as [vs | e]; cbn; [| reflexivity].
    now rewrite app_assoc.
Qed.

Lemma collect_ext {A B : Type} (g h : A -> result (list B)) (l : list A) :
  (forall a, In a l -> g a = h a) -> collect g l = collect h l.
Proof.
  induction l as [| a l IH]; intros H; cbn; [reflexivity |].
  rewrite (H a (or_introl eq_refl)), IH; [reflexivity |].
  intros b Hb. apply H. now right.
Qed.

Lemma collect_pure {A B : Type} (g : A -> list B) (l : list A) :
  collect (fun a => Ok (g a)) l = Ok (flat_map g l).
Proof. induction l as [| a l IH]; cbn; [| rewrite IH]; reflexivity. Qed.

(** A loop over [seq k m] that appends one value per index. *)
Lemma collect_seq {B : Type} (f : nat -> result B) (P : nat -> B -> Prop) :
  forall m k,
    (forall i, (k <= i < k + m)%nat -> exists v, f i = Ok v /\ P i v) ->
    exists vs,
      collect (fun i => v <- f i ;; Ok [v]) (seq k m) = Ok vs /\
      List.length vs = m /\
      forall i, (i < m)%nat ->
                exists v, nth_error vs i = Some v /\ f (k + i)%nat = Ok v /\
                          P (k + i)%nat v.
Proof.
  induction m as [| m IH]; intros k H; cbn.
  - exists []. repeat split; intros; lia.
  - destruct (H k ltac:(lia)) as (v & Hv & HP).
    destruct (IH (S k)) as (vs & Hvs & Hlen & Hnth).
    { intros i Hi. apply H. lia. }
    exists (v :: vs). rewrite Hv; cbn. rewrite Hvs; cbn.
    repeat split; [now rewrite Hlen |].
    intros [| i] Hi.
    + exists v. rewrite Nat.add_0_r. now repeat split.
    + destruct (Hnth i ltac:(lia)) as (w & Hw & Hf & HPw).
      exists w. replace (k + S i)%nat with (S k + i)%nat by lia.
      now repeat split.
Qed.

Lemma index_ok {A : Type} (l : list A) (i : nat) (d : A) :
  (i < List.length l)%nat -> index l i = Ok (nth i l d).
Proof.
  intros H. unfold index. now rewrite (nth_error_nth' l d H).
Qed.

(** ** linspace *)

Lemma set_last_snoc (v w : R) (l : list R) : set_last v (l ++ [w]) = l ++ [v].
Proof.
  unfold set_last. rewrite removelast_last.
  destruct l; reflexivity.
Qed.

Lemma nth_map_seq {B : Type} (f : nat -> B) (m i : nat) (d : B) :
  (i < m)%nat -> nth i (map f (seq 0 m)) d = f i.
Proof.
  intros H. rewrite (nth_indep _ d (f 0%nat));
    [| now rewrite length_map, length_seq].
  rewrite (map_nth f (seq 0 m) 0%nat i), seq_nth; [reflexivity | exact H].
Qed.

Lemma linspace_spec (a b : R) (n : nat) :
  exists l, linspace a b (Z.of_nat n) = Ok l /\ List.length l = n /\
            forall i, (i < n)%nat -> nth i l 0 = tick a b n i.
Proof.
  unfold linspace.
  destruct (Z.ltb_spec (Z.of_nat n) 0) as [H | _]; [lia |].
  rewrite Nat2Z.id.
  destruct (Z.ltb_spec 0 (Z.of_nat n - 1)) as [H | H].
  - destruct n as [| m]; [lia |].
    assert (Hm : (0 < m)%nat) by lia.
    replace (Z.of_nat (S m) - 1)%Z with (Z.of_nat m) by lia.
    assert (HR : INR m <> 0) by (apply not_0_INR; lia).
    rewrite <- INR_IZR_INZ. unfold divide.
    rewrite (proj2 (Reqb_false _ _) HR). cbn [bind].
    rewrite seq_S, map_app; cbn [map Nat.add].
    rewrite set_last_snoc.
    eexists; split; [reflexivity |].
    split; [rewrite length_app, length_map, length_seq; cbn; lia |].
    intros i Hi. unfold tick.
    replace (S m - 1)%nat with m by lia.
    destruct (Nat.eq_dec i m) as [-> | Hne].
    + rewrite app_nth2; rewrite length_map, length_seq; [| lia].
      rewrite Nat.sub_diag; cbn. field. exact HR.
    + rewrite app_nth1; [| rewrite length_map, length_seq; lia].
      rewrite nth_map_seq by lia. lra.
  - eexists; split; [reflexivity |].
    split; [now rewrite length_map, length_seq |].
    intros i Hi. assert (n = 1%nat) as -> by lia.
    assert (i = 0%nat) as -> by lia.
    unfold tick; cbn. lra.
Qed.

Lemma tick_bounds (a b : R) (n i : nat) :
  a <= b -> (i < n)%nat -> a <= tick a b n i <= b.
Proof.
  intros Hab Hi. unfold tick.
  destruct (Nat.eq_dec n 1) as [-> | Hn].
  - assert (i = 0%nat) as -> by lia. cbn. lra.
  - assert (Hm : 0 < INR (n - 1)) by (apply lt_0_INR; lia).
    assert (Hi0 : 0 <= INR i) by apply pos_INR.
    assert (Him : INR i <= INR (n - 1)) by (apply le_INR; lia).
    set (m := INR (n - 1)) in *. set (q := (b - a) / m).
    assert (Hq : q * m = b - a) by (unfold q; field; lra).
    assert (Hq0 : 0 <= q).
    { unfold q. apply Rmult_le_pos; [lra |].
      left. now apply Rinv_0_lt_compat. }
    nra.
Qed.

Lemma tick_first (a b : R) (n : nat) : tick a b n 0 = a.
Proof. unfold tick; cbn. lra. Qed.

Lemma tick_last (a b : R) (n : nat) :
  (2 <= n)%nat -> tick a b n (n - 1) = b.
Proof.
  intros Hn. unfold tick.
  assert (INR (n - 1) <> 0) by (apply not_0_INR; lia).
  field. assumption.
Qed.

Lemma tick_step (a b : R) (n i : nat) :
  a <= b -> tick a b n i <= tick a b n (S i).
Proof.
  intros Hab. unfold tick. rewrite S_INR.
  destruct (Nat.eq_dec (n - 1) 0) as [-> | Hn].
  - cbn. unfold Rdiv. rewrite Rinv_0. lra.
  - assert (Hm : 0 < INR (n - 1)) by (apply lt_0_INR; lia).
    assert (0 <= (b - a) / INR (n - 1)).
    { apply Rmult_le_pos; [lra |]. left. now apply Rinv_0_lt_compat. }
    lra.
Qed.

(** ** Segment times *)

Lemma norm_nonneg (a : ndarray) : 0 <= norm a.
Proof. apply sqrt_pos. Qed.

Lemma fold_left_Rplus (l : list R) (a : R) :
  fold_left Rplus l a = a + fold_left Rplus l 0.
Proof.
  revert a. induction l as [| u l IH]; intros a; cbn; [lra |].
  rewrite (IH (a + u)), (IH (0 + u)). lra.
Qed.

Lemma sum_cons (u : R) (l : list R) :
  trajectory.sum (u :: l) = u + trajectory.sum l.
Proof.
  unfold trajectory.sum; cbn. rewrite fold_left_Rplus. lra.
Qed.

Lemma sum_nonneg (l : list R) :
  Forall (fun u => 0 <= u) l -> 0 <= trajectory.sum l.
Proof.
  induction 1 as [| u l Hu _ IH]; [unfold trajectory.sum; cbn; lra |].
  rewrite sum_cons. lra.
Qed.

Lemma sum_removelast (l : list R) :
  Forall (fun u => 0 <= u) l ->
  Forall (fun u => 0 <= u) (removelast l) /\
  trajectory.sum (removelast l) <= trajectory.sum l.
Proof.
  induction 1 as [| u l Hu Hl IH].
  - split; [constructor | cbn; lra].
  - destruct l as [| v l].
    + split; [constructor |]. unfold trajectory.sum; cbn. lra.
    + change (removelast (u :: v :: l)) with (u :: removelast (v :: l)).
      destruct IH as [IH1 IH2]. split; [now constructor |].
      rewrite !sum_cons in *. lra.
Qed.

Lemma leg_lengths_spec (f : Flight.t) :
  exists ls, trajectory.leg_lengths f = Ok ls /\
             List.length ls = (List.length (Flight.waypoints f) - 1)%nat /\
             (forall i, (i < List.length (Flight.waypoints f) - 1)%nat ->
                        nth_error ls i = Some (leg_length f i)) /\
             Forall (fun u => 0 <= u) ls.
Proof.
  unfold trajectory.leg_lengths.
  set (wps := Flight.waypoints f). set (n := List.length wps).
  set (f_i := fun i : nat =>
                wp_i <- index wps i ;;
                wp_j <- index wps (i + 1) ;;
                Ok (norm (vsub (to_array wp_j (Flight.is_3d f))
                               (to_array wp_i (Flight.is_3d f))))).
  rewrite (for_each_collect _ (fun i => v <- f_i i ;; Ok [v])).
  2:{ intros acc i. unfold f_i.
      destruct (index wps i); cbn; [| reflexivity].
      destruct (index wps (i + 1)); reflexivity. }
  destruct (collect_seq f_i (fun i v => v = leg_length f i) (n - 1) 0)
    as (vs & Hvs & Hlen & Hnth).
  { intros i Hi. unfold f_i.
    rewrite (index_ok wps i origin), (index_ok wps (i + 1) origin);
      [| fold n; lia | fold n; lia].
    cbn. eexists; split; reflexivity. }
  exists vs. rewrite Hvs; cbn. split; [reflexivity |].
  split; [exact Hlen |]. split.
  - intros i Hi. destruct (Hnth i Hi) as (v & Hv & _ & ->). exact Hv.
  - apply Forall_forall. intros u Hu.
    destruct (In_nth_error _ _ Hu) as [i Hi].
    assert (Hlt : (i < n - 1)%nat).
    { rewrite <- Hlen. apply nth_error_Some. congruence. }
    destruct (Hnth i Hlt) as (v & Hv & _ & Hval).
    assert (u = v) as -> by congruence. rewrite Hval. apply norm_nonneg.
Qed.

Lemma running_loop (total duration : R) (ls times : list R) (c : R) :
  Reqb total 0 = false ->
  for_each ls
    (fun (st : list R * R) length =>
       let (times, cumulative_time) := st in
       q <- divide length total ;;
       let time_for_segment := q * duration in
       let cumulative_time := cumulative_time + time_for_segment in
       Ok (times ++ [cumulative_time], cumulative_time))
    (times, c)
  = Ok (times ++ running total duration c ls,
        last (running total duration c ls) c).
Proof.
  intros Ht. match goal with |- for_each _ ?b _ = _ => set (body := b) end.
  revert times c.
  induction ls as [| l ls IH]; intros times c; cbn [for_each running last].
  - now rewrite app_nil_r.
  - unfold body at 1. cbn beta iota zeta. unfold divide. rewrite Ht.
    cbn [bind]. rewrite IH, <- app_assoc. cbn [app].
    destruct (running total duration (c + l / total * duration) ls)
      as [| u r] eqn:E; [reflexivity |].
    f_equal. f_equal. clear. revert u.
    induction r as [| v r IHr]; intros u; [reflexivity |].
    change (last (v :: r) (c + l / total * duration) = last (v :: r) c).
    apply IHr.
Qed.

Lemma length_running (total duration c : R) (ls : list R) :
  List.length (running total duration c ls) = List.length ls.
Proof.
  revert c. induction ls as [| l ls IH]; intros c; cbn; [| rewrite IH];
    reflexivity.
Qed.

Lemma chain_weaken (l : list R) (lo hi hi' : R) :
  chain lo l hi -> hi <= hi' -> chain lo l hi'.
Proof.
  revert lo. induction l as [| a l IH]; cbn; intros lo H Hh; [lra |].
  destruct H as [H1 H2]. split; [exact H1 | now apply IH].
Qed.

Lemma chain_running (total duration : R) (ls : list R) (c : R) :
  0 < total -> 0 <= duration -> Forall (fun u => 0 <= u) ls ->
  chain c (running total duration c ls)
    (c + trajectory.sum ls / total * duration).
Proof.
  intros Ht Hd Hls. revert c.
  induction Hls as [| l ls Hl _ IH]; intros c; cbn [running chain].
  - unfold trajectory.sum; cbn. unfold Rdiv. rewrite Rmult_0_l. lra.
  - assert (Hq : 0 <= l / total * duration).
    { apply Rmult_le_pos; [| exact Hd].
      apply Rmult_le_pos; [exact Hl |]. left. now apply Rinv_0_lt_compat. }
    split; [lra |].
    eapply chain_weaken; [apply IH |].
    rewrite sum_cons. right. field. lra.
Qed.

Lemma chain_nondecreasing (l : list R) (lo hi : R) :
  chain lo l hi -> nondecreasing (lo :: l ++ [hi]).
Proof.
  revert lo. induction l as [| a l IH]; cbn; intros lo H i Hi.
  - assert (i = 0%nat) as -> by (cbn in Hi; lia). exact H.
  - destruct H as [H1 H2]. destruct i as [| i]; [exact H1 |].
    apply (IH a H2 i). cbn in Hi |- *. lia.
Qed.

(** The boundary times of a valid flight: one per waypoint, from
    [t_start] to [t_end], never decreasing. *)
Lemma compute_segment_times_spec (f : Flight.t) :
  Flight.valid f ->
  exists times,
    trajectory.compute_segment_times f = Ok times /\
    List.length times = List.length (Flight.waypoints f) /\
    nth 0 times 0 = Flight.t_start f /\
    nth (List.length (Flight.waypoints f) - 1) times 0 = Flight.t_end f /\
    nondecreasing times.
Proof.
  intros (Hn & Hw & _). unfold trajectory.compute_segment_times.
  destruct (leg_lengths_spec f) as (ls & Hls & Hlen & _ & Hpos).
  rewrite Hls; cbn [bind].
  set (n := List.length (Flight.waypoints f)) in *.
  set (ts := Flight.t_start f) in *. set (te := Flight.t_end f) in *.
  destruct (Reqb (trajectory.sum ls) 0) eqn:Htot.
  - destruct (linspace_spec ts te n) as (l & Hl & Hll & Hnth).
    exists l. split; [exact Hl |]. split; [exact Hll |].
    split; [rewrite Hnth by lia; apply tick_first |].
    split; [rewrite Hnth by lia; apply tick_last; lia |].
    intros i Hi. rewrite !Hnth by lia. apply tick_step. lra.
  - rewrite running_loop by exact Htot. cbn [bind fst].
    apply Reqb_false in Htot.
    assert (Htpos : 0 < trajectory.sum ls).
    { pose proof (sum_nonneg ls Hpos). lra. }
    destruct (sum_removelast ls Hpos) as [Hpos' Hsum'].
    set (rs := running (trajectory.sum ls) (te - ts) ts (removelast ls)).
    assert (Hrs : List.length rs = (n - 2)%nat).
    { unfold rs. rewrite length_running, removelast_firstn_len, length_firstn.
      lia. }
    assert (Hchain : chain ts rs te).
    { eapply chain_weaken.
      - apply chain_running; [exact Htpos | lra | exact Hpos'].
      - assert (trajectory.sum (removelast ls) / trajectory.sum ls <= 1).
        { apply Rmult_le_reg_r with (trajectory.sum ls); [exact Htpos |].
          unfold Rdiv. rewrite Rmult_assoc, Rinv_l by lra. lra. }
        nra. }
    exists (([ts] ++ rs) ++ [te]). split; [reflexivity |].
    split; [rewrite !length_app, Hrs; cbn; lia |].
    split; [reflexivity |].
    split.
    + rewrite app_nth2; rewrite length_app, Hrs; cbn [List.length Nat.add];
        [| lia].
      replace (n - 1 - S (n - 2))%nat with 0%nat by lia. reflexivity.
    + rewrite <- app_assoc. now apply chain_nondecreasing.
Qed.

(** The segments of a valid flight: leg [i] of the waypoints over the
    boundary times [i] and [i + 1]. *)
Lemma build_segments_spec (f : Flight.t) :
  Flight.valid f ->
  exists times segs,
    trajectory.compute_segment_times f = Ok times /\
    trajectory.build_segments f = Ok segs /\
    List.length segs = (List.length (Flight.waypoints f) - 1)%nat /\
    forall i, (i < List.length (Flight.waypoints f) - 1)%nat ->
              nth_error segs i = Some (leg f times i).
Proof.
  intros Hv.
  destruct (compute_segment_times_spec f Hv) as (times & Ht & Hlen & _).
  exists times. unfold trajectory.build_segments. rewrite Ht; cbn [bind].
  set (wps := Flight.waypoints f) in *. set (n := List.length wps) in *.
  set (f_i := fun i : nat =>
                wp_i <- index wps i ;;
                wp_j <- index wps (i + 1) ;;
                t_i <- index times i ;;
                t_j <- index times (i + 1) ;;
                Ok (Segment.mk wp_i wp_j t_i t_j (Flight.id f))).
  rewrite (for_each_collect _ (fun i => v <- f_i i ;; Ok [v])).
  2:{ intros acc i. unfold f_i.
      destruct (index wps i); cbn; [| reflexivity].
      destruct (index wps (i + 1)); cbn; [| reflexivity].
      destruct (index times i); cbn; [| reflexivity].
      destruct (index times (i + 1)); reflexivity. }
  destruct (collect_seq f_i (fun i v => v = leg f times i) (n - 1) 0)
    as (vs & Hvs & Hl & Hnth).
  { intros i Hi. unfold f_i, leg.
    rewrite (index_ok wps i origin), (index_ok wps (i + 1) origin),
      (index_ok times i 0), (index_ok times (i + 1) 0);
      [| rewrite Hlen; lia | rewrite Hlen; lia | fold n; lia | fold n; lia].
    cbn. rewrite Nat.add_1_r. eexists; split; reflexivity. }
  exists vs. rewrite Hvs; cbn. repeat split; [exact Hl |].
  intros i Hi. destruct (Hnth i Hi) as (v & Hv1 & _ & Hv2).
  cbn in Hv2. now rewrite Hv1, Hv2.
Qed.

(** ** Interpolation *)

Lemma position_at_time_outside (s : Segment.t) (t : R) (include_z : bool) :
  t < Segment.t_start s \/ Segment.t_end s < t ->
  Segment.position_at_time s t include_z = Err (ValueError TimeOutsideSegment).
Proof.
  intros H. unfold Segment.position_at_time.
  destruct H as [H | H]; apply Rltb_true in H; rewrite H;
    [| rewrite orb_true_r]; reflexivity.
Qed.

Lemma position_at_time_inside (s : Segment.t) (t : R) (include_z : bool) :
  Segment.t_start s <= t <= Segment.t_end s ->
  Segment.position_at_time s t include_z = Ok (position s t include_z).
Proof.
  intros [H1 H2]. unfold Segment.position_at_time, position.
  apply Rltb_false in H1, H2. rewrite H1, H2. cbn [orb].
  destruct (Reqb (Segment.t_start s) (Segment.t_end s)) eqn:E;
    [reflexivity |].
  apply Reqb_false in E. unfold divide.
  assert (Hd : Reqb (Segment.t_end s - Segment.t_start s) 0 = false)
    by (apply Reqb_false; lra).
  rewrite Hd. cbn [bind]. unfold interpolate, lerp, to_array.
  destruct include_z; reflexivity.
Qed.

(** ** Overlap windows and sampling *)

Lemma linspace_ticks (a b : R) (n : nat) :
  linspace a b (Z.of_nat n) = Ok (ticks a b n).
Proof.
  destruct (linspace_spec a b n) as (l & Hl & Hlen & Hnth).
  rewrite Hl. f_equal. apply (nth_ext _ _ 0 0).
  - unfold ticks. now rewrite length_map, length_seq.
  - intros i Hi. rewrite Hlen in Hi. rewrite (Hnth i Hi).
    unfold ticks. now rewrite nth_map_seq.
Qed.

Lemma length_ticks (a b : R) (n : nat) : List.length (ticks a b n) = n.
Proof. unfold ticks. now rewrite length_map, length_seq. Qed.

Lemma nth_ticks (a b : R) (n i : nat) :
  (i < n)%nat -> nth i (ticks a b n) 0 = tick a b n i.
Proof. intros H. unfold ticks. now rewrite nth_map_seq. Qed.

Lemma in_ticks (a b : R) (n : nat) (t : R) :
  In t (ticks a b n) -> exists i, (i < n)%nat /\ t = tick a b n i.
Proof.
  unfold ticks. intros H. apply in_map_iff in H.
  destruct H as (i & <- & Hi). apply in_seq in Hi. exists i. split; [lia | easy].
Qed.

Lemma overlap_window_some (s1 s2 : Segment.t) :
  overlap_start s1 s2 <= overlap_end s1 s2 ->
  detector.compute_overlap_window (Segment.t_start s1) (Segment.t_end s1)
    (Segment.t_start s2) (Segment.t_end s2)
  = Some (overlap_start s1 s2, overlap_end s1 s2).
Proof.
  unfold overlap_start, overlap_end. intros H.
  unfold detector.compute_overlap_window, detector.time_windows_overlap.
  pose proof (Rmax_l (Segment.t_start s1) (Segment.t_start s2)).
  pose proof (Rmax_r (Segment.t_start s1) (Segment.t_start s2)).
  pose proof (Rmin_l (Segment.t_end s1) (Segment.t_end s2)).
  pose proof (Rmin_r (Segment.t_end s1) (Segment.t_end s2)).
  assert (E1 : Rltb (Segment.t_end s1) (Segment.t_start s2) = false)
    by (apply Rltb_false; lra).
  assert (E2 : Rltb (Segment.t_end s2) (Segment.t_start s1) = false)
    by (apply Rltb_false; lra).
  now rewrite E1, E2.
Qed.

Lemma overlap_window_none (s1 s2 : Segment.t) :
  Segment.wf s1 -> Segment.wf s2 ->
  overlap_start s1 s2 > overlap_end s1 s2 ->
  detector.compute_overlap_window (Segment.t_start s1) (Segment.t_end s1)
    (Segment.t_start s2) (Segment.t_end s2) = None.
Proof.
  unfold Segment.wf, overlap_start, overlap_end. intros W1 W2 H.
  unfold detector.compute_overlap_window, detector.time_windows_overlap.
  assert (D : Segment.t_end s1 < Segment.t_start s2 \/
              Segment.t_end s2 < Segment.t_start s1).
  { revert H. unfold Rmax, Rmin.
    destruct (Rle_dec (Segment.t_start s1) (Segment.t_start s2)),
      (Rle_dec (Segment.t_end s1) (Segment.t_end s2)); lra. }
  destruct D as [D | D]; apply Rltb_true in D; rewrite D;
    [| rewrite orb_true_r]; reflexivity.
Qed.

Lemma ticks_in_both (s1 s2 : Segment.t) (n : nat) (t : R) :
  overlap_start s1 s2 <= overlap_end s1 s2 ->
  In t (ticks (overlap_start s1 s2) (overlap_end s1 s2) n) ->
  in_both s1 s2 t.
Proof.
  intros H Ht. apply in_ticks in Ht. destruct Ht as (i & Hi & ->).
  pose proof (tick_bounds _ _ n i H Hi) as B.
  unfold overlap_start, overlap_end, in_both in *.
  pose proof (Rmax_l (Segment.t_start s1) (Segment.t_start s2)).
  pose proof (Rmax_r (Segment.t_start s1) (Segment.t_start s2)).
  pose proof (Rmin_l (Segment.t_end s1) (Segment.t_end s2)).
  pose proof (Rmin_r (Segment.t_end s1) (Segment.t_end s2)).
  lra.
Qed.

Lemma sample_inside (s1 s2 : Segment.t) (include_z : bool) (st : tracked)
  (t : R) :
  in_both s1 s2 t ->
  detector.sample s1 s2 include_z st t
  = Ok (if ereal_ltb (Fin (distance_at s1 s2 include_z t)) (min_distance st)
        then mkTracked (Fin (distance_at s1 s2 include_z t)) (Some t)
               (Some (position s1 t include_z))
        else st).
Proof.
  intros [H1 H2]. unfold detector.sample.
  rewrite (position_at_time_inside s1 t include_z H1),
    (position_at_time_inside s2 t include_z H2). cbn [bind].
  fold (distance_at s1 s2 include_z t).
  now destruct (ereal_ltb _ _).
Qed.

Lemma first_min_snoc_keep (ds : list R) (i : nat) (d : R) :
  first_min ds i -> nth i ds 0 <= d -> first_min (ds ++ [d]) i.
Proof.
  intros (Hi & Hall & Hbefore) Hd. unfold first_min.
  rewrite length_app; cbn [List.length].
  rewrite (app_nth1 ds [d] 0 Hi).
  split; [lia |]. split.
  - intros j Hj. destruct (Nat.eq_dec j (List.length ds)) as [-> | Hne].
    + rewrite app_nth2, Nat.sub_diag by lia. exact Hd.
    + rewrite app_nth1 by lia. apply Hall. lia.
  - intros j Hj. rewrite app_nth1 by lia. now apply Hbefore.
Qed.

Lemma first_min_snoc_new (ds : list R) (i : nat) (d : R) :
  first_min ds i -> d < nth i ds 0 ->
  first_min (ds ++ [d]) (List.length ds).
Proof.
  intros (Hi & Hall & _) Hd. unfold first_min.
  rewrite length_app; cbn [List.length].
  rewrite app_nth2, Nat.sub_diag by lia. cbn [nth].
  split; [lia |]. split.
  - intros j Hj. destruct (Nat.eq_dec j (List.length ds)) as [-> | Hne].
    + rewrite app_nth2, Nat.sub_diag by lia. cbn. lra.
    + rewrite app_nth1 by lia. specialize (Hall j ltac:(lia)). lra.
  - intros j Hj. rewrite app_nth1 by lia. specialize (Hall j Hj). lra.
Qed.

Lemma tracks_step (s1 s2 : Segment.t) (include_z : bool) (P : list R)
  (st : tracked) (t : R) :
  tracks s1 s2 include_z P st ->
  tracks s1 s2 include_z (P ++ [t])
    (if ereal_ltb (Fin (distance_at s1 s2 include_z t)) (min_distance st)
     then mkTracked (Fin (distance_at s1 s2 include_z t)) (Some t)
            (Some (position s1 t include_z))
     else st).
Proof.
  unfold tracks. generalize (distance_at s1 s2 include_z). intros dist.
  intros [[-> ->] | (i & Hmin & ->)]; right.
  - exists 0%nat. cbn. split; [| reflexivity].
    unfold first_min; cbn. repeat split; [lia | | lia].
    intros j Hj. assert (j = 0%nat) as -> by lia. lra.
  - cbn [min_distance ereal_ltb].
    assert (Hi : (i < List.length P)%nat).
    { destruct Hmin as [Hi _]. now rewrite length_map in Hi. }
    assert (Hd : nth i (map dist P) 0 = dist (nth i P 0)).
    { rewrite (nth_indep _ 0 (dist 0)) by (now rewrite length_map).
      apply map_nth. }
    destruct (Rltb (dist t) (dist (nth i P 0))) eqn:E.
    + apply Rltb_true in E. exists (List.length P).
      rewrite app_nth2, Nat.sub_diag by lia. cbn [nth].
      split; [| reflexivity].
      rewrite map_app. cbn [map].
      replace (List.length P) with (List.length (map dist P))
        by apply length_map.
      apply first_min_snoc_new with i; [exact Hmin | now rewrite Hd].
    + apply Rltb_false in E. exists i.
      rewrite app_nth1 by exact Hi. split; [| reflexivity].
      rewrite map_app. cbn [map].
      apply first_min_snoc_keep; [exact Hmin | now rewrite Hd].
Qed.

Lemma sample_loop (s1 s2 : Segment.t) (include_z : bool) :
  forall (Q P : list R) (st : tracked),
    (forall t, In t Q -> in_both s1 s2 t) ->
    tracks s1 s2 include_z P st ->
    exists st',
      for_each Q (detector.sample s1 s2 include_z) st = Ok st' /\
      tracks s1 s2 include_z (P ++ Q) st'.
Proof.
  induction Q as [| t Q IH]; intros P st Hin Hst; cbn [for_each].
  - exists st. now rewrite app_nil_r.
  - rewrite sample_inside by (apply Hin; now left). cbn [bind].
    destruct (IH (P ++ [t]) _ (fun u Hu => Hin u (or_intror Hu))
                (tracks_step s1 s2 include_z P st t Hst))
      as (st' & Hrun & Htr).
    exists st'. split; [exact Hrun |]. now rewrite <- app_assoc in Htr.
Qed.

(** The sampling loop over an overlap window: it succeeds, and tracks
    the first minimum over the evenly spaced instants. *)
Lemma sample_overlap_spec (s1 s2 : Segment.t) (include_z : bool) (K : nat) :
  overlap_start s1 s2 <= overlap_end s1 s2 ->
  exists st,
    detector.sample_overlap s1 s2 include_z (overlap_start s1 s2)
      (overlap_end s1 s2) (Z.of_nat K) = Ok st /\
    tracks s1 s2 include_z
      (ticks (overlap_start s1 s2) (overlap_end s1 s2) K) st.
Proof.
  intros H. unfold detector.sample_overlap.
  rewrite linspace_ticks. cbn [bind].
  apply (sample_loop s1 s2 include_z _ []).
  - intros t Ht. now apply ticks_in_both with K.
  - left. split; reflexivity.
Qed.

(** ** One pair of segments *)

Lemma segment_conflict_disjoint (s1 s2 : Segment.t) (safety_buffer : R)
  (include_z : bool) (time_samples : Z) :
  Segment.wf s1 -> Segment.wf s2 ->
  overlap_start s1 s2 > overlap_end s1 s2 ->
  detector.segment_conflict s1 s2 safety_buffer include_z time_samples
  = Ok None.
Proof.
  intros W1 W2 H. unfold detector.segment_conflict.
  now rewrite overlap_window_none.
Qed.

Lemma segment_conflict_no_samples (s1 s2 : Segment.t) (safety_buffer : R)
  (include_z : bool) :
  overlap_start s1 s2 <= overlap_end s1 s2 ->
  detector.segment_conflict s1 s2 safety_buffer include_z 0 = Ok None.
Proof.
  intros H. unfold detector.segment_conflict.
  rewrite overlap_window_some by exact H. reflexivity.
Qed.

(** With at least one sample over an overlap, the result is decided at
    the first instant of minimum distance. *)
Lemma segment_conflict_first_min (s1 s2 : Segment.t) (safety_buffer : R)
  (include_z : bool) (K : nat) :
  overlap_start s1 s2 <= overlap_end s1 s2 -> (0 < K)%nat ->
  exists i,
    first_min (sampled_distances s1 s2 include_z K) i /\
    let t := tick (overlap_start s1 s2) (overlap_end s1 s2) K i in
    detector.segment_conflict s1 s2 safety_buffer include_z (Z.of_nat K)
    = Ok (if Rltb (distance_at s1 s2 include_z t) safety_buffer
          then Some (conflict_at s1 s2 safety_buffer include_z t)
          else None).
Proof.
  intros H HK. unfold detector.segment_conflict.
  rewrite overlap_window_some by exact H.
  destruct (sample_overlap_spec s1 s2 include_z K H) as (st & Hst & Htr).
  rewrite Hst. cbn [bind].
  destruct Htr as [[Hnil _] | (i & Hmin & ->)].
  - apply (f_equal (@List.length R)) in Hnil.
    rewrite length_ticks in Hnil. cbn in Hnil. lia.
  - exists i. split; [exact Hmin |].
    assert (Hi : (i < K)%nat).
    { destruct Hmin as [Hi _]. unfold sampled_distances in Hi.
      now rewrite length_map, length_ticks in Hi. }
    rewrite nth_ticks by exact Hi.
    cbn [min_distance conflict_time conflict_location ereal_ltb].
    now destruct (Rltb _ _).
Qed.

Lemma segment_conflict_total (s1 s2 : Segment.t) (safety_buffer : R)
  (include_z : bool) (K : nat) :
  Segment.wf s1 -> Segment.wf s2 ->
  exists r,
    detector.segment_conflict s1 s2 safety_buffer include_z (Z.of_nat K)
    = Ok r.
Proof.
  intros W1 W2.
  destruct (Rle_dec (overlap_start s1 s2) (overlap_end s1 s2)) as [H | H].
  - destruct K as [| K].
    + exists None. now apply segment_conflict_no_samples.
    + destruct (segment_conflict_first_min s1 s2 safety_buffer include_z
                  (S K) H ltac:(lia)) as (i & _ & Hr).
      eexists. exact Hr.
  - exists None. apply segment_conflict_disjoint; [exact W1 | exact W2 | lra].
Qed.

Lemma fold_left_Rmin_le (r : list R) (d : R) :
  fold_left Rmin r d <= d /\ forall u, In u r -> fold_left Rmin r d <= u.
Proof.
  revert d. induction r as [| v r IH]; intros d; cbn.
  - split; [lra | tauto].
  - destruct (IH (Rmin d v)) as [H1 H2].
    pose proof (Rmin_l d v). pose proof (Rmin_r d v).
    split; [lra |]. intros u [<- | Hu]; [lra | now apply H2].
Qed.

Lemma fold_left_Rmin_in (r : list R) (d : R) :
  fold_left Rmin r d = d \/ In (fold_left Rmin r d) r.
Proof.
  revert d. induction r as [| v r IH]; intros d; cbn; [now left |].
  destruct (IH (Rmin d v)) as [H | H]; [| now right; right].
  rewrite H. unfold Rmin. destruct (Rle_dec d v); [now left | right; now left].
Qed.

Lemma first_min_minimum (ds : list R) (i : nat) :
  first_min ds i -> minimum ds = Fin (nth i ds 0).
Proof.
  intros (Hi & Hall & _). destruct ds as [| d r]; [cbn in Hi; lia |].
  cbn [minimum]. f_equal.
  destruct (fold_left_Rmin_le r d) as [L1 L2].
  assert (Hle : fold_left Rmin r d <= nth i (d :: r) 0).
  { destruct i as [| i]; [exact L1 |]. apply L2. cbn [nth]. apply nth_In.
    cbn in Hi. lia. }
  assert (Hge : nth i (d :: r) 0 <= fold_left Rmin r d).
  { destruct (fold_left_Rmin_in r d) as [E | E].
    - rewrite E. apply (Hall 0%nat). cbn. lia.
    - destruct (In_nth _ _ 0 E) as (j & Hj & Ej).
      rewrite <- Ej. apply (Hall (S j)). cbn. lia. }
  lra.
Qed.

Lemma overlap_wf (s1 s2 : Segment.t) :
  overlap_start s1 s2 <= overlap_end s1 s2 -> Segment.wf s1 /\ Segment.wf s2.
Proof.
  unfold overlap_start, overlap_end, Segment.wf. intros H.
  pose proof (Rmax_l (Segment.t_start s1) (Segment.t_start s2)).
  pose proof (Rmax_r (Segment.t_start s1) (Segment.t_start s2)).
  pose proof (Rmin_l (Segment.t_end s1) (Segment.t_end s2)).
  pose proof (Rmin_r (Segment.t_end s1) (Segment.t_end s2)).
  lra.
Qed.

Lemma nth_sampled_distances (s1 s2 : Segment.t) (include_z : bool)
  (K i : nat) :
  (i < K)%nat ->
  nth i (sampled_distances s1 s2 include_z K) 0
  = distance_at s1 s2 include_z
      (tick (overlap_start s1 s2) (overlap_end s1 s2) K i).
Proof.
  intros Hi. unfold sampled_distances.
  rewrite (nth_indep _ 0 (distance_at s1 s2 include_z 0))
    by (now rewrite length_map, length_ticks).
  now rewrite map_nth, nth_ticks.
Qed.

Lemma length_sampled_distances (s1 s2 : Segment.t) (include_z : bool)
  (K : nat) :
  List.length (sampled_distances s1 s2 include_z K) = K.
Proof. unfold sampled_distances. now rewrite length_map, length_ticks. Qed.

Lemma seg_cruise_hover_overlap :
  overlap_start seg_cruise seg_hover <= overlap_end seg_cruise seg_hover.
Proof.
  unfold overlap_start, overlap_end; cbn.
  rewrite Rmax_left, Rmin_left; lra.
Qed.

(** Over an overlap, the result in terms of the minimum sampled
    distance. *)
Lemma segment_conflict_minimum (s1 s2 : Segment.t) (safety_buffer : R)
  (include_z : bool) (K : nat) :
  overlap_start s1 s2 <= overlap_end s1 s2 ->
  exists r,
    detector.segment_conflict s1 s2 safety_buffer include_z (Z.of_nat K)
    = Ok r /\
    ((exists c, r = Some c) <->
     ereal_ltb (minimum (sampled_distances s1 s2 include_z K))
       (Fin safety_buffer) = true) /\
    forall c, r = Some c ->
      exists t,
        In t (ticks (overlap_start s1 s2) (overlap_end s1 s2) K) /\
        Fin (distance_at s1 s2 include_z t)
        = minimum (sampled_distances s1 s2 include_z K) /\
        c = conflict_at s1 s2 safety_buffer include_z t.
Proof.
  intros H. destruct K as [| K].
  - exists None. split; [now apply segment_conflict_no_samples |].
    split; [| discriminate].
    cbn. split; [intros [c Hc] |]; discriminate.
  - destruct (segment_conflict_first_min s1 s2 safety_buffer include_z
                (S K) H ltac:(lia)) as (i & Hmin & Hr).
    cbv zeta in Hr. rewrite (first_min_minimum _ _ Hmin).
    assert (Hi : (i < S K)%nat).
    { destruct Hmin as [Hi _]. now rewrite length_sampled_distances in Hi. }
    rewrite nth_sampled_distances by exact Hi.
    eexists. split; [exact Hr |]. cbn [ereal_ltb].
    destruct (Rltb _ safety_buffer).
    + split; [split; [reflexivity | eauto] |].
      intros c Hc. injection Hc as <-. eexists. split; [| split; reflexivity].
      rewrite <- (nth_ticks _ _ (S K) i Hi). apply nth_In.
      now rewrite length_ticks.
    + split; [split; [intros [c Hc] |]; discriminate | discriminate].
Qed.


Lemma minimum_cases (ds : list R) :
  (ds = [] /\ minimum ds = PInf) \/
  exists m, minimum ds = Fin m /\ In m ds /\ forall d, In d ds -> m <= d.
Proof.
  destruct ds as [| d r]; [now left | right].
  exists (fold_left Rmin r d). split; [reflexivity |].
  destruct (fold_left_Rmin_le r d) as [L1 L2]. split.
  - destruct (fold_left_Rmin_in r d) as [E | E]; [left; now rewrite E |
                                                  now right].
  - intros u [<- | Hu]; [exact L1 | now apply L2].
Qed.


Lemma lerp_same (alpha a : R) : lerp alpha a a = a.
Proof. unfold lerp. lra. Qed.

Lemma position_stationary (s : Segment.t) (t : R) (include_z : bool) :
  stationary s -> position s t include_z = to_array (Segment.start s) include_z.
Proof.
  unfold stationary, position, interpolate. intros <-.
  destruct (Reqb _ _); [reflexivity |].
  rewrite !lerp_same. reflexivity.
Qed.

Lemma stationary_first_sample (s1 s2 : Segment.t) (include_z : bool)
  (K i : nat) :
  stationary s1 -> stationary s2 ->
  first_min (sampled_distances s1 s2 include_z K) i -> i = 0%nat.
Proof.
  intros S1 S2 (Hi & _ & Hbefore).
  rewrite length_sampled_distances in Hi.
  destruct i as [| i]; [reflexivity | exfalso].
  specialize (Hbefore 0%nat ltac:(lia)).
  rewrite !nth_sampled_distances in Hbefore by lia.
  unfold distance_at in Hbefore.
  rewrite !(position_stationary s1), !(position_stationary s2) in Hbefore
    by assumption.
  lra.
Qed.

(** ** Coincident waypoints *)

Lemma sum_squares_vsub_self (a : ndarray) : sum_squares (vsub a a) = 0.
Proof.
  unfold sum_squares. induction a as [| u a IH]; cbn; [reflexivity |].
  rewrite IH. lra.
Qed.

Lemma norm_vsub_self (a : ndarray) : norm (vsub a a) = 0.
Proof. unfold norm. rewrite sum_squares_vsub_self. apply sqrt_0. Qed.

Lemma sum_zeros (l : list R) :
  Forall (fun u => u = 0) l -> trajectory.sum l = 0.
Proof.
  induction 1 as [| u l Hu _ IH]; [reflexivity |].
  rewrite sum_cons, IH, Hu. lra.
Qed.

Lemma coincident_total_length (f : Flight.t) :
  coincident f -> total_length f = Ok 0.
Proof.
  intros Hc. unfold total_length.
  destruct (leg_lengths_spec f) as (ls & Hls & Hlen & Hnth & _).
  rewrite Hls. cbn [bind]. f_equal. apply sum_zeros.
  apply Forall_forall. intros u Hu.
  destruct (In_nth_error _ _ Hu) as [i Hi].
  assert (Hlt : (i < List.length (Flight.waypoints f) - 1)%nat).
  { rewrite <- Hlen. apply nth_error_Some. congruence. }
  rewrite (Hnth i Hlt) in Hi. injection Hi as <-.
  unfold leg_length.
  rewrite (Hc (nth (i + 1) (Flight.waypoints f) origin))
    by (apply nth_In; lia).
  rewrite (Hc (nth i (Flight.waypoints f) origin)) by (apply nth_In; lia).
  apply norm_vsub_self.
Qed.

(** With a total length of zero the boundary times are evenly spaced. *)
Lemma zero_length_times (f : Flight.t) :
  total_length f = Ok 0 ->
  trajectory.compute_segment_times f
  = Ok (ticks (Flight.t_start f) (Flight.t_end f)
          (List.length (Flight.waypoints f))).
Proof.
  unfold total_length, trajectory.compute_segment_times. intros H.
  destruct (trajectory.leg_lengths f) as [ls | e]; [| discriminate].
  cbn [bind] in *. injection H as H. rewrite H.
  rewrite (proj2 (Reqb_true 0 0) eq_refl). apply linspace_ticks.
Qed.

(** ** The mission checker *)

Lemma high_accuracy_is_standard (s1 s2 : Segment.t) (safety_buffer : R)
  (include_z : bool) (time_samples : Z) :
  detector_enhanced.segment_conflict_high_accuracy s1 s2 safety_buffer
    include_z time_samples
  = detector.segment_conflict s1 s2 safety_buffer include_z time_samples.
Proof.
  unfold detector.segment_conflict,
    detector_enhanced.segment_conflict_high_accuracy.
  change (detector_enhanced.compute_overlap_window (Segment.t_start s1)
            (Segment.t_end s1) (Segment.t_start s2) (Segment.t_end s2))
    with (detector.compute_overlap_window (Segment.t_start s1)
            (Segment.t_end s1) (Segment.t_start s2) (Segment.t_end s2)).
  destruct (detector.compute_overlap_window _ _ _ _) as [[os oe] |];
    [| reflexivity].
  unfold detector.sample_overlap.
  destruct (linspace os oe time_samples) as [time_points | e];
    reflexivity.
Qed.

Lemma build_segments_wf (f : Flight.t) :
  Flight.valid f ->
  exists segs, trajectory.build_segments f = Ok segs /\
               Forall Segment.wf segs.
Proof.
  intros Hv.
  destruct (build_segments_spec f Hv) as (times & segs & Ht & Hs & Hlen & Hnth).
  destruct (compute_segment_times_spec f Hv)
    as (times' & Ht' & Hlt & _ & _ & Hmono).
  assert (times' = times) as -> by congruence.
  exists segs. split; [exact Hs |]. apply Forall_forall. intros s Hin.
  destruct (In_nth_error _ _ Hin) as [i Hi].
  assert (Hlt' : (i < List.length (Flight.waypoints f) - 1)%nat).
  { rewrite <- Hlen. apply nth_error_Some. congruence. }
  rewrite Hnth in Hi by exact Hlt'. injection Hi as <-.
  unfold Segment.wf; cbn. apply Hmono. rewrite Hlt. lia.
Qed.

(** The three nested loops of the checker, for any pairwise detector. *)
Lemma conflict_loops
  (detect : Segment.t -> Segment.t -> result (option Conflict.t))
  (primary_segments : list Segment.t) (simulated_flights : list Flight.t) :
  for_each simulated_flights
    (fun all_conflicts sim_flight =>
       sim_segments <- trajectory.build_segments sim_flight ;;
       for_each primary_segments
         (fun all_conflicts p_seg =>
            for_each sim_segments
              (fun all_conflicts s_seg =>
                 conflict <- detect p_seg s_seg ;;
                 match conflict with
                 | Some c => Ok (all_conflicts ++ [c])
                 | None => Ok all_conflicts
                 end)
              all_conflicts)
         all_conflicts)
    []
  = collect
      (fun sim =>
         ssegs <- trajectory.build_segments sim ;;
         collect
           (fun p =>
              collect
                (fun s =>
                   c <- detect p s ;;
                   Ok match c with Some c => [c] | None => [] end)
                ssegs)
           primary_segments)
      simulated_flights.
Proof.
  match goal with |- _ = collect ?g _ => rewrite (for_each_collect _ g) end.
  - destruct (collect _ simulated_flights); reflexivity.
  - intros acc sim. cbv beta.
    destruct (trajectory.build_segments sim) as [ssegs | e]; cbn [bind];
      [| reflexivity].
    apply for_each_collect. intros acc' p.
    apply for_each_collect. intros acc'' s.
    destruct (detect p s) as [[c |] | e]; cbn [bind];
      [reflexivity | now rewrite app_nil_r | reflexivity].
Qed.

Lemma conflict_loops_pure
  (detect : Segment.t -> Segment.t -> result (option Conflict.t))
  (safety_buffer : R) (include_z : bool) (K : nat)
  (primary : Flight.t) (primary_segments : list Segment.t)
  (others : list Flight.t) :
  (forall p s, detect p s
               = detector.segment_conflict p s safety_buffer include_z
                   (Z.of_nat K)) ->
  trajectory.build_segments primary = Ok primary_segments ->
  Forall Segment.wf primary_segments ->
  Forall Flight.valid others ->
  collect
    (fun sim =>
       ssegs <- trajectory.build_segments sim ;;
       collect
         (fun p =>
            collect
              (fun s =>
                 c <- detect p s ;;
                 Ok match c with Some c => [c] | None => [] end)
              ssegs)
         primary_segments)
    others
  = Ok (mission_major safety_buffer include_z (Z.of_nat K) primary others).
Proof.
  intros Hdet Hp Hwf Hothers. unfold mission_major.
  rewrite <- collect_pure. apply collect_ext. intros sim Hsim.
  rewrite Forall_forall in Hothers.
  destruct (build_segments_wf sim (Hothers sim Hsim)) as (ssegs & Hs & Hw).
  unfold segments_of. rewrite Hs, Hp. cbn [bind].
  rewrite <- collect_pure. apply collect_ext. intros p Hin.
  rewrite <- collect_pure. apply collect_ext. intros s Hs'.
  rewrite Forall_forall in Hwf, Hw.
  destruct (segment_conflict_total p s safety_buffer include_z K
              (Hwf p Hin) (Hw s Hs')) as [r Hr].
  unfold conflicts_of. rewrite Hdet, Hr. cbn [bind]. now destruct r.
Qed.

Lemma length_eqb_nil {A : Type} (l : list A) :
  (List.length l =? 0)%nat = true <-> l = [].
Proof. destruct l; cbn; split; intros; (reflexivity || discriminate). Qed.


Lemma check_mission_standard (primary : Flight.t) (others : list Flight.t)
  (safety_buffer : R) (include_z : bool) :
  Flight.valid primary -> Forall Flight.valid others ->
  detector.check_mission primary others safety_buffer include_z
  = Ok ((List.length
           (mission_major safety_buffer include_z 20 primary others) =? 0)%nat,
        mission_major safety_buffer include_z 20 primary others).
Proof.
  intros Hv Hothers.
  destruct (build_segments_wf primary Hv) as (psegs & Hp & Hwf).
  unfold detector.check_mission. rewrite Hp. cbn [bind].
  rewrite conflict_loops.
  change detector.default_time_samples with (Z.of_nat 20).
  rewrite (conflict_loops_pure _ safety_buffer include_z 20 primary psegs
             others (fun p s => eq_refl) Hp Hwf Hothers).
  reflexivity.
Qed.

(** ** What a call that returned has computed *)

(** The lemmas of this section assume nothing of their arguments but
    that the call returned: they hold of every flight and every segment,
    reversed spans included. *)

Lemma for_each_invariant {S A : Type} (I : S -> Prop)
  (body : S -> A -> result S) (l : list A) :
  (forall st a st', I st -> body st a = Ok st' -> I st') ->
  forall st st', I st -> for_each l body st = Ok st' -> I st'.
Proof.
  intros Hbody. induction l as [| a l IH]; intros st st' Hst H; cbn in H.
  - now injection H as <-.
  - destruct (body st a) as [st1 | e] eqn:E; cbn [bind] in H; [| discriminate].
    eapply IH; [| exact H]. eapply Hbody; eassumption.
Qed.

Lemma collect_returned {A B : Type} (g : A -> result (list B))
  (h : A -> list B) (l : list A) (vs : list B) :
  (forall a v, In a l -> g a = Ok v -> v = h a) ->
  collect g l = Ok vs -> vs = flat_map h l.
Proof.
  revert vs. induction l as [| a l IH]; intros vs Hg H; cbn in H |- *.
  - now injection H as <-.
  - destruct (g a) as [v | e] eqn:Ea; cbn [bind] in H; [| discriminate].
    destruct (collect g l) as [vs' | e] eqn:El; cbn [bind] in H;
      [| discriminate].
    injection H as <-.
    rewrite (Hg a v (or_introl eq_refl) Ea).
    f_equal. apply IH; [| reflexivity].
    intros a' v' Hin. apply Hg. now right.
Qed.

Lemma collect_each_returned {A B : Type} (g : A -> result (list B))
  (l : list A) (vs : list B) :
  collect g l = Ok vs -> forall a, In a l -> exists v, g a = Ok v.
Proof.
  revert vs. induction l as [| a l IH]; intros vs H a' Hin; [destruct Hin |].
  cbn in H.
  destruct (g a) as [v | e] eqn:Ea; cbn [bind] in H; [| discriminate].
  destruct (collect g l) as [vs' | e] eqn:El; cbn [bind] in H; [| discriminate].
  destruct Hin as [<- | Hin]; [now exists v | now apply (IH vs')].
Qed.

Lemma collect_returns {A B : Type} (g : A -> result (list B)) (l : list A) :
  (forall a, In a l -> exists v, g a = Ok v) -> exists vs, collect g l = Ok vs.
Proof.
  induction l as [| a l IH]; intros H; cbn; [now exists [] |].
  destruct (H a (or_introl eq_refl)) as [v ->].
  destruct (IH (fun a' Hin => H a' (or_intror Hin))) as [vs ->].
  cbn [bind]. now eexists.
Qed.

Lemma position_at_time_returned (s : Segment.t) (t : R) (include_z : bool)
  (pos : ndarray) :
  Segment.position_at_time s t include_z = Ok pos ->
  Segment.t_start s <= t <= Segment.t_end s /\ pos = position s t include_z.
Proof.
  intros H.
  destruct (Rlt_dec t (Segment.t_start s)) as [L | L].
  { rewrite position_at_time_outside in H by (now left). discriminate. }
  destruct (Rlt_dec (Segment.t_end s) t) as [U | U].
  { rewrite position_at_time_outside in H by (now right). discriminate. }
  assert (Hin : Segment.t_start s <= t <= Segment.t_end s) by lra.
  rewrite position_at_time_inside in H by exact Hin.
  split; [exact Hin | congruence].
Qed.

Lemma sample_returned (s1 s2 : Segment.t) (include_z : bool)
  (st st' : tracked) (t : R) :
  detector.sample s1 s2 include_z st t = Ok st' -> in_both s1 s2 t.
Proof.
  unfold detector.sample. intros H.
  destruct (Segment.position_at_time s1 t include_z) as [p1 | e] eqn:E1;
    cbn [bind] in H; [| discriminate].
  destruct (Segment.position_at_time s2 t include_z) as [p2 | e] eqn:E2;
    cbn [bind] in H; [| discriminate].
  split; [exact (proj1 (position_at_time_returned _ _ _ _ E1))
         | exact (proj1 (position_at_time_returned _ _ _ _ E2))].
Qed.

Lemma sample_loop_returned (s1 s2 : Segment.t) (include_z : bool) :
  forall (Q : list R) (st st' : tracked),
    for_each Q (detector.sample s1 s2 include_z) st = Ok st' ->
    forall t, In t Q -> in_both s1 s2 t.
Proof.
  induction Q as [| q Q IH]; intros st st' H t Hin; [destruct Hin |].
  cbn in H.
  destruct (detector.sample s1 s2 include_z st q) as [st1 | e] eqn:E;
    cbn [bind] in H; [| discriminate].
  destruct Hin as [<- | Hin].
  - eapply sample_returned. exact E.
  - eapply IH; eassumption.
Qed.

(** When the windows pass the overlap test and every sample instant lies
    within both spans, [segment_conflict] returns. *)
Lemma segment_conflict_computed (s1 s2 : Segment.t) (safety_buffer : R)
  (include_z : bool) (time_samples : Z) (P : list R) :
  detector.time_windows_overlap (Segment.t_start s1) (Segment.t_end s1)
    (Segment.t_start s2) (Segment.t_end s2) = true ->
  linspace (overlap_start s1 s2) (overlap_end s1 s2) time_samples = Ok P ->
  (forall t, In t P -> in_both s1 s2 t) ->
  exists r,
    detector.segment_conflict s1 s2 safety_buffer include_z time_samples
    = Ok r /\
    decided s1 s2 safety_buffer include_z P r.
Proof.
  intros E EP Hin.
  unfold detector.segment_conflict, detector.compute_overlap_window.
  rewrite E. cbn [negb]. cbv zeta.
  fold (overlap_start s1 s2) (overlap_end s1 s2).
  unfold detector.sample_overlap. rewrite EP. cbn [bind].
  destruct (sample_loop s1 s2 include_z P [] (mkTracked PInf None None) Hin
              (or_introl (conj eq_refl eq_refl))) as (st & Hst & Htr).
  rewrite Hst. cbn [bind app] in Htr |- *.
  destruct Htr as [[-> ->] | (i & Hmin & ->)].
  - exists None. split; [reflexivity | now left].
  - cbn. eexists. split; [| right; exists i; split; [exact Hmin | reflexivity]].
    unfold conflict_at. now destruct (Rltb _ safety_buffer).
Qed.

(** What [segment_conflict] has computed when it returns. *)
Lemma segment_conflict_returned (s1 s2 : Segment.t) (safety_buffer : R)
  (include_z : bool) (time_samples : Z) (r : option Conflict.t) :
  detector.segment_conflict s1 s2 safety_buffer include_z time_samples
  = Ok r ->
  (detector.time_windows_overlap (Segment.t_start s1) (Segment.t_end s1)
     (Segment.t_start s2) (Segment.t_end s2) = false /\ r = None) \/
  exists P,
    detector.time_windows_overlap (Segment.t_start s1) (Segment.t_end s1)
      (Segment.t_start s2) (Segment.t_end s2) = true /\
    linspace (overlap_start s1 s2) (overlap_end s1 s2) time_samples = Ok P /\
    (forall t, In t P -> in_both s1 s2 t) /\
    decided s1 s2 safety_buffer include_z P r.
Proof.
  intros H.
  destruct (detector.time_windows_overlap (Segment.t_start s1)
              (Segment.t_end s1) (Segment.t_start s2) (Segment.t_end s2))
    eqn:E.
  2:{ left. split; [reflexivity |].
      unfold detector.segment_conflict, detector.compute_overlap_window in H.
      rewrite E in H. cbn [negb] in H. congruence. }
  right.
  pose proof H as H'.
  unfold detector.segment_conflict, detector.compute_overlap_window in H'.
  rewrite E in H'. cbn [negb] in H'. cbv zeta in H'.
  fold (overlap_start s1 s2) (overlap_end s1 s2) in H'.
  unfold detector.sample_overlap in H'.
  destruct (linspace (overlap_start s1 s2) (overlap_end s1 s2) time_samples)
    as [P | e] eqn:EP; cbn [bind] in H'; [| discriminate].
  destruct (for_each P (detector.sample s1 s2 include_z)
              (mkTracked PInf None None)) as [st | e] eqn:Est;
    cbn [bind] in H'; [| discriminate].
  pose proof (sample_loop_returned s1 s2 include_z P _ _ Est) as Hin.
  exists P. split; [reflexivity |]. split; [reflexivity |].
  split; [exact Hin |].
  destruct (segment_conflict_computed s1 s2 safety_buffer include_z
              time_samples P E EP Hin) as (r' & Hr' & Hd).
  congruence.
Qed.

(** Whether [segment_conflict] returns or raises depends neither on the
    buffer nor on the dimensions. *)
Lemma segment_conflict_returns_together (s1 s2 : Segment.t) (b b' : R)
  (z z' : bool) (time_samples : Z) (r : option Conflict.t) :
  detector.segment_conflict s1 s2 b z time_samples = Ok r ->
  exists r', detector.segment_conflict s1 s2 b' z' time_samples = Ok r'.
Proof.
  intros H.
  destruct (segment_conflict_returned _ _ _ _ _ _ H)
    as [[E _] | (P & E & EP & Hin & _)].
  - exists None.
    unfold detector.segment_conflict, detector.compute_overlap_window.
    now rewrite E.
  - destruct (segment_conflict_computed s1 s2 b' z' time_samples P E EP Hin)
      as (r' & Hr' & _).
    now exists r'.
Qed.

Lemma length_position (s : Segment.t) (t : R) (include_z : bool) :
  List.length (position s t include_z) = (if include_z then 3 else 2)%nat.
Proof.
  unfold position, interpolate, to_array.
  destruct (Reqb _ _), include_z; reflexivity.
Qed.

(** A conflict of a pair of segments, whatever the segments. *)
Lemma conflicts_of_real (b : R) (include_z : bool) (time_samples : Z)
  (p s : Segment.t) (c : Conflict.t) :
  In c (conflicts_of b include_z time_samples p s) ->
  detector.segment_conflict p s b include_z time_samples = Ok (Some c) /\
  Conflict.primary_flight_id c = Segment.flight_id p /\
  Conflict.conflicting_flight_id c = Segment.flight_id s /\
  in_both p s (Conflict.time c) /\
  0 <= Conflict.min_distance c < b /\
  Conflict.safety_buffer c = b /\
  Conflict.location c = position p (Conflict.time c) include_z.
Proof.
  intros Hin. unfold conflicts_of in Hin.
  destruct (detector.segment_conflict p s b include_z time_samples)
    as [[c' |] | e] eqn:E; [| destruct Hin | destruct Hin].
  destruct Hin as [-> | []]. split; [reflexivity |].
  destruct (segment_conflict_returned _ _ _ _ _ _ E)
    as [[_ H] | (P & _ & _ & Hin & [[_ H] | (i & Hmin & H)])];
    try discriminate.
  destruct (Rltb _ b) eqn:Hb; [| discriminate].
  injection H as ->. apply Rltb_true in Hb. cbn.
  destruct Hmin as (Hi & _). rewrite length_map in Hi.
  split; [reflexivity |]. split; [reflexivity |].
  split; [apply Hin, nth_In, Hi |].
  split; [split; [apply norm_nonneg | exact Hb] |].
  split; reflexivity.
Qed.

Lemma segments_of_id (f : Flight.t) (s : Segment.t) :
  In s (segments_of f) -> Segment.flight_id s = Flight.id f.
Proof.
  unfold segments_of.
  destruct (trajectory.build_segments f) as [segs | e] eqn:E;
    [| intros []].
  unfold trajectory.build_segments in E.
  destruct (trajectory.compute_segment_times f) as [times | e];
    cbn [bind] in E; [| discriminate].
  assert (H : Forall (fun s => Segment.flight_id s = Flight.id f) segs).
  { eapply (for_each_invariant
              (Forall (fun s => Segment.flight_id s = Flight.id f)));
      [| constructor | exact E].
    intros st i st' Hst Hb. cbv beta in Hb.
    destruct (index (Flight.waypoints f) i); cbn [bind] in Hb;
      [| discriminate].
    destruct (index (Flight.waypoints f) (i + 1)); cbn [bind] in Hb;
      [| discriminate].
    destruct (index times i); cbn [bind] in Hb; [| discriminate].
    destruct (index times (i + 1)); cbn [bind] in Hb; [| discriminate].
    injection Hb as <-. apply Forall_app. split; [exact Hst |].
    now constructor. }
  rewrite Forall_forall in H. apply H.
Qed.

(** The conflicts a returned run of the three loops has collected. *)
Lemma conflict_loops_returned
  (detect : Segment.t -> Segment.t -> result (option Conflict.t))
  (safety_buffer : R) (include_z : bool) (time_samples : Z)
  (primary : Flight.t) (primary_segments : list Segment.t)
  (others : list Flight.t) (conflicts : list Conflict.t) :
  (forall p s, detect p s
               = detector.segment_conflict p s safety_buffer include_z
                   time_samples) ->
  trajectory.build_segments primary = Ok primary_segments ->
  collect
    (fun sim =>
       ssegs <- trajectory.build_segments sim ;;
       collect
         (fun p =>
            collect
              (fun s =>
                 c <- detect p s ;;
                 Ok match c with Some c => [c] | None => [] end)
              ssegs)
         primary_segments)
    others
  = Ok conflicts ->
  conflicts
  = mission_major safety_buffer include_z time_samples primary others.
Proof.
  intros Hdet Hp H.
  assert (Hsp : segments_of primary = primary_segments)
    by (unfold segments_of; now rewrite Hp).
  unfold mission_major. rewrite Hsp.
  eapply collect_returned; [| exact H].
  intros sim v _ Hg. cbv beta in Hg.
  unfold segments_of.
  destruct (trajectory.build_segments sim) as [ssegs | e];
    cbn [bind] in Hg; [| discriminate].
  eapply collect_returned; [| exact Hg].
  intros p v' _ Hg'. cbv beta in Hg'.
  eapply collect_returned; [| exact Hg'].
  intros s v'' _ Hd. cbv beta in Hd.
  unfold conflicts_of. rewrite <- Hdet.
  destruct (detect p s) as [[c |] | e]; cbn [bind] in Hd;
    [| | discriminate]; now injection Hd as <-.
Qed.

(** The three loops return for one detector when they return for
    another that returns on the same pairs. *)
Lemma conflict_loops_return_together
  (detect detect' : Segment.t -> Segment.t -> result (option Conflict.t))
  (primary_segments : list Segment.t) (others : list Flight.t)
  (conflicts : list Conflict.t) :
  (forall p s r, detect p s = Ok r -> exists r', detect' p s = Ok r') ->
  collect
    (fun sim =>
       ssegs <- trajectory.build_segments sim ;;
       collect
         (fun p =>
            collect
              (fun s =>
                 c <- detect p s ;;
                 Ok match c with Some c => [c] | None => [] end)
              ssegs)
         primary_segments)
    others
  = Ok conflicts ->
  exists conflicts',
    collect
      (fun sim =>
         ssegs <- trajectory.build_segments sim ;;
         collect
           (fun p =>
              collect
                (fun s =>
                   c <- detect' p s ;;
                   Ok match c with Some c => [c] | None => [] end)
                ssegs)
           primary_segments)
      others
    = Ok conflicts'.
Proof.
  intros Hdet H. apply collect_returns. intros sim Hsim.
  destruct (collect_each_returned _ _ _ H sim Hsim) as [v Hv].
  cbv beta in Hv |- *.
  destruct (trajectory.build_segments sim) as [ssegs | e];
    cbn [bind] in Hv |- *; [| discriminate].
  apply collect_returns. intros p Hp.
  destruct (collect_each_returned _ _ _ Hv p Hp) as [v' Hv'].
  cbv beta in Hv' |- *.
  apply collect_returns. intros s Hs.
  destruct (collect_each_returned _ _ _ Hv' s Hs) as [v'' Hv''].
  cbv beta in Hv''.
  destruct (detect p s) as [r | e] eqn:E; cbn [bind] in Hv'';
    [| discriminate].
  destruct (Hdet p s r E) as [r' ->]. cbn [bind]. now eexists.
Qed.

(** What [check_mission] has computed when it returns. *)
Lemma check_mission_returned (primary : Flight.t) (others : list Flight.t)
  (safety_buffer : R) (include_z : bool) (is_clear : bool)
  (conflicts : list Conflict.t) :
  detector.check_mission primary others safety_buffer include_z
  = Ok (is_clear, conflicts) ->
  conflicts = mission_major safety_buffer include_z 20 primary others /\
  is_clear = (List.length conflicts =? 0)%nat.
Proof.
  unfold detector.check_mission. intros H.
  destruct (trajectory.build_segments primary) as [psegs | e] eqn:Hp;
    cbn [bind] in H; [| discriminate].
  rewrite conflict_loops in H.
  destruct (collect _ others) as [cs | e] eqn:Hc; cbn [bind] in H;
    [| discriminate].
  cbv zeta in H. injection H as <- <-.
  split; [| reflexivity].
  exact (conflict_loops_returned _ safety_buffer include_z 20 primary psegs
           others cs (fun p s => eq_refl) Hp Hc).
Qed.

Lemma check_mission_high_accuracy_returned (primary : Flight.t)
  (others : list Flight.t) (safety_buffer : R) (include_z : bool)
  (time_samples : Z) (is_clear : bool) (conflicts : list Conflict.t) :
  detector_enhanced.check_mission_high_accuracy primary others safety_buffer
    include_z time_samples
  = Ok (is_clear, conflicts) ->
  conflicts
  = mission_major safety_buffer include_z time_samples primary others /\
  is_clear = (List.length conflicts =? 0)%nat.
Proof.
  unfold detector_enhanced.check_mission_high_accuracy. intros H.
  destruct (trajectory.build_segments primary) as [psegs | e] eqn:Hp;
    cbn [bind] in H; [| discriminate].
  rewrite conflict_loops in H.
  destruct (collect _ others) as [cs | e] eqn:Hc; cbn [bind] in H;
    [| discriminate].
  cbv zeta in H. injection H as <- <-.
  split; [| reflexivity].
  exact (conflict_loops_returned _ safety_buffer include_z time_samples
           primary psegs others cs
           (fun p s => high_accuracy_is_standard p s safety_buffer include_z
                         time_samples)
           Hp Hc).
Qed.

(** Whether [check_mission] returns or raises depends neither on the
    buffer nor on the dimensions. *)
Lemma check_mission_returns_together (primary : Flight.t)
  (others : list Flight.t) (b b' : R) (z z' : bool) (is_clear : bool)
  (conflicts : list Conflict.t) :
  detector.check_mission primary others b z = Ok (is_clear, conflicts) ->
  exists is_clear' conflicts',
    detector.check_mission primary others b' z' = Ok (is_clear', conflicts').
Proof.
  unfold detector.check_mission. intros H.
  destruct (trajectory.build_segments primary) as [psegs | e] eqn:Hp;
    cbn [bind] in H |- *; [| discriminate].
  rewrite conflict_loops in H |- *.
  destruct (collect _ others) as [cs | e] eqn:Hc; cbn [bind] in H;
    [| discriminate].
  destruct (conflict_loops_return_together
              (fun p s => detector.segment_conflict p s b z
                            detector.default_time_samples)
              (fun p s => detector.segment_conflict p s b' z'
                            detector.default_time_samples)
              psegs others cs) as [cs' Hc'].
  - intros p s r. apply segment_conflict_returns_together.
  - exact Hc.
  - rewrite Hc'. cbn [bind]. now do 2 eexists.
Qed.

(** ** The sample data *)

Ltac flight_is_valid :=
  unfold Flight.valid; cbn; repeat split; [lia | lra | lra].

Ltac hover_segments F :=
  let Hv := fresh "Hv" in
  let Hz := fresh "Hz" in
  assert (Hv : Flight.valid F) by flight_is_valid;
  assert (Hz : total_length F = Ok 0)
    by (apply coincident_total_length; intros w Hw; cbn in Hw |- *;
        intuition congruence);
  let times := fresh "times" in
  let segs := fresh "segs" in
  let Ht := fresh "Ht" in
  let Hs := fresh "Hs" in
  let Hl := fresh "Hl" in
  let Hnth := fresh "Hnth" in
  destruct (build_segments_spec F Hv) as (times & segs & Ht & Hs & Hl & Hnth);
  rewrite (zero_length_times _ Hz) in Ht; injection Ht as <-;
  rewrite Hs; f_equal;
  apply (nth_ext _ _ (leg F [] 0) (leg F [] 0)); [exact Hl |];
  let i := fresh "i" in
  let Hi := fresh "Hi" in
  intros i Hi; rewrite Hl in Hi; cbn in Hi;
  rewrite (nth_error_nth _ _ _ (Hnth i Hi));
  do 2 (destruct i as [| i];
        [first [lia | unfold leg, ticks, tick; cbn; f_equal; lra] |]);
  lia.

Lemma hover_primary_segments :
  trajectory.build_segments hover_primary
  = Ok [Segment.mk wp55 wp55 0 5 "PRIMARY";
        Segment.mk wp55 wp55 5 10 "PRIMARY"].
Proof. hover_segments hover_primary. Qed.

Lemma hover_late_segments :
  trajectory.build_segments hover_late = Ok [Segment.mk wp55 wp55 6 9 "LATE"].
Proof. hover_segments hover_late. Qed.

Lemma hover_early_segments :
  trajectory.build_segments hover_early = Ok [Segment.mk wp55 wp55 1 4 "EARLY"].
Proof. hover_segments hover_early. Qed.

Lemma segment_conflict_stationary (s1 s2 : Segment.t) (safety_buffer : R)
  (include_z : bool) (K : nat) :
  overlap_start s1 s2 <= overlap_end s1 s2 -> (0 < K)%nat ->
  stationary s1 -> stationary s2 ->
  detector.segment_conflict s1 s2 safety_buffer include_z (Z.of_nat K)
  = Ok (if Rltb (distance_at s1 s2 include_z (overlap_start s1 s2))
             safety_buffer
        then Some (conflict_at s1 s2 safety_buffer include_z
                     (overlap_start s1 s2))
        else None).
Proof.
  intros H HK S1 S2.
  destruct (segment_conflict_first_min s1 s2 safety_buffer include_z K H HK)
    as (i & Hmin & Hr).
  rewrite (stationary_first_sample s1 s2 include_z K i S1 S2 Hmin) in Hr.
  cbv zeta in Hr. now rewrite tick_first in Hr.
Qed.

(** Two drones hovering at one waypoint during overlapping windows. *)
Lemma hover_pair_conflict (w : Waypoint) (a1 b1 a2 b2 : R) (id1 id2 : string)
  (safety_buffer : R) (include_z : bool) (K : nat) :
  Rmax a1 a2 <= Rmin b1 b2 -> 0 < safety_buffer -> (0 < K)%nat ->
  detector.segment_conflict (Segment.mk w w a1 b1 id1)
    (Segment.mk w w a2 b2 id2) safety_buffer include_z (Z.of_nat K)
  = Ok (Some (Conflict.mk id1 id2 (to_array w include_z) (Rmax a1 a2) 0
                safety_buffer)).
Proof.
  intros H Hb HK.
  rewrite segment_conflict_stationary; [| exact H | exact HK | easy | easy].
  unfold conflict_at, distance_at.
  rewrite !position_stationary by reflexivity.
  cbn [Segment.start Segment.flight_id]. rewrite norm_vsub_self.
  rewrite (proj2 (Rltb_true 0 safety_buffer) Hb). reflexivity.
Qed.

Ltac minmax :=
  unfold overlap_start, overlap_end, Segment.wf, Rmax, Rmin; cbn;
  repeat destruct (Rle_dec _ _); lra.

Lemma hover_mission_major :
  mission_major 10 false 20 hover_primary [hover_late; hover_early]
  = [Conflict.mk "PRIMARY" "LATE" [5; 5] 6 0 10;
     Conflict.mk "PRIMARY" "EARLY" [5; 5] 1 0 10].
Proof.
  unfold mission_major, segments_of.
  rewrite hover_primary_segments. cbn [flat_map].
  rewrite hover_late_segments, hover_early_segments. cbn [flat_map].
  unfold conflicts_of.
  rewrite (segment_conflict_disjoint (Segment.mk wp55 wp55 0 5 "PRIMARY")
             (Segment.mk wp55 wp55 6 9 "LATE")) by minmax.
  rewrite (segment_conflict_disjoint (Segment.mk wp55 wp55 5 10 "PRIMARY")
             (Segment.mk wp55 wp55 1 4 "EARLY")) by minmax.
  change 20%Z with (Z.of_nat 20).
  rewrite !hover_pair_conflict by (first [lia | minmax]).
  cbn [app to_array wp55 x y].
  rewrite (Rmax_right 5 6), (Rmax_right 0 1) by lra. reflexivity.
Qed.

Lemma hover_primary_major :
  primary_major 10 false 20 hover_primary [hover_late; hover_early]
  = [Conflict.mk "PRIMARY" "EARLY" [5; 5] 1 0 10;
     Conflict.mk "PRIMARY" "LATE" [5; 5] 6 0 10].
Proof.
  unfold primary_major, segments_of.
  rewrite hover_primary_segments. cbn [flat_map].
  rewrite hover_late_segments, hover_early_segments. cbn [flat_map].
  unfold conflicts_of.
  rewrite (segment_conflict_disjoint (Segment.mk wp55 wp55 0 5 "PRIMARY")
             (Segment.mk wp55 wp55 6 9 "LATE")) by minmax.
  rewrite (segment_conflict_disjoint (Segment.mk wp55 wp55 5 10 "PRIMARY")
             (Segment.mk wp55 wp55 1 4 "EARLY")) by minmax.
  change 20%Z with (Z.of_nat 20).
  rewrite !hover_pair_conflict by (first [lia | minmax]).
  cbn [app to_array wp55 x y].
  rewrite (Rmax_right 5 6), (Rmax_right 0 1) by lra. reflexivity.
Qed.

Lemma hover_flights_valid :
  Flight.valid hover_primary /\ Forall Flight.valid [hover_late; hover_early].
Proof.
  split; [flight_is_valid |].
  constructor; [flight_is_valid |]. constructor; [flight_is_valid |].
  constructor.
Qed.

Lemma hover_mission_major_any (safety_buffer : R) (include_z : bool) :
  0 < safety_buffer ->
  mission_major safety_buffer include_z 20 hover_primary
    [hover_late; hover_early]
  = [Conflict.mk "PRIMARY" "LATE" (to_array wp55 include_z) 6 0
       safety_buffer;
     Conflict.mk "PRIMARY" "EARLY" (to_array wp55 include_z) 1 0
       safety_buffer].
Proof.
  intros Hb. unfold mission_major, segments_of.
  rewrite hover_primary_segments. cbn [flat_map].
  rewrite hover_late_segments, hover_early_segments. cbn [flat_map].
  unfold conflicts_of.
  rewrite (segment_conflict_disjoint (Segment.mk wp55 wp55 0 5 "PRIMARY")
             (Segment.mk wp55 wp55 6 9 "LATE")) by minmax.
  rewrite (segment_conflict_disjoint (Segment.mk wp55 wp55 5 10 "PRIMARY")
             (Segment.mk wp55 wp55 1 4 "EARLY")) by minmax.
  change 20%Z with (Z.of_nat 20).
  rewrite !hover_pair_conflict by (first [lia | minmax | exact Hb]).
  cbn [app].
  rewrite (Rmax_right 5 6), (Rmax_right 0 1) by lra. reflexivity.
Qed.

Lemma hover_check_mission (safety_buffer : R) (include_z : bool) :
  0 < safety_buffer ->
  detector.check_mission hover_primary [hover_late; hover_early]
    safety_buffer include_z
  = Ok (false,
        [Conflict.mk "PRIMARY" "LATE" (to_array wp55 include_z) 6 0
           safety_buffer;
         Conflict.mk "PRIMARY" "EARLY" (to_array wp55 include_z) 1 0
           safety_buffer]).
Proof.
  intros Hb.
  rewrite (check_mission_standard hover_primary [hover_late; hover_early]
             safety_buffer include_z (proj1 hover_flights_valid)
             (proj2 hover_flights_valid)).
  now rewrite hover_mission_major_any.
Qed.

Lemma distance_cruise_hover (t : R) :
  distance_at seg_cruise seg_hover false t = Rabs (t - 3).
Proof.
  unfold distance_at, position.
  cbn [seg_cruise seg_hover Segment.t_start Segment.t_end].
  assert (E : Reqb 0 6 = false) by (apply Reqb_false; lra).
  rewrite E. unfold interpolate, norm, sum_squares.
  cbn [vsub fold_right].
  rewrite <- sqrt_Rsqr_abs. f_equal. unfold lerp, Rsqr.
  cbn [seg_cruise seg_hover Segment.start Segment.end_ Segment.t_start
         Segment.t_end x y z].
  field.
Qed.

Lemma position_cruise (t : R) :
  position seg_cruise t false = [t; 0].
Proof.
  unfold position.
  cbn [seg_cruise Segment.t_start Segment.t_end].
  assert (E : Reqb 0 6 = false) by (apply Reqb_false; lra).
  rewrite E. unfold interpolate, lerp.
  cbn [seg_cruise Segment.start Segment.end_ Segment.t_start Segment.t_end
         x y z].
  apply f_equal2; [field | apply f_equal2; [field | reflexivity]].
Qed.

Lemma cruise_hover_window :
  overlap_start seg_cruise seg_hover = 0 /\
  overlap_end seg_cruise seg_hover = 6.
Proof.
  unfold overlap_start, overlap_end; cbn.
  rewrite Rmax_left, Rmin_left by lra. split; reflexivity.
Qed.

Ltac abs_values :=
  repeat f_equal; unfold Rabs; destruct (Rcase_abs _); lra.

Lemma cruise_hover_distances_3 :
  sampled_distances seg_cruise seg_hover false 3 = [3; 0; 3].
Proof.
  unfold sampled_distances, ticks.
  destruct cruise_hover_window as [-> ->]. cbn [seq map].
  rewrite !distance_cruise_hover. unfold tick. cbn [Nat.sub INR].
  abs_values.
Qed.


(** The conflict of the cruising and the hovering segment, decided at
    sample [i] of [K] once [i] is known to be the first minimum. *)
Lemma cruise_hover_conflict (K i : nat) (ds : list R) (t d : R) :
  (0 < K)%nat ->
  sampled_distances seg_cruise seg_hover false K = ds ->
  (forall j, first_min ds j -> j = i) ->
  tick 0 6 K i = t -> Rabs (t - 3) = d -> d < 5 ->
  detector.segment_conflict seg_cruise seg_hover 5 false (Z.of_nat K)
  = Ok (Some (Conflict.mk "PRIMARY" "SIM" [t; 0] t d 5)).
Proof.
  intros HK Hds Hfirst Ht Hd Hlt.
  destruct (segment_conflict_first_min seg_cruise seg_hover 5 false K
              seg_cruise_hover_overlap HK) as (j & Hmin & Hr).
  rewrite Hds in Hmin. rewrite (Hfirst j Hmin) in Hr. cbv zeta in Hr.
  destruct cruise_hover_window as [Es Ee]. rewrite Es, Ee, Ht in Hr.
  rewrite Hr. unfold conflict_at.
  rewrite distance_cruise_hover, position_cruise, Hd.
  rewrite (proj2 (Rltb_true d 5) Hlt). reflexivity.
Qed.

Lemma first_min_3_0_3 (j : nat) : first_min [3; 0; 3] j -> j = 1%nat.
Proof.
  intros (Hj & Hall & Hbefore). cbn in Hj.
  pose proof (Hall 1%nat ltac:(cbn; lia)) as H1.
  destruct j as [| [| [| j]]]; cbn in H1; try lra; [reflexivity | lia].
Qed.




(** * The properties *)

(** C8: the checks of the constructor are comparisons, and a comparison
    with [nan] is false.  [Flight("N", [Waypoint(0, 0), Waypoint(1, 0)],
    t_start=0.0, t_end=float("nan"))] passes [__post_init__] and the
    flight is constructed, although its [t_start] is not strictly below
    its [t_end]; so is a flight whose speed is [nan], although that speed
    is not strictly positive. *)
Theorem flight_new_accepts_nan :
  ieee.Flight.new (ieee.Flight.id ieee.nan_flight)
    (ieee.Flight.waypoints ieee.nan_flight)
    (ieee.Flight.t_start ieee.nan_flight)
    (ieee.Flight.t_end ieee.nan_flight)
    (ieee.Flight.speed ieee.nan_flight)
  = Ok ieee.nan_flight /\
  PrimFloat.ltb (ieee.Flight.t_start ieee.nan_flight)
    (ieee.Flight.t_end ieee.nan_flight) = false /\
  ieee.Flight.new (ieee.Flight.id ieee.nan_speed_flight)
    (ieee.Flight.waypoints ieee.nan_speed_flight)
    (ieee.Flight.t_start ieee.nan_speed_flight)
    (ieee.Flight.t_end ieee.nan_speed_flight)
    (ieee.Flight.speed ieee.nan_speed_flight)
  = Ok ieee.nan_speed_flight /\
  PrimFloat.ltb PrimFloat.zero (ieee.Flight.speed ieee.nan_speed_flight)
  = false.
Proof. vm_compute. repeat split. Qed.

(** C3: on binary64 floats the running sum of [compute_segment_times]
    can pass [t_end] before the last boundary is set to [t_end].  For the
    valid flight through (0, 0), (1, 0), (5, 0), (5, 0) over [0, 3] the
    boundary times are 0, 0.6000000000000001, 3.0000000000000004 and 3:
    [build_segments] returns a last segment that starts after it ends,
    and [check_mission] with this primary flight against a valid flight
    over [0, 10] raises the range error of [position_at_time]. *)
Theorem build_segments_reversed_span :
  ieee.Flight.post_init ieee.drift_flight = Ok tt /\
  ieee.Flight.post_init ieee.side_flight = Ok tt /\
  ieee.trajectory.compute_segment_times ieee.drift_flight
  = Ok ieee.drift_times /\
  ieee.trajectory.build_segments ieee.drift_flight = Ok ieee.drift_segments /\
  Exists (fun s => PrimFloat.ltb (ieee.Segment.t_end s)
                     (ieee.Segment.t_start s) = true)
    ieee.drift_segments /\
  ieee.detector.check_mission ieee.drift_flight [ieee.side_flight]
    ieee.default_buffer false
  = Err (ValueError TimeOutsideSegment).
Proof.
  repeat split; try (vm_compute; reflexivity).
  do 2 apply Exists_cons_tl. apply Exists_cons_hd. vm_compute. reflexivity.
Qed.


(** C5: [position_at_time] raises exactly when [t] lies before [t_start]
    or after [t_end]; on a segment of zero duration it returns the start
    position for every instant in range; otherwise it returns
    [start + ((t - t_start) / (t_end - t_start)) * (end - start)],
    component by component, over three dimensions when the caller asks
    for altitude and over two otherwise. *)
Theorem position_at_time_cases (s : Segment.t) (t : R) (include_z : bool) :
  ((exists e, Segment.position_at_time s t include_z = Err e) <->
   (t < Segment.t_start s \/ t > Segment.t_end s)) /\
  (Segment.t_start s <= t <= Segment.t_end s ->
   Segment.t_start s = Segment.t_end s ->
   Segment.position_at_time s t include_z
   = Ok (to_array (Segment.start s) include_z)) /\
  (Segment.t_start s <= t <= Segment.t_end s ->
   Segment.t_start s <> Segment.t_end s ->
   Segment.position_at_time s t include_z = Ok (interpolate s t include_z)) /\
  List.length (interpolate s t include_z) = (if include_z then 3 else 2)%nat.
Proof.
  split; [| split; [| split]].
  - split.
    + intros [e He].
      destruct (Rlt_dec t (Segment.t_start s)) as [H1 | H1]; [now left |].
      destruct (Rlt_dec (Segment.t_end s) t) as [H2 | H2]; [now right |].
      rewrite position_at_time_inside in He by lra. discriminate.
    + intros H. eexists. apply position_at_time_outside.
      destruct H; [now left | right; lra].
  - intros Hin Heq. rewrite position_at_time_inside by exact Hin.
    unfold position. apply Reqb_true in Heq. now rewrite Heq.
  - intros Hin Hne. rewrite position_at_time_inside by exact Hin.
    unfold position. apply Reqb_false in Hne. now rewrite Hne.
  - unfold interpolate. now destruct include_z.
Qed.

Lemma position_at_time_cases_witness :
  Segment.position_at_time seg_cruise 3 false
  = Ok (interpolate seg_cruise 3 false).
Proof.
  apply (proj1 (proj2 (proj2 (position_at_time_cases seg_cruise 3 false))));
    cbn; lra.
Defined.






(** C9: the standard detector's [segment_conflict], the enhanced
    detector's [segment_conflict_high_accuracy] and the enhanced module's
    backward-compatible [segment_conflict] return equal results on equal
    arguments, sample count included. *)
Theorem detectors_agree (s1 s2 : Segment.t) (safety_buffer : R)
  (include_z : bool) (time_samples : Z) :
  detector.segment_conflict s1 s2 safety_buffer include_z time_samples
  = detector_enhanced.segment_conflict_high_accuracy s1 s2 safety_buffer
      include_z time_samples /\
  detector_enhanced.segment_conflict s1 s2 safety_buffer include_z
    time_samples
  = detector_enhanced.segment_conflict_high_accuracy s1 s2 safety_buffer
      include_z time_samples.
Proof.
  split; [symmetry; apply high_accuracy_is_standard | reflexivity].
Qed.





(** C10: when the windows intersect and a conflict is returned, its time
    is the first sample instant that attains the minimum distance: no
    sample is closer, every earlier sample is strictly farther, and the
    location is the primary position at that instant.  For two stationary
    segments the reported time is the start of the overlap window. *)
Theorem segment_conflict_earliest_minimum (s1 s2 : Segment.t)
  (safety_buffer : R) (include_z : bool) (K : nat) (c : Conflict.t) :
  overlap_start s1 s2 <= overlap_end s1 s2 ->
  detector.segment_conflict s1 s2 safety_buffer include_z (Z.of_nat K)
  = Ok (Some c) ->
  (exists i,
     (i < K)%nat /\
     Conflict.time c = tick (overlap_start s1 s2) (overlap_end s1 s2) K i /\
     Conflict.min_distance c = distance_at s1 s2 include_z (Conflict.time c) /\
     Conflict.location c = position s1 (Conflict.time c) include_z /\
     (forall j, (j < K)%nat ->
        Conflict.min_distance c
        <= distance_at s1 s2 include_z
             (tick (overlap_start s1 s2) (overlap_end s1 s2) K j)) /\
     (forall j, (j < i)%nat ->
        Conflict.min_distance c
        < distance_at s1 s2 include_z
            (tick (overlap_start s1 s2) (overlap_end s1 s2) K j))) /\
  (stationary s1 -> stationary s2 ->
   Conflict.time c = overlap_start s1 s2).
Proof.
  intros H Hc.
  destruct K as [| K].
  { rewrite segment_conflict_no_samples in Hc by exact H. discriminate. }
  destruct (segment_conflict_first_min s1 s2 safety_buffer include_z
              (S K) H ltac:(lia)) as (i & Hmin & Hr).
  cbv zeta in Hr. rewrite Hr in Hc.
  destruct (Rltb _ safety_buffer); [| discriminate].
  injection Hc as <-. cbn [conflict_at Conflict.time Conflict.min_distance
                            Conflict.location].
  pose proof Hmin as (Hi & Hall & Hbefore).
  rewrite length_sampled_distances in Hi, Hall.
  split.
  - exists i. repeat split; try assumption.
    + intros j Hj. specialize (Hall j Hj).
      now rewrite !nth_sampled_distances in Hall by lia.
    + intros j Hj. specialize (Hbefore j Hj).
      now rewrite !nth_sampled_distances in Hbefore by lia.
  - intros S1 S2.
    rewrite (stationary_first_sample s1 s2 include_z (S K) i S1 S2 Hmin).
    apply tick_first.
Qed.

Lemma segment_conflict_earliest_minimum_witness :
  detector.segment_conflict seg_hover seg_hover 5 false 3
  = Ok (Some (Conflict.mk "SIM" "SIM" [3; 0] (Rmax 0 0) 0 5)) /\
  Rmax 0 0 = overlap_start seg_hover seg_hover.
Proof.
  assert (Hw : overlap_start seg_hover seg_hover
               <= overlap_end seg_hover seg_hover) by minmax.
  assert (Hc : detector.segment_conflict seg_hover seg_hover 5 false
                 (Z.of_nat 3)
               = Ok (Some (Conflict.mk "SIM" "SIM" [3; 0] (Rmax 0 0) 0 5))).
  { apply (hover_pair_conflict (mkWaypoint 3 0 0) 0 6 0 6 "SIM" "SIM" 5
             false 3); [exact Hw | lra | lia]. }
  split; [exact Hc |].
  exact (proj2 (segment_conflict_earliest_minimum seg_hover seg_hover 5
                  false 3 _ Hw Hc) eq_refl eq_refl).
Defined.








(** C1, amended: whenever [check_mission] returns a pair
    [(is_clear, conflicts)], [is_clear] is true exactly when [conflicts]
    is empty, and [conflicts] lists the conflicts of all segment pairs
    ordered by other mission first, then by primary segment, then by the
    other mission's segment; so it is for [check_mission_high_accuracy]
    and every sample count. *)
Theorem check_mission_order (primary : Flight.t) (others : list Flight.t)
  (safety_buffer : R) (include_z : bool) (time_samples : Z)
  (is_clear : bool) (conflicts : list Conflict.t) :
  (detector.check_mission primary others safety_buffer include_z
   = Ok (is_clear, conflicts) ->
   (is_clear = true <-> conflicts = []) /\
   conflicts = mission_major safety_buffer include_z 20 primary others) /\
  (detector_enhanced.check_mission_high_accuracy primary others
     safety_buffer include_z time_samples
   = Ok (is_clear, conflicts) ->
   (is_clear = true <-> conflicts = []) /\
   conflicts
   = mission_major safety_buffer include_z time_samples primary others).
Proof.
  split; intros H.
  - apply check_mission_returned in H. destruct H as [Hc ->].
    split; [apply length_eqb_nil | exact Hc].
  - apply check_mission_high_accuracy_returned in H. destruct H as [Hc ->].
    split; [apply length_eqb_nil | exact Hc].
Qed.

(** C1 as stated fails: with a primary flight of two segments, the first
    of which conflicts only with the second other flight and the second
    only with the first, [check_mission] lists the conflict with the
    first other flight first, where the order by primary segment would
    list it last. *)
Lemma check_mission_order_counterexample :
  detector.check_mission hover_primary [hover_late; hover_early] 10 false
  = Ok (false, [Conflict.mk "PRIMARY" "LATE" [5; 5] 6 0 10;
                Conflict.mk "PRIMARY" "EARLY" [5; 5] 1 0 10]) /\
  primary_major 10 false 20 hover_primary [hover_late; hover_early]
  = [Conflict.mk "PRIMARY" "EARLY" [5; 5] 1 0 10;
     Conflict.mk "PRIMARY" "LATE" [5; 5] 6 0 10] /\
  ~ (exists is_clear,
       detector.check_mission hover_primary [hover_late; hover_early] 10 false
       = Ok (is_clear,
             primary_major 10 false 20 hover_primary
               [hover_late; hover_early])).
Proof.
  destruct hover_flights_valid as [Hv Hothers].
  pose proof (check_mission_standard hover_primary [hover_late; hover_early]
                10 false Hv Hothers) as H.
  rewrite hover_mission_major in H. cbn [List.length Nat.eqb] in H.
  split; [exact H |]. split; [exact hover_primary_major |].
  intros [b Hb]. rewrite H, hover_primary_major in Hb.
  discriminate Hb.
Qed.

Lemma check_mission_order_witness :
  detector.check_mission hover_primary [hover_late; hover_early] 10 false
  = Ok (false, [Conflict.mk "PRIMARY" "LATE" [5; 5] 6 0 10;
                Conflict.mk "PRIMARY" "EARLY" [5; 5] 1 0 10]) /\
  [Conflict.mk "PRIMARY" "LATE" [5; 5] 6 0 10;
   Conflict.mk "PRIMARY" "EARLY" [5; 5] 1 0 10]
  = mission_major 10 false 20 hover_primary [hover_late; hover_early].
Proof.
  assert (H : detector.check_mission hover_primary [hover_late; hover_early]
                10 false
              = Ok (false, [Conflict.mk "PRIMARY" "LATE" [5; 5] 6 0 10;
                            Conflict.mk "PRIMARY" "EARLY" [5; 5] 1 0 10])).
  { rewrite (check_mission_standard hover_primary [hover_late; hover_early]
               10 false (proj1 hover_flights_valid)
               (proj2 hover_flights_valid)).
    now rewrite hover_mission_major. }
  split; [exact H |].
  exact (proj2 (proj1 (check_mission_order hover_primary
                         [hover_late; hover_early] 10 false 20 _ _) H)).
Defined.


(** * Further properties of the code *)

Lemma simple_flight_valid : Flight.valid simple_flight.
Proof. flight_is_valid. Qed.

(** ** Overlap windows *)

(** X1: the overlap test and the overlap window do not depend on the
    order of the two windows. *)
Theorem overlap_symmetric (t1_start t1_end t2_start t2_end : R) :
  detector.time_windows_overlap t1_start t1_end t2_start t2_end
  = detector.time_windows_overlap t2_start t2_end t1_start t1_end /\
  detector.compute_overlap_window t1_start t1_end t2_start t2_end
  = detector.compute_overlap_window t2_start t2_end t1_start t1_end.
Proof.
  assert (E : detector.time_windows_overlap t1_start t1_end t2_start t2_end
              = detector.time_windows_overlap t2_start t2_end t1_start t1_end).
  { unfold detector.time_windows_overlap. now rewrite orb_comm. }
  split; [exact E |].
  unfold detector.compute_overlap_window. rewrite E.
  now rewrite (Rmax_comm t1_start), (Rmin_comm t1_end).
Qed.

(** X2: when [compute_overlap_window] returns a window, the instants
    of that window are exactly the instants that lie in both given
    windows, and the window is not reversed if neither given window is;
    when it returns [None], no instant lies in both. *)
Theorem overlap_window_is_intersection (t1_start t1_end t2_start t2_end : R) :
  match detector.compute_overlap_window t1_start t1_end t2_start t2_end with
  | Some (overlap_start, overlap_end) =>
      (t1_start <= t1_end -> t2_start <= t2_end ->
       overlap_start <= overlap_end) /\
      forall t, (t1_start <= t <= t1_end /\ t2_start <= t <= t2_end) <->
                overlap_start <= t <= overlap_end
  | None =>
      forall t, ~ (t1_start <= t <= t1_end /\ t2_start <= t <= t2_end)
  end.
Proof.
  unfold detector.compute_overlap_window, detector.time_windows_overlap.
  destruct (Rltb t1_end t2_start) eqn:E1; cbn [orb negb].
  { apply Rltb_true in E1. intros t. lra. }
  destruct (Rltb t2_end t1_start) eqn:E2; cbn [orb negb].
  { apply Rltb_true in E2. intros t. lra. }
  apply Rltb_false in E1, E2.
  split.
  - intros W1 W2. unfold Rmax, Rmin.
    repeat destruct (Rle_dec _ _); lra.
  - intros t. unfold Rmax, Rmin. repeat destruct (Rle_dec _ _); lra.
Qed.

Lemma overlap_window_is_intersection_witness :
  detector.compute_overlap_window 0 10 5 15 = Some (Rmax 0 5, Rmin 10 15) /\
  Rmax 0 5 <= Rmin 10 15.
Proof.
  assert (E : detector.compute_overlap_window 0 10 5 15
              = Some (Rmax 0 5, Rmin 10 15)).
  { unfold detector.compute_overlap_window, detector.time_windows_overlap.
    rewrite (proj2 (Rltb_false 10 5)), (proj2 (Rltb_false 15 0)) by lra.
    reflexivity. }
  split; [exact E |].
  pose proof (overlap_window_is_intersection 0 10 5 15) as H.
  rewrite E in H. apply (proj1 H); lra.
Defined.

(** ** Lengths *)

Lemma sum_squares_nonneg (a : ndarray) : 0 <= sum_squares a.
Proof.
  unfold sum_squares. induction a as [| u a IH]; cbn; [lra |].
  pose proof (Rle_0_sqr u) as H. unfold Rsqr in H. lra.
Qed.

Lemma sum_squares_zero (a : ndarray) :
  sum_squares a = 0 -> Forall (fun u => u = 0) a.
Proof.
  induction a as [| u a IH]; intros H; [constructor |].
  change (u * u + sum_squares a = 0) in H.
  pose proof (sum_squares_nonneg a) as Ha.
  pose proof (Rle_0_sqr u) as Hu. unfold Rsqr in Hu.
  constructor; [nra | apply IH; lra].
Qed.

Lemma sum_zero_all (l : list R) :
  Forall (fun u => 0 <= u) l -> trajectory.sum l = 0 ->
  Forall (fun u => u = 0) l.
Proof.
  induction 1 as [| u l Hu Hl IH]; intros H; [constructor |].
  rewrite sum_cons in H. pose proof (sum_nonneg l Hl).
  constructor; [lra | apply IH; lra].
Qed.

(** ** Proportional allocation *)

Lemma sum_firstn_S (ls : list R) (i : nat) :
  (i < List.length ls)%nat ->
  trajectory.sum (firstn (S i) ls)
  = trajectory.sum (firstn i ls) + nth i ls 0.
Proof.
  revert i. induction ls as [| l r IH]; intros i Hi; [cbn in Hi; lia |].
  destruct i as [| i].
  - cbn [firstn nth]. rewrite sum_cons. unfold trajectory.sum; cbn. lra.
  - change (firstn (S (S i)) (l :: r)) with (l :: firstn (S i) r).
    change (firstn (S i) (l :: r)) with (l :: firstn i r).
    rewrite !sum_cons, IH by (cbn in Hi; lia). cbn [nth]. lra.
Qed.

Lemma nth_running (total duration : R) (ls : list R) (c : R) (i : nat) :
  (i < List.length ls)%nat ->
  nth i (running total duration c ls) 0
  = c + trajectory.sum (firstn (S i) ls) / total * duration.
Proof.
  revert c i. induction ls as [| l r IH]; intros c i Hi; [cbn in Hi; lia |].
  destruct i as [| i].
  - cbn [running nth firstn]. rewrite sum_cons.
    unfold trajectory.sum, Rdiv; cbn. ring.
  - change (firstn (S (S i)) (l :: r)) with (l :: firstn (S i) r).
    cbn [running nth]. rewrite IH by (cbn in Hi; lia).
    rewrite sum_cons. unfold Rdiv. ring.
Qed.

(** The boundary time of waypoint [i] when the path has a length: the
    share of the duration that the legs before it have of the length. *)
Lemma proportional_times (f : Flight.t) (ls : list R) :
  Flight.valid f ->
  trajectory.leg_lengths f = Ok ls -> trajectory.sum ls <> 0 ->
  exists times,
    trajectory.compute_segment_times f = Ok times /\
    forall i, (i < List.length (Flight.waypoints f))%nat ->
      nth i times 0
      = Flight.t_start f
        + trajectory.sum (firstn i ls) / trajectory.sum ls
          * (Flight.t_end f - Flight.t_start f).
Proof.
  intros (Hn & _ & _) Hls Htot.
  destruct (leg_lengths_spec f) as (ls' & Hls' & Hlen & _ & _).
  assert (ls' = ls) as -> by congruence.
  unfold trajectory.compute_segment_times. rewrite Hls. cbn [bind].
  rewrite (proj2 (Reqb_false _ _) Htot).
  rewrite running_loop by (now apply Reqb_false). cbn [bind fst].
  set (n := List.length (Flight.waypoints f)) in *.
  set (ts := Flight.t_start f). set (te := Flight.t_end f).
  set (tot := trajectory.sum ls) in *.
  set (rs := running tot (te - ts) ts (removelast ls)).
  assert (Hrl : List.length (removelast ls) = (n - 2)%nat).
  { rewrite removelast_firstn_len, length_firstn. lia. }
  assert (Hrs : List.length rs = (n - 2)%nat).
  { unfold rs. now rewrite length_running. }
  eexists. split; [reflexivity |].
  intros i Hi. rewrite <- app_assoc. cbn [app].
  destruct i as [| i].
  - cbn [nth firstn]. unfold trajectory.sum, Rdiv; cbn. ring.
  - cbn [nth]. destruct (Nat.eq_dec i (n - 2)) as [-> | Hne].
    + rewrite app_nth2, Hrs, Nat.sub_diag by lia. cbn [nth].
      replace (S (n - 2)) with (List.length ls) by lia.
      rewrite firstn_all. fold tot. field. exact Htot.
    + rewrite app_nth1 by lia. unfold rs.
      rewrite nth_running by lia.
      rewrite firstn_removelast by lia. reflexivity.
Qed.

Lemma build_segments_map (f : Flight.t) :
  Flight.valid f ->
  exists times,
    trajectory.compute_segment_times f = Ok times /\
    trajectory.build_segments f
    = Ok (map (leg f times)
            (seq 0 (List.length (Flight.waypoints f) - 1))).
Proof.
  intros Hv.
  destruct (build_segments_spec f Hv) as (times & segs & Ht & Hs & Hl & Hnth).
  exists times. split; [exact Ht |]. rewrite Hs. f_equal.
  apply (nth_ext _ _ (leg f times 0) (leg f times 0)).
  - now rewrite length_map, length_seq.
  - intros i Hi. rewrite Hl in Hi.
    rewrite (nth_error_nth _ _ _ (Hnth i Hi)).
    now rewrite nth_map_seq.
Qed.

Lemma sum_telescope (T : nat -> R) (m k : nat) :
  trajectory.sum (map (fun i => T (S i) - T i) (seq k m)) = T (k + m)%nat - T k.
Proof.
  revert k. induction m as [| m IH]; intros k.
  - rewrite Nat.add_0_r. unfold trajectory.sum; cbn. lra.
  - cbn [seq map]. rewrite sum_cons, IH.
    replace (S k + m)%nat with (k + S m)%nat by lia. lra.
Qed.

(** X5: the durations of the segments of a valid flight add up to the
    duration of the flight. *)
Theorem segment_durations_sum (f : Flight.t) :
  Flight.valid f ->
  exists segs,
    trajectory.build_segments f = Ok segs /\
    trajectory.sum (map Segment.duration segs) = Flight.duration f.
Proof.
  intros Hv.
  destruct (build_segments_map f Hv) as (times & Ht & Hs).
  destruct (compute_segment_times_spec f Hv)
    as (times' & Ht' & _ & Hfirst & Hlast & _).
  assert (times' = times) as -> by congruence.
  eexists. split; [exact Hs |].
  rewrite map_map.
  change (fun i => Segment.duration (leg f times i))
    with (fun i => (fun j => nth j times 0) (S i) - (fun j => nth j times 0) i).
  rewrite sum_telescope. cbn [Nat.add]. rewrite Hfirst, Hlast.
  reflexivity.
Qed.

Lemma segment_durations_sum_witness :
  exists segs,
    trajectory.build_segments simple_flight = Ok segs /\
    trajectory.sum (map Segment.duration segs) = Flight.duration simple_flight.
Proof.
  exact (segment_durations_sum simple_flight simple_flight_valid).
Defined.

(** Leg [i] of a valid flight: its length is entry [i] of the leg
    lengths, and its duration has the share of the flight's duration that
    its length has of the total length. *)
Lemma leg_time_proportional (f : Flight.t) :
  Flight.valid f ->
  exists ls times,
    trajectory.leg_lengths f = Ok ls /\
    Forall (fun u => 0 <= u) ls /\
    trajectory.compute_segment_times f = Ok times /\
    trajectory.build_segments f
    = Ok (map (leg f times) (seq 0 (List.length (Flight.waypoints f) - 1))) /\
    forall i, (i < List.length (Flight.waypoints f) - 1)%nat ->
      nth i ls 0 = leg_length f i /\
      Segment.length (leg f times i) (Flight.is_3d f) = nth i ls 0 /\
      Segment.duration (leg f times i) * trajectory.sum ls
      = nth i ls 0 * Flight.duration f.
Proof.
  intros Hv.
  destruct (leg_lengths_spec f) as (ls & Hls & Hlen & Hnth & Hpos).
  destruct (build_segments_map f Hv) as (times & Ht & Hs).
  exists ls, times. split; [exact Hls |]. split; [exact Hpos |].
  split; [exact Ht |]. split; [exact Hs |].
  intros i Hi.
  set (n := List.length (Flight.waypoints f)) in *.
  assert (Hi_ls : nth i ls 0 = leg_length f i)
    by (apply nth_error_nth; now apply Hnth).
  split; [exact Hi_ls |]. split.
  { rewrite Hi_ls. unfold Segment.length, leg, leg_length; cbn.
    now rewrite Nat.add_1_r. }
  destruct (Req_dec_T (trajectory.sum ls) 0) as [Hz | Hnz].
  - rewrite Hz. pose proof (sum_zero_all ls Hpos Hz) as Hall.
    rewrite Forall_forall in Hall.
    rewrite (Hall (nth i ls 0)) by (apply nth_In; lia). lra.
  - destruct (proportional_times f ls Hv Hls Hnz) as (times' & Ht' & Hform).
    assert (times' = times) as -> by congruence.
    unfold Segment.duration, leg; cbn [Segment.t_start Segment.t_end].
    rewrite !Hform by (fold n; lia).
    rewrite sum_firstn_S by lia. unfold Flight.duration. field. exact Hnz.
Qed.

(** X6: the time of a valid flight whose path has a length is allocated
    leg by leg in proportion to distance: every segment but the last ends
    at its start time plus the share of the flight's duration that its
    length has of the total path length, lengths measured in the flight's
    own dimensionality.  The last segment ends at the flight's [t_end]. *)
Theorem segment_time_proportional (f : Flight.t) :
  Flight.valid f ->
  exists L segs,
    total_length f = Ok L /\
    trajectory.build_segments f = Ok segs /\
    (L <> 0 ->
     forall i s, nth_error segs i = Some s -> (S i < List.length segs)%nat ->
       Segment.t_end s
       = Segment.t_start s
         + Segment.length s (Flight.is_3d f) / L * Flight.duration f).
Proof.
  intros Hv.
  destruct (leg_time_proportional f Hv)
    as (ls & times & Hls & _ & Ht & Hs & Hleg).
  exists (trajectory.sum ls). eexists.
  split; [unfold total_length; now rewrite Hls |].
  split; [exact Hs |].
  intros Hnz i s Hi Hlast.
  set (n := List.length (Flight.waypoints f)) in *.
  rewrite length_map, length_seq in Hlast.
  rewrite (nth_error_nth' _ (leg f times 0)) in Hi
    by (rewrite length_map, length_seq; lia).
  rewrite nth_map_seq in Hi by lia. injection Hi as <-.
  destruct (Hleg i ltac:(lia)) as (_ & -> & _).
  destruct (proportional_times f ls Hv Hls Hnz) as (times' & Ht' & Hform).
  assert (times' = times) as -> by congruence.
  destruct (leg_lengths_spec f) as (ls' & Hls' & Hlen & _ & _).
  assert (ls' = ls) as -> by congruence.
  unfold leg; cbn [Segment.t_start Segment.t_end].
  rewrite !Hform by (fold n; lia).
  rewrite sum_firstn_S by (fold n in Hlen; lia).
  unfold Flight.duration. field. exact Hnz.
Qed.

Lemma simple_flight_length :
  exists L, total_length simple_flight = Ok L /\ L <> 0.
Proof.
  unfold total_length, trajectory.leg_lengths. cbn.
  eexists. split; [reflexivity |].
  unfold trajectory.sum; cbn [fold_left].
  rewrite (proj2 (Reqb_true 0 0) eq_refl). cbn.
  pose proof (norm_nonneg [100 - 100; 100 - 0]) as H1.
  assert (H2 : 0 < norm [100 - 0; 0 - 0]).
  { unfold norm, sum_squares; cbn. apply sqrt_lt_R0. lra. }
  lra.
Qed.

Lemma segment_time_proportional_witness :
  exists L segs,
    total_length simple_flight = Ok L /\
    trajectory.build_segments simple_flight = Ok segs /\
    forall i s, nth_error segs i = Some s -> (S i < List.length segs)%nat ->
      Segment.t_end s
      = Segment.t_start s
        + Segment.length s (Flight.is_3d simple_flight) / L
          * Flight.duration simple_flight.
Proof.
  destruct (segment_time_proportional simple_flight simple_flight_valid)
    as (L & segs & HL & Hs & Hrec).
  destruct simple_flight_length as (L' & HL' & Hnz).
  assert (L' = L) as -> by congruence.
  exists L, segs. split; [exact HL |]. split; [exact Hs |]. exact (Hrec Hnz).
Defined.

(** ** Boundaries and velocity *)

Lemma position_at_start (s : Segment.t) (include_z : bool) :
  position s (Segment.t_start s) include_z
  = to_array (Segment.start s) include_z.
Proof.
  unfold position. destruct (Reqb _ _); [reflexivity |].
  unfold interpolate, lerp, to_array, Rdiv.
  destruct include_z; repeat (apply f_equal2; [ring |]); reflexivity.
Qed.

Lemma position_at_end (s : Segment.t) (include_z : bool) :
  Segment.t_start s <> Segment.t_end s ->
  position s (Segment.t_end s) include_z
  = to_array (Segment.end_ s) include_z.
Proof.
  intros H. unfold position. rewrite (proj2 (Reqb_false _ _) H).
  unfold interpolate, lerp, to_array.
  destruct include_z; repeat (apply f_equal2; [field; lra |]); reflexivity.
Qed.

(** X3: at [t_start] a segment is at its start waypoint; at [t_end] it is
    at its end waypoint when it lasts, and at its start waypoint when its
    duration is zero. *)
Theorem position_at_boundaries (s : Segment.t) (include_z : bool) :
  Segment.t_start s <= Segment.t_end s ->
  Segment.position_at_time s (Segment.t_start s) include_z
  = Ok (to_array (Segment.start s) include_z) /\
  (Segment.t_start s < Segment.t_end s ->
   Segment.position_at_time s (Segment.t_end s) include_z
   = Ok (to_array (Segment.end_ s) include_z)) /\
  (Segment.t_start s = Segment.t_end s ->
   Segment.position_at_time s (Segment.t_end s) include_z
   = Ok (to_array (Segment.start s) include_z)).
Proof.
  intros W. split; [| split].
  - rewrite position_at_time_inside by lra. now rewrite position_at_start.
  - intros H. rewrite position_at_time_inside by lra.
    rewrite position_at_end by lra. reflexivity.
  - intros H. rewrite position_at_time_inside by lra.
    unfold position. now rewrite (proj2 (Reqb_true _ _) H).
Qed.

Lemma position_at_boundaries_witness :
  Segment.position_at_time seg_cruise 6 false = Ok [6; 0].
Proof.
  apply (proj1 (proj2 (position_at_boundaries seg_cruise false
                         ltac:(cbn; lra)))).
  cbn; lra.
Defined.

Lemma length_to_array (w : Waypoint) (include_z : bool) :
  List.length (to_array w include_z) = (if include_z then 3 else 2)%nat.
Proof. now destruct include_z. Qed.

Lemma velocity_cases (s : Segment.t) (include_z : bool) :
  trajectory.get_velocity_vector s include_z
  = Ok (if Reqb (Segment.duration s) 0
        then zeros (if include_z then 3 else 2)
        else map (fun u => u / Segment.duration s)
               (vsub (to_array (Segment.end_ s) include_z)
                     (to_array (Segment.start s) include_z))).
Proof.
  unfold trajectory.get_velocity_vector, vdivide.
  now destruct (Reqb (Segment.duration s) 0).
Qed.

(** X8: [get_velocity_vector] never raises and returns a vector of the
    requested dimension, zero for a segment of no duration; at every
    instant of the span the interpolated position is the start position
    plus the elapsed time times that velocity. *)
Theorem velocity_integrates_to_position (s : Segment.t) (include_z : bool) :
  exists v,
    trajectory.get_velocity_vector s include_z = Ok v /\
    List.length v = (if include_z then 3 else 2)%nat /\
    (Segment.t_start s = Segment.t_end s ->
     v = zeros (if include_z then 3 else 2)) /\
    forall t, Segment.t_start s <= t <= Segment.t_end s ->
      Segment.position_at_time s t include_z
      = Ok (vadd (to_array (Segment.start s) include_z)
              (vscale (t - Segment.t_start s) v)).
Proof.
  rewrite velocity_cases. eexists. split; [reflexivity |].
  unfold Segment.duration, position.
  destruct (Reqb (Segment.t_end s - Segment.t_start s) 0) eqn:E.
  - apply Reqb_true in E.
    split; [now destruct include_z |]. split; [reflexivity |].
    intros t Ht. rewrite position_at_time_inside by exact Ht.
    unfold position. rewrite (proj2 (Reqb_true _ _)) by lra.
    f_equal. unfold to_array. destruct include_z; cbn;
      repeat (apply f_equal2; [ring |]); reflexivity.
  - apply Reqb_false in E.
    split; [now destruct include_z |]. split; [intros H; lra |].
    intros t Ht. rewrite position_at_time_inside by exact Ht.
    unfold position. rewrite (proj2 (Reqb_false _ _)) by lra.
    f_equal. unfold interpolate, lerp, to_array.
    destruct include_z; cbn;
      repeat (apply f_equal2; [field; lra |]); reflexivity.
Qed.

Lemma velocity_integrates_to_position_witness :
  exists v,
    trajectory.get_velocity_vector seg_cruise false = Ok v /\
    Segment.position_at_time seg_cruise 3 false
    = Ok (vadd (to_array (Segment.start seg_cruise) false)
            (vscale (3 - Segment.t_start seg_cruise) v)).
Proof.
  destruct (velocity_integrates_to_position seg_cruise false)
    as (v & Hv & _ & _ & Hpos).
  exists v. split; [exact Hv |]. apply Hpos. cbn; lra.
Defined.

Lemma sum_squares_scaled (a : ndarray) (d : R) :
  d <> 0 -> sum_squares (map (fun u => u / d) a) * (d * d) = sum_squares a.
Proof.
  intros Hd. unfold sum_squares.
  induction a as [| u a IH]; cbn; [ring |].
  rewrite <- IH. field. exact Hd.
Qed.

Lemma norm_scaled (a : ndarray) (d : R) :
  d <> 0 -> norm (map (fun u => u / d) a) * Rabs d = norm a.
Proof.
  intros Hd. unfold norm.
  rewrite <- sqrt_Rsqr_abs, <- sqrt_mult_alt by apply sum_squares_nonneg.
  unfold Rsqr. now rewrite sum_squares_scaled.
Qed.

Lemma norm_zeros (n : nat) : norm (zeros n) = 0.
Proof.
  unfold norm, zeros.
  replace (sum_squares (repeat 0 n)) with 0; [apply sqrt_0 |].
  unfold sum_squares. induction n as [| n IH]; cbn; [reflexivity |].
  rewrite <- IH. ring.
Qed.

Lemma speed_cases (s : Segment.t) (include_z : bool) :
  exists sp,
    trajectory.get_speed s include_z = Ok sp /\ 0 <= sp /\
    (Segment.duration s = 0 -> sp = 0) /\
    sp * Rabs (Segment.duration s) = 
    (if Reqb (Segment.duration s) 0 then 0 else Segment.length s include_z).
Proof.
  unfold trajectory.get_speed. rewrite velocity_cases. cbn [bind].
  eexists. split; [reflexivity |]. split; [apply norm_nonneg |].
  destruct (Reqb (Segment.duration s) 0) eqn:E.
  - apply Reqb_true in E. rewrite norm_zeros. split; [reflexivity | ring].
  - apply Reqb_false in E. split; [intros H; contradiction |].
    rewrite norm_scaled by exact E. reflexivity.
Qed.

(** X9: [get_speed] never raises and is never negative; it is zero on a
    segment of no duration, and on a segment that lasts it is the length
    of the segment divided by its duration. *)
Theorem speed_is_length_over_duration (s : Segment.t) (include_z : bool) :
  exists sp,
    trajectory.get_speed s include_z = Ok sp /\ 0 <= sp /\
    (Segment.t_start s = Segment.t_end s -> sp = 0) /\
    (Segment.t_start s < Segment.t_end s ->
     sp = Segment.length s include_z / Segment.duration s).
Proof.
  destruct (speed_cases s include_z) as (sp & Hsp & Hpos & Hz & Hmul).
  exists sp. split; [exact Hsp |]. split; [exact Hpos |]. split.
  - intros H. apply Hz. unfold Segment.duration. lra.
  - intros H. assert (Hd : 0 < Segment.duration s)
      by (unfold Segment.duration; lra).
    rewrite (proj2 (Reqb_false _ _)) in Hmul by lra.
    rewrite Rabs_right in Hmul by lra.
    rewrite <- Hmul. field. lra.
Qed.

Lemma speed_is_length_over_duration_witness :
  exists sp,
    trajectory.get_speed seg_cruise false = Ok sp /\
    sp = Segment.length seg_cruise false / Segment.duration seg_cruise.
Proof.
  destruct (speed_is_length_over_duration seg_cruise false)
    as (sp & Hsp & _ & _ & H).
  exists sp. split; [exact Hsp |]. apply H. cbn; lra.
Defined.

(** X4: for a valid flight of [n] waypoints [build_segments] returns
    [n - 1] segments under the flight's id; segment [i] runs from
    waypoint [i] to waypoint [i + 1]; the first segment starts at the
    flight's [t_start], the last ends at its [t_end], and every segment
    ends at the time at which the next one starts. *)
Theorem build_segments_chain (f : Flight.t) :
  Flight.valid f ->
  exists segs,
    trajectory.build_segments f = Ok segs /\
    List.length segs = (List.length (Flight.waypoints f) - 1)%nat /\
    (forall i s, nth_error segs i = Some s ->
       Segment.start s = nth i (Flight.waypoints f) origin /\
       Segment.end_ s = nth (S i) (Flight.waypoints f) origin /\
       Segment.flight_id s = Flight.id f) /\
    (exists s, nth_error segs 0 = Some s /\
               Segment.t_start s = Flight.t_start f) /\
    (exists s, nth_error segs (List.length segs - 1) = Some s /\
               Segment.t_end s = Flight.t_end f) /\
    (forall i a b, nth_error segs i = Some a ->
                   nth_error segs (S i) = Some b ->
                   Segment.t_end a = Segment.t_start b).
Proof.
  intros Hv.
  destruct (build_segments_spec f Hv) as (times & segs & Ht & Hs & Hlen & Hnth).
  destruct (compute_segment_times_spec f Hv)
    as (times' & Ht' & Hlt & Hfirst & Hlast & _).
  assert (times' = times) as -> by congruence.
  destruct Hv as (Hn & _).
  set (n := List.length (Flight.waypoints f)) in *.
  assert (Hidx : forall i s, nth_error segs i = Some s ->
                             (i < n - 1)%nat /\ s = leg f times i).
  { intros i s Hi.
    assert (Hlt' : (i < n - 1)%nat).
    { rewrite <- Hlen. apply nth_error_Some. congruence. }
    split; [exact Hlt' |]. rewrite (Hnth i Hlt') in Hi. congruence. }
  exists segs. split; [exact Hs |]. split; [exact Hlen |].
  split; [| split; [| split]].
  - intros i s Hi. destruct (Hidx i s Hi) as [_ ->].
    repeat split; reflexivity.
  - exists (leg f times 0). split; [apply Hnth; lia | exact Hfirst].
  - exists (leg f times (n - 2)). rewrite Hlen.
    replace (n - 1 - 1)%nat with (n - 2)%nat by lia.
    split; [apply Hnth; lia |]. cbn.
    replace (S (n - 2)) with (n - 1)%nat by lia. exact Hlast.
  - intros i a b Ha Hb.
    destruct (Hidx i a Ha) as [_ ->]. destruct (Hidx (S i) b Hb) as [_ ->].
    reflexivity.
Qed.

Lemma build_segments_chain_witness :
  exists segs,
    trajectory.build_segments simple_flight = Ok segs /\
    List.length segs = 2%nat /\
    (exists s, nth_error segs 0 = Some s /\ Segment.t_start s = 0) /\
    (exists s, nth_error segs (List.length segs - 1) = Some s /\
               Segment.t_end s = 60).
Proof.
  destruct (build_segments_chain simple_flight simple_flight_valid)
    as (segs & Hs & Hl & _ & Hfirst & Hlast & _).
  exists segs. split; [exact Hs |]. split; [exact Hl |].
  split; [exact Hfirst | exact Hlast].
Defined.

(** ** Monotonicity of the detector *)

Lemma segment_conflict_buffer (s1 s2 : Segment.t) (b b' : R)
  (include_z : bool) (time_samples : Z) (c : Conflict.t) :
  b <= b' ->
  detector.segment_conflict s1 s2 b include_z time_samples = Ok (Some c) ->
  detector.segment_conflict s1 s2 b' include_z time_samples
  = Ok (Some (Conflict.mk (Conflict.primary_flight_id c)
                (Conflict.conflicting_flight_id c) (Conflict.location c)
                (Conflict.time c) (Conflict.min_distance c) b')).
Proof.
  intros Hb. unfold detector.segment_conflict.
  destruct (detector.compute_overlap_window _ _ _ _) as [[os oe] |];
    [| discriminate].
  destruct (detector.sample_overlap s1 s2 include_z os oe time_samples)
    as [st | e]; cbn [bind]; [| discriminate].
  destruct (min_distance st) as [d |]; cbn [ereal_ltb]; [| discriminate].
  destruct (Rltb d b) eqn:E; [| discriminate].
  apply Rltb_true in E.
  rewrite (proj2 (Rltb_true d b')) by lra.
  destruct (conflict_location st), (conflict_time st); try discriminate.
  intros H. injection H as <-. reflexivity.
Qed.

(** X11: a conflict reported under a safety buffer is reported under every
    larger buffer, with the same ids, location, time and minimum
    distance; a pair that is clear under a buffer is clear under every
    smaller one.  This holds for all segments and sample counts. *)
Theorem larger_buffer_keeps_conflict (s1 s2 : Segment.t) (b b' : R)
  (include_z : bool) (time_samples : Z) :
  b <= b' ->
  (forall c,
     detector.segment_conflict s1 s2 b include_z time_samples = Ok (Some c) ->
     detector.segment_conflict s1 s2 b' include_z time_samples
     = Ok (Some (Conflict.mk (Conflict.primary_flight_id c)
                   (Conflict.conflicting_flight_id c) (Conflict.location c)
                   (Conflict.time c) (Conflict.min_distance c) b'))) /\
  (detector.segment_conflict s1 s2 b' include_z time_samples = Ok None ->
   detector.segment_conflict s1 s2 b include_z time_samples = Ok None).
Proof.
  intros Hb. split.
  - intros c. now apply segment_conflict_buffer.
  - unfold detector.segment_conflict.
    destruct (detector.compute_overlap_window _ _ _ _) as [[os oe] |];
      [| reflexivity].
    destruct (detector.sample_overlap s1 s2 include_z os oe time_samples)
      as [st | e]; cbn [bind]; [| discriminate].
    destruct (min_distance st) as [d |]; cbn [ereal_ltb]; [| reflexivity].
    destruct (Rltb d b') eqn:E'.
    + destruct (conflict_location st), (conflict_time st); discriminate.
    + apply Rltb_false in E'. intros _.
      now rewrite (proj2 (Rltb_false d b)) by lra.
Qed.

Lemma larger_buffer_keeps_conflict_witness :
  detector.segment_conflict seg_cruise seg_hover 7 false 3
  = Ok (Some (Conflict.mk "PRIMARY" "SIM" [3; 0] 3 0 7)).
Proof.
  apply (proj1 (larger_buffer_keeps_conflict seg_cruise seg_hover 5 7 false 3
                  ltac:(lra))
           (Conflict.mk "PRIMARY" "SIM" [3; 0] 3 0 5)).
  change (detector.segment_conflict seg_cruise seg_hover 5 false 3)
    with (detector.segment_conflict seg_cruise seg_hover 5 false
            (Z.of_nat 3)).
  apply (cruise_hover_conflict 3 1 [3; 0; 3]);
    [lia | exact cruise_hover_distances_3 | exact first_min_3_0_3
     | unfold tick; cbn; lra
     | unfold Rabs; destruct (Rcase_abs _); lra | lra].
Defined.

Lemma flat_map_length_le {A B : Type} (F G : A -> list B) (l : list A) :
  (forall a, In a l -> (List.length (F a) <= List.length (G a))%nat) ->
  (List.length (flat_map F l) <= List.length (flat_map G l))%nat.
Proof.
  induction l as [| a l IH]; intros H; cbn; [lia |].
  rewrite !length_app.
  specialize (H a (or_introl eq_refl)) as Ha.
  specialize (IH (fun x Hx => H x (or_intror Hx))). lia.
Qed.

Lemma mission_major_length_le (b b' : R) (z z' : bool) (k : Z)
  (primary : Flight.t) (others : list Flight.t) :
  (forall p s, In p (segments_of primary) ->
               (exists o, In o others /\ In s (segments_of o)) ->
               (List.length (conflicts_of b z k p s)
                <= List.length (conflicts_of b' z' k p s))%nat) ->
  (List.length (mission_major b z k primary others)
   <= List.length (mission_major b' z' k primary others))%nat.
Proof.
  intros H. unfold mission_major.
  apply flat_map_length_le. intros o Ho.
  apply flat_map_length_le. intros p Hp.
  apply flat_map_length_le. intros s Hs.
  apply H; [exact Hp | eauto].
Qed.

Lemma conflicts_of_buffer (b b' : R) (z : bool) (k : Z) (p s : Segment.t) :
  b <= b' ->
  (List.length (conflicts_of b z k p s)
   <= List.length (conflicts_of b' z k p s))%nat.
Proof.
  intros Hb. unfold conflicts_of.
  destruct (detector.segment_conflict p s b z k) as [[c |] | e] eqn:E;
    cbn; try lia.
  now rewrite (segment_conflict_buffer p s b b' z k c Hb E).
Qed.

(** X12: enlarging the safety buffer never loses a conflict of a mission
    check: when the check returns under a buffer it returns under every
    larger buffer, with at least as many conflicts, and when it is clear
    under the larger buffer it is clear under the smaller one. *)
Theorem larger_buffer_more_conflicts (primary : Flight.t)
  (others : list Flight.t) (b b' : R) (include_z : bool) (clear : bool)
  (conflicts : list Conflict.t) :
  b <= b' ->
  detector.check_mission primary others b include_z = Ok (clear, conflicts) ->
  exists clear' conflicts',
    detector.check_mission primary others b' include_z
    = Ok (clear', conflicts') /\
    (List.length conflicts <= List.length conflicts')%nat /\
    (clear' = true -> clear = true).
Proof.
  intros Hb H.
  destruct (check_mission_returns_together primary others b b' include_z
              include_z clear conflicts H) as (clear' & conflicts' & H').
  exists clear', conflicts'. split; [exact H' |].
  apply check_mission_returned in H, H'.
  destruct H as [Hc ->], H' as [Hc' ->]. subst conflicts conflicts'.
  assert (Hle : (List.length (mission_major b include_z 20 primary others)
                 <= List.length (mission_major b' include_z 20 primary others))%nat).
  { apply mission_major_length_le. intros p s _ _.
    now apply conflicts_of_buffer. }
  split; [exact Hle |].
  rewrite !Nat.eqb_eq. lia.
Qed.

Lemma larger_buffer_more_conflicts_witness :
  exists clear' conflicts',
    detector.check_mission hover_primary [hover_late; hover_early] 10 false
    = Ok (clear', conflicts') /\
    (2 <= List.length conflicts')%nat /\
    (clear' = true -> false = true).
Proof.
  apply (larger_buffer_more_conflicts hover_primary [hover_late; hover_early]
           5 10 false false
           [Conflict.mk "PRIMARY" "LATE" [5; 5] 6 0 5;
            Conflict.mk "PRIMARY" "EARLY" [5; 5] 1 0 5]);
    [lra | apply (hover_check_mission 5 false); lra].
Defined.

(** ** Two and three dimensions *)

Lemma sqrt_sum_le (a b c : R) :
  sqrt (a * a + (b * b + 0)) <= sqrt (a * a + (b * b + (c * c + 0))).
Proof.
  apply sqrt_le_1_alt.
  pose proof (Rle_0_sqr c) as H. unfold Rsqr in H. lra.
Qed.

Lemma distance_2d_le_3d (s1 s2 : Segment.t) (t : R) :
  distance_at s1 s2 false t <= distance_at s1 s2 true t.
Proof.
  unfold distance_at, position, interpolate, to_array.
  destruct (Reqb (Segment.t_start s1) (Segment.t_end s1)),
    (Reqb (Segment.t_start s2) (Segment.t_end s2));
    unfold norm, sum_squares; cbn [vsub fold_right]; apply sqrt_sum_le.
Qed.

Lemma minimum_pointwise {A : Type} (F G : A -> R) (l : list A) :
  (forall a, F a <= G a) ->
  ereal_le (minimum (map F l)) (minimum (map G l)).
Proof.
  intros HFG. unfold ereal_le.
  destruct (minimum_cases (map G l)) as [[_ ->] | (mg & -> & Hin & _)];
    [reflexivity |].
  apply in_map_iff in Hin. destruct Hin as (a & <- & Ha).
  destruct (minimum_cases (map F l)) as [[E _] | (mf & -> & _ & Hle)].
  - destruct l; [destruct Ha | discriminate].
  - cbn. apply Rltb_false.
    specialize (Hle (F a) (in_map F l a Ha)). specialize (HFG a). lra.
Qed.

Lemma minimum_2d_le_3d (s1 s2 : Segment.t) (K : nat) :
  ereal_le (minimum (sampled_distances s1 s2 false K))
    (minimum (sampled_distances s1 s2 true K)).
Proof.
  unfold sampled_distances. apply minimum_pointwise.
  apply distance_2d_le_3d.
Qed.

(** X13: altitude can only separate: over intersecting windows, a conflict
    of two segments found in 3D mode is also found in 2D mode, with a
    minimum distance no larger. *)
Theorem conflict_in_3d_is_conflict_in_2d (s1 s2 : Segment.t) (b : R)
  (K : nat) (c3 : Conflict.t) :
  overlap_start s1 s2 <= overlap_end s1 s2 ->
  detector.segment_conflict s1 s2 b true (Z.of_nat K) = Ok (Some c3) ->
  exists c2,
    detector.segment_conflict s1 s2 b false (Z.of_nat K) = Ok (Some c2) /\
    Conflict.min_distance c2 <= Conflict.min_distance c3.
Proof.
  intros H H3.
  destruct (segment_conflict_minimum s1 s2 b true K H)
    as (r3 & Hr3 & Hiff3 & Hs3).
  destruct (segment_conflict_minimum s1 s2 b false K H)
    as (r2 & Hr2 & Hiff2 & Hs2).
  assert (r3 = Some c3) as -> by congruence.
  destruct (Hs3 c3 eq_refl) as (t3 & _ & Hm3 & ->).
  assert (Hb3 : ereal_ltb (minimum (sampled_distances s1 s2 true K)) (Fin b)
                = true) by (apply Hiff3; eauto).
  pose proof (minimum_2d_le_3d s1 s2 K) as Hle.
  rewrite <- Hm3 in Hb3, Hle. cbn in Hb3. apply Rltb_true in Hb3.
  unfold ereal_le in Hle.
  destruct (minimum (sampled_distances s1 s2 false K)) as [m2 |] eqn:E2;
    [| discriminate].
  cbn in Hle. apply Rltb_false in Hle.
  assert (Hb2 : ereal_ltb (Fin m2) (Fin b) = true)
    by (cbn; apply Rltb_true; lra).
  apply Hiff2 in Hb2. destruct Hb2 as [c2 ->].
  exists c2. split; [exact Hr2 |].
  destruct (Hs2 c2 eq_refl) as (t2 & _ & Hm2 & ->).
  cbn. injection Hm2 as ->. exact Hle.
Qed.

Lemma conflict_in_3d_is_conflict_in_2d_witness :
  exists c2,
    detector.segment_conflict seg_hover seg_hover 5 false 3 = Ok (Some c2) /\
    Conflict.min_distance c2 <= 0.
Proof.
  assert (Hw : overlap_start seg_hover seg_hover
               <= overlap_end seg_hover seg_hover) by minmax.
  apply (conflict_in_3d_is_conflict_in_2d seg_hover seg_hover 5 3
           (Conflict.mk "SIM" "SIM" [3; 0; 0] (Rmax 0 0) 0 5) Hw).
  apply (hover_pair_conflict (mkWaypoint 3 0 0) 0 6 0 6 "SIM" "SIM" 5 true 3);
    [exact Hw | lra | lia].
Defined.

Lemma nth_map_distance (F : R -> R) (P : list R) (i : nat) :
  (i < List.length P)%nat -> nth i (map F P) 0 = F (nth i P 0).
Proof.
  intros Hi. rewrite (nth_indep _ 0 (F 0)) by (now rewrite length_map).
  apply map_nth.
Qed.

(** A pair of segments in conflict in 3D mode is in conflict in 2D mode,
    whatever the segments. *)
Lemma conflicts_of_dimension (b : R) (k : Z) (p s : Segment.t) :
  (List.length (conflicts_of b true k p s)
   <= List.length (conflicts_of b false k p s))%nat.
Proof.
  unfold conflicts_of.
  destruct (detector.segment_conflict p s b true k) as [[c3 |] | e] eqn:E3;
    cbn; try lia.
  destruct (segment_conflict_returned _ _ _ _ _ _ E3)
    as [[_ H] | (P & E & EP & Hin & [[_ H] | (i3 & Hmin3 & H3)])];
    try discriminate.
  destruct (segment_conflict_computed p s b false k P E EP Hin)
    as (r2 & -> & [[HP _] | (i2 & Hmin2 & ->)]).
  - subst P. destruct Hmin3 as (Hi & _). cbn in Hi. lia.
  - destruct (Rltb (distance_at p s true (nth i3 P 0)) b) eqn:Hb3;
      [| discriminate].
    apply Rltb_true in Hb3.
    destruct Hmin2 as (Hi2 & Hall & _), Hmin3 as (Hi3 & _).
    rewrite length_map in Hi2, Hi3, Hall. specialize (Hall i3 Hi3).
    rewrite !nth_map_distance in Hall by assumption.
    pose proof (distance_2d_le_3d p s (nth i3 P 0)) as Hd.
    rewrite (proj2 (Rltb_true _ b)) by lra. cbn. lia.
Qed.

(** X14: a mission check in 3D mode reports no more conflicts than the
    check in 2D mode: when the 3D check returns, so does the 2D check,
    with at least as many conflicts, and when the mission is clear in 2D
    mode it is clear in 3D mode. *)
Theorem check_3d_no_stricter_than_2d (primary : Flight.t)
  (others : list Flight.t) (b : R) (clear3 : bool)
  (conflicts3 : list Conflict.t) :
  detector.check_mission primary others b true = Ok (clear3, conflicts3) ->
  exists clear2 conflicts2,
    detector.check_mission primary others b false = Ok (clear2, conflicts2) /\
    (List.length conflicts3 <= List.length conflicts2)%nat /\
    (clear2 = true -> clear3 = true).
Proof.
  intros H.
  destruct (check_mission_returns_together primary others b b true false
              clear3 conflicts3 H) as (clear2 & conflicts2 & H').
  exists clear2, conflicts2. split; [exact H' |].
  apply check_mission_returned in H, H'.
  destruct H as [Hc ->], H' as [Hc' ->]. subst conflicts3 conflicts2.
  assert (Hle : (List.length (mission_major b true 20 primary others)
                 <= List.length (mission_major b false 20 primary others))%nat).
  { apply mission_major_length_le. intros p s _ _.
    apply conflicts_of_dimension. }
  split; [exact Hle |].
  rewrite !Nat.eqb_eq. lia.
Qed.

Lemma check_3d_no_stricter_than_2d_witness :
  exists clear2 conflicts2,
    detector.check_mission hover_primary [hover_late; hover_early] 10 false
    = Ok (clear2, conflicts2) /\
    (2 <= List.length conflicts2)%nat /\
    (clear2 = true -> false = true).
Proof.
  apply (check_3d_no_stricter_than_2d hover_primary [hover_late; hover_early]
           10 false
           [Conflict.mk "PRIMARY" "LATE" [5; 5; 0] 6 0 10;
            Conflict.mk "PRIMARY" "EARLY" [5; 5; 0] 1 0 10]).
  apply (hover_check_mission 10 true). lra.
Defined.

(** ** Swapping the two segments *)

Lemma sum_squares_vsub_comm (a b : ndarray) :
  sum_squares (vsub a b) = sum_squares (vsub b a).
Proof.
  unfold sum_squares. revert b.
  induction a as [| u a IH]; intros [| v b]; cbn; try reflexivity.
  rewrite IH. ring.
Qed.

Lemma distance_at_comm (s1 s2 : Segment.t) (include_z : bool) (t : R) :
  distance_at s1 s2 include_z t = distance_at s2 s1 include_z t.
Proof.
  unfold distance_at, norm. now rewrite sum_squares_vsub_comm.
Qed.

Lemma overlap_comm (s1 s2 : Segment.t) :
  overlap_start s2 s1 = overlap_start s1 s2 /\
  overlap_end s2 s1 = overlap_end s1 s2.
Proof.
  unfold overlap_start, overlap_end. split; [apply Rmax_comm | apply Rmin_comm].
Qed.

Lemma sampled_distances_comm (s1 s2 : Segment.t) (include_z : bool) (K : nat) :
  sampled_distances s2 s1 include_z K = sampled_distances s1 s2 include_z K.
Proof.
  unfold sampled_distances. destruct (overlap_comm s1 s2) as [-> ->].
  apply map_ext. intros t. apply distance_at_comm.
Qed.

Lemma first_min_unique (ds : list R) (i j : nat) :
  first_min ds i -> first_min ds j -> i = j.
Proof.
  intros (Hi & Halli & Hbi) (Hj & Hallj & Hbj).
  destruct (Nat.lt_trichotomy i j) as [H | [H | H]]; [| exact H |].
  - specialize (Hbj i H). specialize (Halli j Hj). lra.
  - specialize (Hbi j H). specialize (Hallj i Hi). lra.
Qed.

(** X15: detection does not depend on which segment is called primary:
    over intersecting windows, if [segment_conflict] reports a conflict
    for a pair it reports one for the swapped pair, at the same time and
    with the same minimum distance and buffer, the two ids exchanged and
    the location taken on the other segment. *)
Theorem segment_conflict_swapped (s1 s2 : Segment.t) (b : R)
  (include_z : bool) (K : nat) (c : Conflict.t) :
  overlap_start s1 s2 <= overlap_end s1 s2 ->
  detector.segment_conflict s1 s2 b include_z (Z.of_nat K) = Ok (Some c) ->
  detector.segment_conflict s2 s1 b include_z (Z.of_nat K)
  = Ok (Some (Conflict.mk (Conflict.conflicting_flight_id c)
                (Conflict.primary_flight_id c)
                (position s2 (Conflict.time c) include_z)
                (Conflict.time c) (Conflict.min_distance c) b)).
Proof.
  intros H Hc.
  destruct K as [| K].
  { rewrite segment_conflict_no_samples in Hc by exact H. discriminate. }
  assert (H' : overlap_start s2 s1 <= overlap_end s2 s1).
  { destruct (overlap_comm s1 s2) as [-> ->]. exact H. }
  destruct (segment_conflict_first_min s1 s2 b include_z (S K) H ltac:(lia))
    as (i & Hmin & Hr).
  destruct (segment_conflict_first_min s2 s1 b include_z (S K) H' ltac:(lia))
    as (j & Hmin' & Hr').
  rewrite sampled_distances_comm in Hmin'.
  assert (j = i) as -> by (eapply first_min_unique; eassumption).
  cbv zeta in Hr, Hr'. rewrite Hr'.
  destruct (overlap_comm s1 s2) as [-> ->].
  rewrite <- distance_at_comm.
  rewrite Hr in Hc.
  destruct (Rltb _ b); [| discriminate].
  injection Hc as <-. unfold conflict_at; cbn.
  now rewrite <- distance_at_comm.
Qed.

Lemma segment_conflict_swapped_witness :
  detector.segment_conflict seg_hover seg_cruise 5 false 3
  = Ok (Some (Conflict.mk "SIM" "PRIMARY" (position seg_hover 3 false) 3 0 5)).
Proof.
  apply (segment_conflict_swapped seg_cruise seg_hover 5 false 3
           (Conflict.mk "PRIMARY" "SIM" [3; 0] 3 0 5)
           seg_cruise_hover_overlap).
  apply (cruise_hover_conflict 3 1 [3; 0; 3]);
    [lia | exact cruise_hover_distances_3 | exact first_min_3_0_3
     | unfold tick; cbn; lra
     | unfold Rabs; destruct (Rcase_abs _); lra | lra].
Defined.

(** ** What a mission check reports *)

Lemma conflicts_of_sound (b : R) (include_z : bool) (K : nat)
  (p s : Segment.t) (c : Conflict.t) :
  Segment.wf p -> Segment.wf s ->
  In c (conflicts_of b include_z (Z.of_nat K) p s) ->
  Conflict.primary_flight_id c = Segment.flight_id p /\
  Conflict.conflicting_flight_id c = Segment.flight_id s /\
  in_both p s (Conflict.time c) /\
  0 <= Conflict.min_distance c < b /\
  Conflict.safety_buffer c = b /\
  Conflict.location c = position p (Conflict.time c) include_z.
Proof.
  intros Wp Ws Hin. unfold conflicts_of in Hin.
  destruct (detector.segment_conflict p s b include_z (Z.of_nat K))
    as [[c' |] | e] eqn:E; [| destruct Hin | destruct Hin].
  destruct Hin as [-> | []].
  destruct (Rle_dec (overlap_start p s) (overlap_end p s)) as [H | H].
  2:{ rewrite segment_conflict_disjoint in E by (assumption || lra).
      discriminate. }
  destruct (segment_conflict_minimum p s b include_z K H)
    as (r & Hr & Hiff & Hs).
  assert (r = Some c) as -> by congruence.
  destruct (Hs c eq_refl) as (t & Ht & Hm & ->).
  assert (Hb : ereal_ltb (minimum (sampled_distances p s include_z K)) (Fin b)
               = true) by (apply Hiff; eauto).
  rewrite <- Hm in Hb. cbn in Hb. apply Rltb_true in Hb.
  cbn. split; [reflexivity |]. split; [reflexivity |].
  split; [exact (ticks_in_both p s K t H Ht) |].
  split; [split; [apply norm_nonneg | exact Hb] |].
  split; reflexivity.
Qed.

(** X16: every conflict that [check_mission] returns is the conflict that
    [segment_conflict] finds for a segment of the primary flight and a
    segment of one of the other flights: it names the primary flight and
    that other flight, lies at an instant within the spans of both
    segments, has a minimum distance from zero up to but excluding the
    safety buffer it records, which is the buffer given, and a location
    with as many coordinates as the mode asks for.  With no other flight,
    a check that returns is clear. *)
Theorem check_mission_reports_real_conflicts (primary : Flight.t)
  (others : list Flight.t) (b : R) (include_z : bool) (clear : bool)
  (conflicts : list Conflict.t) :
  detector.check_mission primary others b include_z = Ok (clear, conflicts) ->
  (others = [] -> clear = true) /\
  forall c, In c conflicts ->
    exists o p s,
      In o others /\ In p (segments_of primary) /\ In s (segments_of o) /\
      detector.segment_conflict p s b include_z 20 = Ok (Some c) /\
      Conflict.primary_flight_id c = Flight.id primary /\
      Conflict.conflicting_flight_id c = Flight.id o /\
      in_both p s (Conflict.time c) /\
      0 <= Conflict.min_distance c < b /\
      Conflict.safety_buffer c = b /\
      List.length (Conflict.location c) = (if include_z then 3 else 2)%nat.
Proof.
  intros H. apply check_mission_returned in H. destruct H as [Hc ->].
  subst conflicts. split.
  { intros ->. reflexivity. }
  intros c Hc. unfold mission_major in Hc.
  apply in_flat_map in Hc. destruct Hc as (o & Hin_o & Hc).
  apply in_flat_map in Hc. destruct Hc as (p & Hin_p & Hc).
  apply in_flat_map in Hc. destruct Hc as (s & Hin_s & Hc).
  destruct (conflicts_of_real b include_z 20 p s c Hc)
    as (Hr & Hc1 & Hc2 & Hc3 & Hc4 & Hc5 & Hc6).
  exists o, p, s.
  split; [exact Hin_o |]. split; [exact Hin_p |]. split; [exact Hin_s |].
  split; [exact Hr |].
  split; [rewrite Hc1; now apply segments_of_id |].
  split; [rewrite Hc2; now apply segments_of_id |].
  split; [exact Hc3 |]. split; [exact Hc4 |]. split; [exact Hc5 |].
  rewrite Hc6. apply length_position.
Qed.

Lemma check_mission_reports_real_conflicts_witness :
  detector.check_mission hover_primary [hover_late; hover_early] 10 false
  = Ok (false, [Conflict.mk "PRIMARY" "LATE" [5; 5] 6 0 10;
                Conflict.mk "PRIMARY" "EARLY" [5; 5] 1 0 10]) /\
  forall c,
    In c [Conflict.mk "PRIMARY" "LATE" [5; 5] 6 0 10;
          Conflict.mk "PRIMARY" "EARLY" [5; 5] 1 0 10] ->
    exists o p s,
      In o [hover_late; hover_early] /\ In p (segments_of hover_primary) /\
      In s (segments_of o) /\
      detector.segment_conflict p s 10 false 20 = Ok (Some c) /\
      Conflict.primary_flight_id c = Flight.id hover_primary /\
      Conflict.conflicting_flight_id c = Flight.id o /\
      in_both p s (Conflict.time c) /\
      0 <= Conflict.min_distance c < 10 /\
      Conflict.safety_buffer c = 10 /\
      List.length (Conflict.location c) = 2%nat.
Proof.
  split; [exact (hover_check_mission 10 false ltac:(lra)) |].
  apply (proj2 (check_mission_reports_real_conflicts hover_primary
                  [hover_late; hover_early] 10 false false _
                  (hover_check_mission 10 false ltac:(lra)))).
Defined.

(** ** The two mission checkers *)

Lemma for_each_ext {S A : Type} (body1 body2 : S -> A -> result S)
  (l : list A) :
  (forall s a, body1 s a = body2 s a) ->
  forall s, for_each l body1 s = for_each l body2 s.
Proof.
  intros H. induction l as [| a l IH]; intros s; cbn; [reflexivity |].
  rewrite H. destruct (body2 s a); cbn; [apply IH | reflexivity].
Qed.

(** X17: the enhanced module's [check_mission] and its
    [check_mission_high_accuracy] with 20 samples return what the
    standard [check_mission] returns, on all arguments. *)
Theorem mission_checkers_agree (primary : Flight.t)
  (others : list Flight.t) (b : R) (include_z : bool) :
  detector_enhanced.check_mission primary others b include_z
  = detector.check_mission primary others b include_z /\
  detector_enhanced.check_mission_high_accuracy primary others b include_z 20
  = detector.check_mission primary others b include_z.
Proof.
  assert (E : detector_enhanced.check_mission_high_accuracy primary others b
                include_z 20
              = detector.check_mission primary others b include_z).
  { unfold detector_enhanced.check_mission_high_accuracy,
      detector.check_mission.
    destruct (trajectory.build_segments primary) as [psegs | e];
      cbn [bind]; [| reflexivity].
    f_equal. apply for_each_ext. intros acc sim.
    destruct (trajectory.build_segments sim) as [ssegs | e];
      cbn [bind]; [| reflexivity].
    apply for_each_ext. intros acc' p.
    apply for_each_ext. intros acc'' s.
    now rewrite high_accuracy_is_standard. }
  split; [exact E | exact E].
Qed.

(** ** Severity *)

Lemma severity_cases (d b : R) :
  0 < b ->
  viz.get_conflict_severity d b
  = Ok (if Rltb (0.8 * b) d then "low"%string
        else if Rltb (0.5 * b) d then "medium"%string
        else if Rltb (0.2 * b) d then "high"%string
        else "critical"%string).
Proof.
  intros Hb. unfold viz.get_conflict_severity, divide.
  rewrite (proj2 (Reqb_false b 0)) by lra. cbn [bind].
  assert (Hq : forall k, (b - d) / b * 100 < k <-> (1 - k / 100) * b < d).
  { intros k. split; intros H.
    - assert (H1 : (b - d) / b * b < k / 100 * b) by nra.
      replace ((b - d) / b * b) with (b - d) in H1 by (field; lra). lra.
    - apply Rmult_lt_reg_r with (b / 100); [lra |].
      replace ((b - d) / b * 100 * (b / 100)) with (b - d) by (field; lra).
      lra. }
  assert (Hk : forall k c, (1 - k / 100) = c ->
                 Rltb ((b - d) / b * 100) k = Rltb (c * b) d).
  { intros k c <-. destruct (Rltb (_ * b) d) eqn:E.
    - apply Rltb_true. apply Hq. now apply Rltb_true.
    - apply Rltb_false. apply Rltb_false in E.
      destruct (Rle_dec k ((b - d) / b * 100)); [assumption |].
      exfalso. assert (H : (b - d) / b * 100 < k) by lra.
      apply Hq in H. lra. }
  rewrite (Hk 20 0.8), (Hk 50 0.5), (Hk 80 0.2) by lra.
  repeat destruct (Rltb _ d); reflexivity.
Qed.

(** X18: for a positive safety buffer [get_conflict_severity] returns the
    level of the violated share of the buffer in percent: low below 20,
    medium from 20 to below 50, high from 50 to below 80, critical from
    80 on.  The level never gets milder as the minimum distance shrinks;
    it is critical at distance zero and low once the distance reaches the
    buffer. *)
Theorem severity_levels (d d' b : R) :
  0 < b ->
  exists sev sev',
    viz.get_conflict_severity d b = Ok sev /\
    viz.get_conflict_severity d' b = Ok sev' /\
    (d <= d' -> (severity_rank sev' <= severity_rank sev)%nat) /\
    (d <= 0 -> sev = "critical"%string) /\
    (b <= d -> sev = "low"%string) /\
    (sev = "low"%string <-> violation_percent d b < 20) /\
    (sev = "medium"%string <-> 20 <= violation_percent d b < 50) /\
    (sev = "high"%string <-> 50 <= violation_percent d b < 80) /\
    (sev = "critical"%string <-> 80 <= violation_percent d b).
Proof.
  intros Hb.
  assert (E : forall u,
             viz.get_conflict_severity u b
             = Ok (if Rltb (violation_percent u b) 20 then "low"%string
                   else if Rltb (violation_percent u b) 50 then "medium"%string
                   else if Rltb (violation_percent u b) 80 then "high"%string
                   else "critical"%string)).
  { intros u. unfold viz.get_conflict_severity, divide.
    rewrite (proj2 (Reqb_false b 0)) by lra. cbn [bind].
    fold (violation_percent u b).
    now repeat destruct (Rltb (violation_percent u b) _). }
  rewrite !E. do 2 eexists. split; [reflexivity |]. split; [reflexivity |].
  assert (Hshare : forall u, violation_percent u b = 100 - 100 * u / b).
  { intros u. unfold violation_percent. field. lra. }
  assert (Hmono : d <= d' -> violation_percent d' b <= violation_percent d b).
  { intros Hd. rewrite !Hshare.
    assert (100 * d / b <= 100 * d' / b); [| lra].
    unfold Rdiv. apply Rmult_le_compat_r; [| lra].
    left. now apply Rinv_0_lt_compat. }
  assert (Hzero : d <= 0 -> 100 <= violation_percent d b).
  { intros Hd. rewrite Hshare.
    assert (100 * d / b <= 0); [| lra].
    unfold Rdiv. rewrite <- (Rmult_0_l (/ b)).
    apply Rmult_le_compat_r; [| lra].
    left. now apply Rinv_0_lt_compat. }
  assert (Hfull : b <= d -> violation_percent d b <= 0).
  { intros Hd. rewrite Hshare.
    assert (100 <= 100 * d / b); [| lra].
    replace 100 with (100 * b / b) at 1 by (field; lra).
    unfold Rdiv. apply Rmult_le_compat_r; [| lra].
    left. now apply Rinv_0_lt_compat. }
  clear E Hshare.
  set (q := violation_percent d b) in *.
  set (q' := violation_percent d' b) in *. clearbody q q'.
  destruct (Rltb q 20) eqn:E1, (Rltb q 50) eqn:E2, (Rltb q 80) eqn:E3,
    (Rltb q' 20) eqn:F1, (Rltb q' 50) eqn:F2, (Rltb q' 80) eqn:F3;
    repeat match goal with
           | H : Rltb _ _ = true |- _ => apply Rltb_true in H
           | H : Rltb _ _ = false |- _ => apply Rltb_false in H
           end;
    (split; [intros Hd; specialize (Hmono Hd);
             first [vm_compute; lia | exfalso; lra] |]);
    (split; [intros Hd; specialize (Hzero Hd);
             first [reflexivity | exfalso; lra] |]);
    (split; [intros Hd; specialize (Hfull Hd);
             first [reflexivity | exfalso; lra] |]);
    repeat split; intros;
    first [reflexivity | discriminate | lra | exfalso; lra].
Qed.

Lemma severity_levels_witness :
  exists sev sev',
    viz.get_conflict_severity 1 10 = Ok sev /\
    viz.get_conflict_severity 9 10 = Ok sev' /\
    (severity_rank sev' <= severity_rank sev)%nat.
Proof.
  destruct (severity_levels 1 9 10 ltac:(lra))
    as (sev & sev' & Hs & Hs' & Hm & _).
  exists sev, sev'. split; [exact Hs |]. split; [exact Hs' |].
  apply Hm. lra.
Defined.

(** X19: every conflict that [segment_conflict] returns over intersecting
    windows can be classified: its minimum distance is at least zero and
    below its buffer, so the buffer is positive and
    [get_conflict_severity] returns one of the four levels without
    dividing by zero. *)
Theorem detector_conflicts_have_severity (s1 s2 : Segment.t) (b : R)
  (include_z : bool) (K : nat) (c : Conflict.t) :
  overlap_start s1 s2 <= overlap_end s1 s2 ->
  detector.segment_conflict s1 s2 b include_z (Z.of_nat K) = Ok (Some c) ->
  0 <= Conflict.min_distance c < Conflict.safety_buffer c /\
  exists sev,
    viz.get_conflict_severity (Conflict.min_distance c)
      (Conflict.safety_buffer c) = Ok sev /\
    In sev ["low"%string; "medium"%string; "high"%string; "critical"%string].
Proof.
  intros H Hc.
  destruct (overlap_wf s1 s2 H) as [W1 W2].
  assert (Hin : In c (conflicts_of b include_z (Z.of_nat K) s1 s2)).
  { unfold conflicts_of. rewrite Hc. now left. }
  destruct (conflicts_of_sound b include_z K s1 s2 c W1 W2 Hin)
    as (_ & _ & _ & Hd & Hb & _).
  rewrite Hb. split; [exact Hd |].
  rewrite severity_cases by lra. eexists. split; [reflexivity |].
  repeat destruct (Rltb _ _); cbn; auto.
Qed.

Lemma detector_conflicts_have_severity_witness :
  exists sev,
    viz.get_conflict_severity 0 5 = Ok sev /\
    In sev ["low"%string; "medium"%string; "high"%string; "critical"%string].
Proof.
  apply (detector_conflicts_have_severity seg_cruise seg_hover 5 false 3
           (Conflict.mk "PRIMARY"%string "SIM"%string [3; 0] 3 0 5)
           seg_cruise_hover_overlap).
  apply (cruise_hover_conflict 3 1 [3; 0; 3]);
    [lia | exact cruise_hover_distances_3 | exact first_min_3_0_3
     | unfold tick; cbn; lra
     | unfold Rabs; destruct (Rcase_abs _); lra | lra].
Defined.

(** ** Static geometry *)

Lemma dot_self (v : ndarray) : dot v v = sum_squares v.
Proof.
  unfold sum_squares. induction v as [| u v IH]; cbn; [| rewrite IH];
    reflexivity.
Qed.

Lemma dot_zero_r (x v : ndarray) :
  Forall (fun u => u = 0) v -> dot x v = 0.
Proof.
  intros H. revert x. induction H as [| u v Hu _ IH]; intros [| w x]; cbn;
    try reflexivity.
  rewrite IH, Hu. ring.
Qed.

Lemma sum_squares_segment_point (p a b : ndarray) (t : R) :
  List.length p = List.length a -> List.length a = List.length b ->
  sum_squares (vsub p (segment_point a b t))
  = sum_squares (vsub p a) - 2 * t * dot (vsub p a) (vsub b a)
    + t * t * dot (vsub b a) (vsub b a).
Proof.
  unfold segment_point, sum_squares, vscale. revert a b.
  induction p as [| u p IH]; intros [| a0 a] [| b0 b] Hpa Hab;
    try discriminate; cbn; [ring |].
  rewrite IH by (cbn in *; lia). ring.
Qed.

Lemma sum_squares_segment_end (p a b : ndarray) :
  List.length p = List.length a -> List.length a = List.length b ->
  sum_squares (vsub p (segment_point a b 1)) = sum_squares (vsub p b).
Proof.
  unfold segment_point, sum_squares, vscale. revert a b.
  induction p as [| u p IH]; intros [| a0 a] [| b0 b] Hpa Hab;
    try discriminate; cbn; [reflexivity |].
  rewrite IH by (cbn in *; lia). ring.
Qed.

Lemma clip_bounds (q : R) : 0 <= clip q 0 1 <= 1.
Proof.
  unfold clip, Rmin, Rmax. repeat destruct (Rle_dec _ _); lra.
Qed.

Lemma clip_optimal (A X L q u : R) :
  0 < L -> q * L = X -> 0 <= u <= 1 ->
  A - 2 * clip q 0 1 * X + clip q 0 1 * clip q 0 1 * L
  <= A - 2 * u * X + u * u * L.
Proof.
  intros HL Hq Hu. subst X.
  unfold clip, Rmin, Rmax. repeat destruct (Rle_dec _ _); try lra.
  - (* q <= 0: clipped to 0 *)
    assert (0 <= u * u * L) by (apply Rmult_le_pos; nra).
    assert (0 <= u * (- q) * L) by (apply Rmult_le_pos; nra). nra.
  - (* 0 < q <= 1: not clipped *)
    assert (0 <= (u - q) * (u - q) * L)
      by (apply Rmult_le_pos; [apply Rle_0_sqr | lra]).
    nra.
  - (* 1 < q: clipped to 1 *)
    assert (0 <= (1 - u) * (1 - u) * L)
      by (apply Rmult_le_pos; [apply Rle_0_sqr | lra]).
    assert (0 <= (1 - u) * (q - 1) * L) by (apply Rmult_le_pos; nra).
    nra.
Qed.

(** The value of [point_to_segment_distance] on arrays of one shape. *)
Lemma point_to_segment_cases (p a b : ndarray) :
  List.length p = List.length a -> List.length a = List.length b ->
  exists t,
    0 <= t <= 1 /\
    detector.point_to_segment_distance p a b
    = Ok (norm (vsub p (segment_point a b t))) /\
    forall u, 0 <= u <= 1 ->
      norm (vsub p (segment_point a b t))
      <= norm (vsub p (segment_point a b u)).
Proof.
  intros Hpa Hab. unfold detector.point_to_segment_distance.
  set (v := vsub b a). set (L := dot v v).
  set (X := dot (vsub p a) v).
  assert (HL0 : 0 <= L) by (unfold L; rewrite dot_self; apply sum_squares_nonneg).
  destruct (Reqb L 0) eqn:E.
  - apply Reqb_true in E. exists 0. split; [lra |].
    assert (Hv : Forall (fun u => u = 0) v).
    { apply sum_squares_zero. now rewrite <- dot_self. }
    assert (HX : X = 0) by (unfold X; now apply dot_zero_r).
    assert (Hss : forall u, sum_squares (vsub p (segment_point a b u))
                            = sum_squares (vsub p a)).
    { intros u. rewrite sum_squares_segment_point by assumption.
      fold v L X. rewrite E, HX. ring. }
    split.
    + unfold norm. now rewrite Hss.
    + intros u _. unfold norm. rewrite !Hss. lra.
  - apply Reqb_false in E. unfold divide.
    rewrite (proj2 (Reqb_false L 0) E). cbn [bind].
    exists (clip (X / L) 0 1). split; [apply clip_bounds |].
    split; [reflexivity |].
    intros u Hu. unfold norm. apply sqrt_le_1_alt.
    rewrite !sum_squares_segment_point by assumption. fold v L X.
    apply clip_optimal; [lra | field; lra | exact Hu].
Qed.

(** X20: on a point and two endpoints of one dimension,
    [point_to_segment_distance] never raises and returns the distance
    from the point to the nearest point of the segment: the distance to
    some point of the segment, and no point of the segment is nearer.  A
    segment that is a single point is handled without a division. *)
Theorem point_to_segment_distance_is_nearest (p a b : ndarray) :
  List.length p = List.length a -> List.length a = List.length b ->
  exists d,
    detector.point_to_segment_distance p a b = Ok d /\
    0 <= d /\
    (exists t, 0 <= t <= 1 /\ d = norm (vsub p (segment_point a b t))) /\
    forall u, 0 <= u <= 1 -> d <= norm (vsub p (segment_point a b u)).
Proof.
  intros Hpa Hab.
  destruct (point_to_segment_cases p a b Hpa Hab) as (t & Ht & Hd & Hopt).
  eexists. split; [exact Hd |]. split; [apply norm_nonneg |].
  split; [exists t; split; [exact Ht | reflexivity] | exact Hopt].
Qed.

Lemma point_to_segment_distance_is_nearest_witness :
  exists d,
    detector.point_to_segment_distance [0; 1] [0; 0] [2; 0] = Ok d /\
    0 <= d.
Proof.
  destruct (point_to_segment_distance_is_nearest [0; 1] [0; 0] [2; 0]
              eq_refl eq_refl) as (d & Hd & Hpos & _).
  exists d. split; [exact Hd | exact Hpos].
Defined.

Lemma point_to_segment_le_ends (p a b : ndarray) :
  List.length p = List.length a -> List.length a = List.length b ->
  exists d,
    detector.point_to_segment_distance p a b = Ok d /\ 0 <= d /\
    d <= norm (vsub p a) /\ d <= norm (vsub p b).
Proof.
  intros Hpa Hab.
  destruct (point_to_segment_cases p a b Hpa Hab) as (t & Ht & Hd & Hopt).
  eexists. split; [exact Hd |]. split; [apply norm_nonneg |]. split.
  - specialize (Hopt 0 ltac:(lra)). unfold norm in Hopt at 2.
    rewrite sum_squares_segment_point in Hopt by assumption.
    replace (sum_squares (vsub p a) - 2 * 0 * dot (vsub p a) (vsub b a)
             + 0 * 0 * dot (vsub b a) (vsub b a))
      with (sum_squares (vsub p a)) in Hopt by ring.
    exact Hopt.
  - specialize (Hopt 1 ltac:(lra)). unfold norm in Hopt at 2.
    rewrite sum_squares_segment_end in Hopt by assumption. exact Hopt.
Qed.

Lemma Rmin4_comm (d1 d2 d3 d4 : R) :
  Rmin (Rmin (Rmin d3 d4) d1) d2 = Rmin (Rmin (Rmin d1 d2) d3) d4.
Proof. unfold Rmin. repeat destruct (Rle_dec _ _); lra. Qed.

(** X21: [segment_to_segment_distance] never raises, is never negative,
    does not depend on the order of the two segments, and is at most the
    distance between any endpoint of one segment and any endpoint of the
    other. *)
Theorem segment_to_segment_distance_bounds (s1 s2 : Segment.t)
  (include_z : bool) :
  exists d,
    detector.segment_to_segment_distance s1 s2 include_z = Ok d /\
    detector.segment_to_segment_distance s2 s1 include_z = Ok d /\
    0 <= d /\
    d <= norm (vsub (to_array (Segment.start s1) include_z)
                    (to_array (Segment.start s2) include_z)) /\
    d <= norm (vsub (to_array (Segment.start s1) include_z)
                    (to_array (Segment.end_ s2) include_z)) /\
    d <= norm (vsub (to_array (Segment.end_ s1) include_z)
                    (to_array (Segment.start s2) include_z)) /\
    d <= norm (vsub (to_array (Segment.end_ s1) include_z)
                    (to_array (Segment.end_ s2) include_z)).
Proof.
  unfold detector.segment_to_segment_distance.
  set (a1 := to_array (Segment.start s1) include_z).
  set (b1 := to_array (Segment.end_ s1) include_z).
  set (a2 := to_array (Segment.start s2) include_z).
  set (b2 := to_array (Segment.end_ s2) include_z).
  assert (HL : forall w1 w2, List.length (to_array w1 include_z)
                             = List.length (to_array w2 include_z))
    by (intros; now rewrite !length_to_array).
  destruct (point_to_segment_le_ends a1 a2 b2 (HL _ _) (HL _ _))
    as (d1 & -> & P1 & A1 & B1).
  destruct (point_to_segment_le_ends b1 a2 b2 (HL _ _) (HL _ _))
    as (d2 & -> & P2 & A2 & B2).
  destruct (point_to_segment_le_ends a2 a1 b1 (HL _ _) (HL _ _))
    as (d3 & -> & P3 & A3 & B3).
  destruct (point_to_segment_le_ends b2 a1 b1 (HL _ _) (HL _ _))
    as (d4 & -> & P4 & A4 & B4).
  cbn [bind]. eexists. split; [reflexivity |].
  split; [now rewrite Rmin4_comm |].
  unfold Rmin. repeat destruct (Rle_dec _ _); repeat split; lra.
Qed.


(** ** Loading and saving flights *)

Lemma flight_new_valid (f : Flight.t) :
  Flight.valid f ->
  Flight.new (Flight.id f) (Flight.waypoints f) (Flight.t_start f)
    (Flight.t_end f) (Flight.speed f) = Ok f.
Proof.
  destruct f as [i wps ts te sp]. intros (Hn & Hw & Hs). cbn in *.
  unfold Flight.new, Flight.post_init, bind.
  cbn [Flight.waypoints Flight.t_start Flight.t_end Flight.speed].
  destruct (Nat.ltb_spec (List.length wps) 2) as [H | _]; [lia |].
  rewrite (proj2 (Rleb_false te ts)), (proj2 (Rleb_false sp 0)) by lra.
  reflexivity.
Qed.

Lemma flight_new_ok (i : string) (wps : list Waypoint) (ts te sp : R)
  (f : Flight.t) :
  Flight.new i wps ts te sp = Ok f ->
  f = Flight.mk i wps ts te sp /\ Flight.valid f.
Proof.
  unfold Flight.new, Flight.post_init, bind.
  cbn [Flight.waypoints Flight.t_start Flight.t_end Flight.speed].
  destruct (Nat.ltb_spec (List.length wps) 2) as [H | Hn]; [discriminate |].
  destruct (Rleb te ts) eqn:Hw; [discriminate |].
  destruct (Rleb sp 0) eqn:Hs; [discriminate |].
  apply Rleb_false in Hw, Hs. intros E. injection E as <-.
  split; [reflexivity |]. unfold Flight.valid; cbn.
  repeat split; [lia | lra | lra].
Qed.

Lemma load_saved_waypoints (wps : list Waypoint) :
  load_waypoints
    (map (fun wp => mkWaypointDict (Some (x wp)) (Some (y wp)) (Some (z wp))
                      [])
       wps)
  = Loaded wps.
Proof.
  induction wps as [| [x0 y0 z0] wps IH]; cbn; [reflexivity |].
  rewrite IH. reflexivity.
Qed.

(** X22: saving a flight and loading it back runs the [Flight] constructor
    on the saved fields, with no key missing; a flight that the
    constructor has returned comes back unchanged. *)
Theorem load_after_save (f : Flight.t) :
  load_flight_from_dict (save_flight_to_dict f)
  = match Flight.new (Flight.id f) (Flight.waypoints f) (Flight.t_start f)
            (Flight.t_end f) (Flight.speed f) with
    | Ok g => Loaded g
    | Err e => Failed (Raised e)
    end /\
  forall (i : string) (wps : list Waypoint) (ts te sp : R),
    Flight.new i wps ts te sp = Ok f ->
    load_flight_from_dict (save_flight_to_dict f) = Loaded f.
Proof.
  assert (E : load_flight_from_dict (save_flight_to_dict f)
              = match Flight.new (Flight.id f) (Flight.waypoints f)
                        (Flight.t_start f) (Flight.t_end f)
                        (Flight.speed f) with
                | Ok g => Loaded g
                | Err e => Failed (Raised e)
                end).
  { unfold load_flight_from_dict, save_flight_to_dict.
    cbn [fd_waypoints fd_id fd_t_start fd_t_end fd_speed getitem and_then
           get].
    rewrite load_saved_waypoints. reflexivity. }
  split; [exact E |].
  intros i wps ts te sp H. apply flight_new_ok in H. destruct H as [_ V].
  rewrite E. now rewrite (flight_new_valid f V).
Qed.

Lemma load_after_save_witness :
  load_flight_from_dict (save_flight_to_dict hover_primary)
  = Loaded hover_primary.
Proof.
  apply (proj2 (load_after_save hover_primary) "PRIMARY"%string
           [wp55; wp55; wp55] 0 10 5).
  apply (flight_new_valid hover_primary). exact (proj1 hover_flights_valid).
Defined.

Lemma load_waypoints_cases (raw : list waypoint_dict) :
  (Forall has_xy raw /\ load_waypoints raw = Loaded (map waypoint_of raw)) \/
  (~ Forall has_xy raw /\
   exists key, load_waypoints raw = Failed (KeyError key) /\
               (key = "x"%string \/ key = "y"%string)).
Proof.
  induction raw as [| [wx wy wz wo] raw IH].
  - left. split; [constructor | reflexivity].
  - cbn [load_waypoints wp_x wp_y wp_z].
    destruct wx as [vx |].
    2:{ right. split.
        - intros H. inversion H as [| ? ? [Hx _] _]; subst. now apply Hx.
        - exists "x"%string. split; [reflexivity | now left]. }
    destruct wy as [vy |].
    2:{ right. split.
        - intros H. inversion H as [| ? ? [_ Hy] _]; subst. now apply Hy.
        - exists "y"%string. split; [reflexivity | now right]. }
    cbn [getitem and_then].
    destruct IH as [[Hall ->] | (Hnot & key & -> & Hkey)].
    + left. split; [| reflexivity].
      constructor; [split; discriminate | exact Hall].
    + right. split.
      * intros H. inversion H; subst. now apply Hnot.
      * exists key. split; [reflexivity | exact Hkey].
Qed.

(** X23: [load_flight_from_dict] returns a flight exactly when the
    dictionary has the keys 'waypoints', 'id', 't_start' and 't_end',
    every waypoint has 'x' and 'y', and the [Flight] constructor returns
    that flight for these values, with 0 for a missing 'z' and 5 for a
    missing 'speed'.  A dictionary without 'waypoints' raises [KeyError]
    for that key whatever else it holds. *)
Theorem load_succeeds_iff (data : flight_dict) (f : Flight.t) :
  (load_flight_from_dict data = Loaded f <->
   exists raw id t_start t_end,
     fd_waypoints data = Some raw /\ Forall has_xy raw /\
     fd_id data = Some id /\ fd_t_start data = Some t_start /\
     fd_t_end data = Some t_end /\
     Flight.new id (map waypoint_of raw) t_start t_end
       (get (fd_speed data) 5) = Ok f) /\
  (fd_waypoints data = None ->
   load_flight_from_dict data = Failed (KeyError "waypoints"%string)).
Proof.
  split.
  2:{ intros H. unfold load_flight_from_dict. now rewrite H. }
  unfold load_flight_from_dict.
  destruct (fd_waypoints data) as [raw |]; cbn [getitem and_then].
  2:{ split; [discriminate | intros (? & ? & ? & ? & H & _); discriminate]. }
  destruct (load_waypoints_cases raw)
    as [[Hall ->] | (Hnot & key & -> & _)]; cbn [and_then].
  2:{ split; [discriminate |].
      intros (raw' & ? & ? & ? & H & Hall & _).
      injection H as <-. contradiction. }
  destruct (fd_id data) as [i |]; cbn [getitem and_then].
  2:{ split; [discriminate | intros (? & ? & ? & ? & _ & _ & H & _);
                             discriminate]. }
  destruct (fd_t_start data) as [ts |]; cbn [getitem and_then].
  2:{ split; [discriminate | intros (? & ? & ? & ? & _ & _ & _ & H & _);
                             discriminate]. }
  destruct (fd_t_end data) as [te |]; cbn [getitem and_then].
  2:{ split; [discriminate | intros (? & ? & ? & ? & _ & _ & _ & _ & H & _);
                             discriminate]. }
  split.
  - intros H. exists raw, i, ts, te.
    repeat split; try reflexivity; try assumption.
    destruct (Flight.new i (map waypoint_of raw) ts te
                (get (fd_speed data) 5)); congruence.
  - intros (raw' & i' & ts' & te' & H1 & _ & H2 & H3 & H4 & H5).
    injection H1 as <-. injection H2 as <-. injection H3 as <-.
    injection H4 as <-. now rewrite H5.
Qed.

(** A dictionary with keys the loader does not read: a note on the
    flight and a label on its first waypoint; 'z' and 'speed' are
    missing. *)
Lemma sample_dict_loads :
  load_flight_from_dict
    (mkFlightDict (Some "A"%string)
       (Some [mkWaypointDict (Some 0) (Some 0) None ["label"%string];
              mkWaypointDict (Some 1) (Some 0) None []])
       (Some 0) (Some 1) None ["note"%string])
  = Loaded (Flight.mk "A"%string [mkWaypoint 0 0 0; mkWaypoint 1 0 0] 0 1 5).
Proof.
  assert (V : Flight.valid
                (Flight.mk "A"%string [mkWaypoint 0 0 0; mkWaypoint 1 0 0]
                   0 1 5)).
  { unfold Flight.valid; cbn. repeat split; [lia | lra | lra]. }
  pose proof (flight_new_valid _ V) as H.
  cbn [Flight.id Flight.waypoints Flight.t_start Flight.t_end Flight.speed]
    in H.
  unfold load_flight_from_dict.
  cbn [fd_waypoints fd_id fd_t_start fd_t_end fd_speed getitem and_then get
         load_waypoints wp_x wp_y wp_z].
  now rewrite H.
Qed.

Lemma load_succeeds_iff_witness :
  exists raw id t_start t_end,
    Some [mkWaypointDict (Some 0) (Some 0) None ["label"%string];
          mkWaypointDict (Some 1) (Some 0) None []] = Some raw /\
    Forall has_xy raw /\
    Some "A"%string = Some id /\ Some 0 = Some t_start /\
    Some 1 = Some t_end /\
    Flight.new id (map waypoint_of raw) t_start t_end 5
    = Ok (Flight.mk "A"%string [mkWaypoint 0 0 0; mkWaypoint 1 0 0] 0 1 5).
Proof.
  exact (proj1 (proj1 (load_succeeds_iff _ _)) sample_dict_loads).
Defined.

(** X24: a dictionary that loads is saved back cut down to the keys the
    loader reads, 'id', 'waypoints', 't_start', 't_end' and 'speed', and
    'x', 'y' and 'z' of every waypoint, with the same values under them,
    a missing 'z' filled in by 0 and a missing 'speed' by 5; every other
    key is dropped.  The saved dictionary loads as the same flight. *)
Theorem save_after_load (data : flight_dict) (f : Flight.t) :
  load_flight_from_dict data = Loaded f ->
  save_flight_to_dict f = fill_defaults data /\
  load_flight_from_dict (save_flight_to_dict f) = Loaded f.
Proof.
  intros H. unfold load_flight_from_dict in H.
  destruct data as [di dw dts dte dsp dothers].
  cbn [fd_waypoints fd_id fd_t_start fd_t_end fd_speed] in H.
  destruct dw as [raw |]; cbn [getitem and_then] in H; [| discriminate].
  destruct (load_waypoints_cases raw)
    as [[Hall Hl] | (_ & key & Hl & _)]; rewrite Hl in H;
    cbn [and_then] in H; [| discriminate].
  destruct di as [i |]; cbn [getitem and_then] in H; [| discriminate].
  destruct dts as [ts |]; cbn [getitem and_then] in H; [| discriminate].
  destruct dte as [te |]; cbn [getitem and_then] in H; [| discriminate].
  destruct (Flight.new i (map waypoint_of raw) ts te (get dsp 5))
    as [g | e] eqn:E; [| discriminate].
  injection H as <-. apply flight_new_ok in E. destruct E as [-> V].
  split.
  - unfold save_flight_to_dict, fill_defaults; cbn. f_equal. f_equal.
    rewrite map_map. apply map_ext_in. intros [wx wy wz wo] Hin.
    rewrite Forall_forall in Hall. destruct (Hall _ Hin) as [Hx Hy].
    cbn in Hx, Hy |- *.
    destruct wx; [| contradiction]. destruct wy; [| contradiction].
    reflexivity.
  - unfold load_flight_from_dict, save_flight_to_dict.
    cbn [fd_waypoints fd_id fd_t_start fd_t_end fd_speed getitem and_then
           get].
    rewrite load_saved_waypoints. cbn [and_then].
    now rewrite (flight_new_valid _ V).
Qed.

Lemma save_after_load_witness :
  save_flight_to_dict
    (Flight.mk "A"%string [mkWaypoint 0 0 0; mkWaypoint 1 0 0] 0 1 5)
  = mkFlightDict (Some "A"%string)
      (Some [mkWaypointDict (Some 0) (Some 0) (Some 0) [];
             mkWaypointDict (Some 1) (Some 0) (Some 0) []])
      (Some 0) (Some 1) (Some 5) [].
Proof.
  apply (proj1 (save_after_load _ _ sample_dict_loads)).
Defined.

(** ** Sampling a trajectory *)

(** The sample times [interpolate_trajectory] takes on one segment. *)
Lemma segment_samples (s : Segment.t) (dt : R) :
  Segment.wf s -> 0 < dt ->
  exists l,
    arange (Segment.t_start s) (Segment.t_end s) dt = Ok l /\
    let l' := if (List.length l =? 0)%nat
                 || Rltb (last l 0) (Segment.t_end s - dt / 2)
              then l ++ [Segment.t_end s] else l in
    l' <> [] /\
    forall t, In t l' -> Segment.t_start s <= t <= Segment.t_end s.
Proof.
  unfold Segment.wf. intros W Hdt. unfold arange, divide.
  rewrite (proj2 (Reqb_false dt 0)) by lra. cbn [bind].
  set (q := (Segment.t_end s - Segment.t_start s) / dt).
  set (n := Z.to_nat (Zceil q)).
  set (l := map (fun i => Segment.t_start s + INR i * dt) (seq 0 n)).
  exists l. split; [reflexivity |].
  assert (Hq : q * dt = Segment.t_end s - Segment.t_start s)
    by (unfold q; field; lra).
  assert (Hl : forall t, In t l -> Segment.t_start s <= t <= Segment.t_end s).
  { intros t Ht. unfold l in Ht. apply in_map_iff in Ht.
    destruct Ht as (i & <- & Hi). apply in_seq in Hi.
    pose proof (pos_INR i) as Hi0.
    assert (Hiq : INR i < q).
    { pose proof (Zceil_bound q) as [Hc _].
      assert (Hz : (Z.of_nat i < Zceil q)%Z) by (unfold n in Hi; lia).
      apply IZR_lt in Hz. rewrite <- INR_IZR_INZ in Hz.
      assert (INR i + 1 <= IZR (Zceil q)).
      { assert (Hz' : (Z.of_nat i + 1 <= Zceil q)%Z) by (unfold n in Hi; lia).
        apply IZR_le in Hz'. rewrite plus_IZR, <- INR_IZR_INZ in Hz'.
        exact Hz'. }
      lra. }
    split; [nra | nra]. }
  cbv zeta.
  destruct ((List.length l =? 0)%nat
            || Rltb (last l 0) (Segment.t_end s - dt / 2)) eqn:E.
  - split; [intros H; now apply app_eq_nil in H as [_ H'] |].
    intros t Ht. apply in_app_iff in Ht. destruct Ht as [Ht | [<- | []]];
      [now apply Hl | lra].
  - apply orb_false_iff in E. destruct E as [E _].
    apply Nat.eqb_neq in E.
    split; [intros H; rewrite H in E; now apply E | exact Hl].
Qed.

Lemma sample_positions (s : Segment.t) (include_z : bool) (l : list R) :
  (forall t, In t l -> Segment.t_start s <= t <= Segment.t_end s) ->
  forall times positions,
    for_each l
      (fun (acc : list R * list ndarray) t =>
         let (times, positions) := acc in
         pos <- Segment.position_at_time s t include_z ;;
         Ok (times ++ [t], positions ++ [pos]))
      (times, positions)
    = Ok (times ++ l,
          positions ++ map (fun t => position s t include_z) l).
Proof.
  induction l as [| t l IH]; intros Hin times positions; cbn [for_each map].
  - now rewrite !app_nil_r.
  - rewrite position_at_time_inside by (apply Hin; now left). cbn [bind].
    rewrite IH by (intros u Hu; apply Hin; now right).
    now rewrite <- !app_assoc.
Qed.

Lemma sample_segments (include_z : bool) (dt : R) (segs : list Segment.t) :
  0 < dt -> Forall Segment.wf segs ->
  forall times positions,
  exists times' positions',
    for_each segs
      (fun (acc : list R * list ndarray) segment =>
         t_samples <- arange (Segment.t_start segment)
                        (Segment.t_end segment) dt ;;
         let t_samples :=
           if (List.length t_samples =? 0)%nat
              || Rltb (last t_samples 0) (Segment.t_end segment - dt / 2)
           then t_samples ++ [Segment.t_end segment]
           else t_samples in
         for_each t_samples
           (fun (acc : list R * list ndarray) t =>
              let (times, positions) := acc in
              pos <- Segment.position_at_time segment t include_z ;;
              Ok (times ++ [t], positions ++ [pos]))
           acc)
      (times, positions)
    = Ok (times ++ times', positions ++ positions') /\
    Forall2 (sampled_on segs include_z) times' positions' /\
    (segs <> [] -> times' <> []).
Proof.
  intros Hdt Hwf.
  match goal with
  | |- forall times positions, exists _ _, for_each _ ?b _ = _ /\ _ =>
      set (body := b)
  end.
  induction Hwf as [| s segs Ws _ IH]; intros times positions.
  - exists [], []. cbn. rewrite !app_nil_r.
    split; [reflexivity |]. split; [constructor | congruence].
  - cbn [for_each]. unfold body at 1.
    destruct (segment_samples s dt Ws Hdt) as (l & Hl & Hne & Hin).
    rewrite Hl. cbn [bind]. cbv zeta in Hne, Hin |- *.
    set (l' := if (List.length l =? 0)%nat
                  || Rltb (last l 0) (Segment.t_end s - dt / 2)
               then l ++ [Segment.t_end s] else l) in *.
    rewrite (sample_positions s include_z l' Hin). cbn [bind].
    destruct (IH (times ++ l')
                (positions ++ map (fun t => position s t include_z) l'))
      as (T & P & Hrun & Hall & _).
    exists (l' ++ T), (map (fun t => position s t include_z) l' ++ P).
    rewrite Hrun, <- !app_assoc. split; [reflexivity |]. split.
    + apply Forall2_app.
      * clear -Hin. induction l' as [| t l' IHl]; cbn; constructor.
        -- exists s. split; [now left |]. split; [| reflexivity].
           apply Hin. now left.
        -- eapply Forall2_impl; [| apply IHl; intros u Hu; apply Hin; now right].
           intros u p (s' & Hs' & Hr & ->). exists s'.
           split; [exact Hs' |]. now split.
      * eapply Forall2_impl; [| exact Hall].
        intros u p (s' & Hs' & Hr & ->). exists s'.
        split; [now right |]. now split.
    + intros _ H. apply app_eq_nil in H. destruct H as [H _]. now apply Hne.
Qed.


(** Over exact reals the sampling returns for every valid flight and
    positive step. *)
Lemma interpolate_trajectory_returns (f : Flight.t) (dt : R) :
  Flight.valid f -> 0 < dt ->
  exists times positions,
    trajectory.interpolate_trajectory f dt = Ok (times, positions).
Proof.
  intros Hv Hdt.
  destruct (build_segments_wf f Hv) as (segs & Hs & Hwf).
  unfold trajectory.interpolate_trajectory. rewrite Hs. cbn [bind].
  destruct (sample_segments (Flight.is_3d f) dt segs Hdt Hwf [] [])
    as (times & positions & Hrun & _).
  cbv zeta in Hrun |- *. rewrite Hrun. cbn [app]. now do 2 eexists.
Qed.

Lemma sample_positions_returned (s : Segment.t) (include_z : bool) :
  forall (l times : list R) (positions : list ndarray) (times' : list R)
         (positions' : list ndarray),
    for_each l
      (fun (acc : list R * list ndarray) t =>
         let (times, positions) := acc in
         pos <- Segment.position_at_time s t include_z ;;
         Ok (times ++ [t], positions ++ [pos]))
      (times, positions)
    = Ok (times', positions') ->
    times' = times ++ l /\
    positions' = positions ++ map (fun t => position s t include_z) l /\
    forall t, In t l -> Segment.t_start s <= t <= Segment.t_end s.
Proof.
  induction l as [| t l IH]; intros T P T' P' H; cbn [for_each] in H.
  - injection H as <- <-. rewrite !app_nil_r.
    split; [reflexivity |]. split; [reflexivity |]. intros t [].
  - destruct (Segment.position_at_time s t include_z) as [pos | e] eqn:E;
      cbn [bind] in H; [| discriminate].
    apply position_at_time_returned in E. destruct E as [Hin ->].
    apply IH in H. destruct H as (-> & -> & Hall).
    rewrite <- !app_assoc. cbn [app map].
    split; [reflexivity |]. split; [reflexivity |].
    intros u [<- | Hu]; [exact Hin | now apply Hall].
Qed.

Lemma sample_segments_returned (include_z : bool) (dt : R) :
  forall (segs : list Segment.t) (times : list R) (positions : list ndarray)
         (times' : list R) (positions' : list ndarray),
    for_each segs
      (fun (acc : list R * list ndarray) segment =>
         t_samples <- arange (Segment.t_start segment)
                        (Segment.t_end segment) dt ;;
         let t_samples :=
           if (List.length t_samples =? 0)%nat
              || Rltb (last t_samples 0) (Segment.t_end segment - dt / 2)
           then t_samples ++ [Segment.t_end segment]
           else t_samples in
         for_each t_samples
           (fun (acc : list R * list ndarray) t =>
              let (times, positions) := acc in
              pos <- Segment.position_at_time segment t include_z ;;
              Ok (times ++ [t], positions ++ [pos]))
           acc)
      (times, positions)
    = Ok (times', positions') ->
    exists T P,
      times' = times ++ T /\ positions' = positions ++ P /\
      Forall2 (sampled_on segs include_z) T P /\
      (segs <> [] -> T <> []).
Proof.
  induction segs as [| s segs IH]; intros times positions times' positions' H;
    cbn [for_each] in H.
  - injection H as <- <-. exists [], []. rewrite !app_nil_r.
    split; [reflexivity |]. split; [reflexivity |].
    split; [constructor | congruence].
  - destruct (arange (Segment.t_start s) (Segment.t_end s) dt) as [l | e];
      cbn [bind] in H; [| discriminate].
    cbv zeta in H.
    set (l' := if (List.length l =? 0)%nat
                  || Rltb (last l 0) (Segment.t_end s - dt / 2)
               then l ++ [Segment.t_end s] else l) in *.
    assert (Hne : l' <> []).
    { unfold l'. destruct (List.length l =? 0)%nat eqn:E0; cbn [orb].
      - intros E. now apply app_eq_nil in E as [_ E'].
      - assert (l <> []) by (intros ->; discriminate).
        destruct (Rltb _ _); [| assumption].
        intros E. now apply app_eq_nil in E as [_ E']. }
    match type of H with
    | bind ?m _ = _ => destruct m as [[T1 P1] | e] eqn:E1
    end; cbn [bind] in H; [| discriminate].
    apply sample_positions_returned in E1. destruct E1 as (-> & -> & Hin).
    apply IH in H. destruct H as (T & P & -> & -> & Hall & _).
    exists (l' ++ T), (map (fun t => position s t include_z) l' ++ P).
    rewrite <- !app_assoc.
    split; [reflexivity |]. split; [reflexivity |]. split.
    + apply Forall2_app.
      * clear -Hin. induction l' as [| t l' IHl]; cbn; constructor.
        -- exists s. split; [now left |]. split; [| reflexivity].
           apply Hin. now left.
        -- eapply Forall2_impl; [| apply IHl; intros u Hu; apply Hin; now right].
           intros u p (s' & Hs' & Hr & ->). exists s'.
           split; [exact Hs' |]. now split.
      * eapply Forall2_impl; [| exact Hall].
        intros u p (s' & Hs' & Hr & ->). exists s'.
        split; [now right |]. now split.
    + intros _ E. apply app_eq_nil in E. destruct E as [E _]. now apply Hne.
Qed.

(** X25: whenever [interpolate_trajectory] returns, it returns as many
    positions as times, and every position is the interpolated position,
    in the flight's own dimensionality, of a segment of the flight whose
    span holds the time; for a valid flight there is at least one
    sample. *)
Theorem interpolate_trajectory_in_range (f : Flight.t) (dt : R)
  (times : list R) (positions : list ndarray) :
  trajectory.interpolate_trajectory f dt = Ok (times, positions) ->
  List.length times = List.length positions /\
  Forall2 (sampled_on (segments_of f) (Flight.is_3d f)) times positions /\
  (Flight.valid f -> times <> []).
Proof.
  unfold trajectory.interpolate_trajectory. intros H.
  destruct (trajectory.build_segments f) as [segs | e] eqn:Hs;
    cbn [bind] in H; [| discriminate].
  cbv zeta in H. apply sample_segments_returned in H.
  destruct H as (T & P & -> & -> & Hall & Hne). cbn [app].
  assert (Hsegs : segments_of f = segs) by (unfold segments_of; now rewrite Hs).
  rewrite Hsegs.
  split; [eapply Forall2_length; exact Hall |]. split; [exact Hall |].
  intros Hv. apply Hne. intros ->.
  destruct (build_segments_spec f Hv) as (? & segs' & _ & Hs' & Hl & _).
  assert (segs' = []) as -> by congruence.
  destruct Hv as (Hn & _). cbn in Hl. lia.
Qed.

Lemma interpolate_trajectory_in_range_witness :
  exists times positions,
    trajectory.interpolate_trajectory simple_flight 1 = Ok (times, positions) /\
    List.length times = List.length positions /\
    times <> [].
Proof.
  destruct (interpolate_trajectory_returns simple_flight 1
              simple_flight_valid ltac:(lra)) as (times & positions & H).
  exists times, positions. split; [exact H |].
  destruct (interpolate_trajectory_in_range simple_flight 1 times positions H)
    as (Hl & _ & Hne).
  split; [exact Hl | exact (Hne simple_flight_valid)].
Defined.
